(** * VidCutter: the clip timeline and the export pipeline of [vidcutter.py]

    A shallow embedding of the methods of class [VidCutter] that own the
    clip list ([clipTimes], [inCut]) and drive the trim/concatenate backend,
    together with the Python and Qt library operations those methods use.

    - Python floats are IEEE binary64 values ([spec_float], precision 53),
      computed with the reference operations of [SpecFloat].
    - Python lists carry Python's index conventions (negative indices,
      clamping [insert], [IndexError]).
    - Exceptions are explicit: a method returns [Ret v] or [Raise e], and
      the state reached when the exception was raised is kept.
    - The file system and every call that leaves the process (backend,
      dialogs, file operations) are part of the state, the latter as a log. *)

From Stdlib Require Import ZArith SpecFloat Permutation Ascii String DecimalString
  DecimalNat.
From stdpp Require Import base option list strings gmap.

Local Open Scope string_scope.
Local Open Scope Z_scope.
Local Open Scope list_scope.

(** ** Python floats *)

Module Binary64.

Definition prec : Z := 53.
Definition emax : Z := 1024.

Definition of_Z (n : Z) : spec_float := binary_normalize prec emax n 0 false.
Definition div (x y : spec_float) : spec_float := SFdiv prec emax x y.
Definition mul (x y : spec_float) : spec_float := SFmul prec emax x y.
Definition add (x y : spec_float) : spec_float := SFadd prec emax x y.

(** [x < 0.0] in C: false on zeros and NaN. *)
Definition is_neg (x : spec_float) : bool :=
  match x with
  | S754_finite s _ _ | S754_infinity s => s
  | _ => false
  end.

Definition sign_bit (x : spec_float) : bool :=
  match x with
  | S754_finite s _ _ | S754_infinity s | S754_zero s => s
  | S754_nan => false
  end.

(** C's [fmod]: the exact remainder of the truncated quotient, with the sign
    of [x]; it is always representable, so the rounding below is exact. *)
Definition fmod (x y : spec_float) : spec_float :=
  match x, y with
  | S754_nan, _ | _, S754_nan => S754_nan
  | S754_infinity _, _ => S754_nan
  | _, S754_zero _ => S754_nan
  | S754_zero _, _ => x
  | S754_finite _ _ _, S754_infinity _ => x
  | S754_finite sx mx ex, S754_finite _ my ey =>
      let e := Z.min ex ey in
      let X := Z.shiftl (Zpos mx) (ex - e) in
      let Y := Z.shiftl (Zpos my) (ey - e) in
      binary_normalize prec emax (cond_Zopp sx (Z.rem X Y)) e sx
  end.

(** Truncation toward zero; [None] on infinities and NaN. *)
Definition trunc (x : spec_float) : option Z :=
  match x with
  | S754_zero _ => Some 0
  | S754_finite s m e =>
      Some (cond_Zopp s
              (if 0 <=? e then Z.shiftl (Zpos m) e else Z.shiftr (Zpos m) (- e)))
  | _ => None
  end.

End Binary64.

(** ** Python values, exceptions and lists *)

Inductive exn :=
  | IndexError
  | TypeError
  | OverflowError
  | ValueError
  | ZeroDivisionError
  | FileNotFoundError.

Inductive outcome (A : Type) :=
  | Ret (a : A)
  | Raise (e : exn).
Arguments Ret {A} a.
Arguments Raise {A} e.

Definition of_option {A} (e : exn) (o : option A) : outcome A :=
  match o with Some a => Ret a | None => Raise e end.

Module Py.

Definition int_as_float (n : Z) : spec_float :=
  match n with
  | Z0 => S754_zero false
  | Zpos p => S754_finite false p 0
  | Zneg p => S754_finite true p 0
  end.

(** [a / b] on two ints: the correctly rounded quotient. *)
Definition int_truediv (a b : Z) : outcome spec_float :=
  if b =? 0 then Raise ZeroDivisionError
  else match SFdiv Binary64.prec Binary64.emax (int_as_float a) (int_as_float b) with
       | S754_infinity _ | S754_nan => Raise OverflowError
       | q => Ret q
       end.

(** [v % w] on floats ([float_rem] of CPython): the result takes the sign of
    the divisor. *)
Definition float_rem (v w : spec_float) : outcome spec_float :=
  match w with
  | S754_zero _ => Raise ZeroDivisionError
  | _ =>
      let r := Binary64.fmod v w in
      match r with
      | S754_zero _ => Ret (S754_zero (Binary64.sign_bit w))
      | _ => if xorb (Binary64.is_neg w) (Binary64.is_neg r)
             then Ret (Binary64.add r w) else Ret r
      end
  end.

(** The conversion PyQt applies to a float passed where C++ takes an [int]:
    [float.__int__], i.e. truncation. *)
Definition int_of_float (x : spec_float) : outcome Z :=
  match x with
  | S754_nan => Raise ValueError
  | S754_infinity _ => Raise OverflowError
  | _ => of_option OverflowError (Binary64.trunc x)
  end.

Section Lists.
Context {A : Type}.

(** The position that [l[i]], [del l[i]] and [l.pop(i)] address. *)
Definition index (l : list A) (i : Z) : option nat :=
  let n := Z.of_nat (length l) in
  if (0 <=? i) && (i <? n) then Some (Z.to_nat i)
  else if (- n <=? i) && (i <? 0) then Some (Z.to_nat (i + n))
  else None.

Definition getitem (l : list A) (i : Z) : outcome A :=
  of_option IndexError (index l i ≫= λ k, l !! k).

Definition delitem (l : list A) (i : Z) : outcome (list A) :=
  of_option IndexError ((λ k, delete k l) <$> index l i).

Definition pop (l : list A) (i : Z) : outcome (A * list A) :=
  of_option IndexError (index l i ≫= λ k, (λ x, (x, delete k l)) <$> l !! k).

(** [l.insert(i, x)] never fails: the position is clamped. *)
Definition insert (l : list A) (i : Z) (x : A) : list A :=
  let n := Z.of_nat (length l) in
  let w := if i <? 0 then Z.max 0 (i + n) else Z.min i n in
  take (Z.to_nat w) l ++ x :: drop (Z.to_nat w) l.

(** [l[i] = x] *)
Definition setitem (l : list A) (i : Z) (x : A) : outcome (list A) :=
  of_option IndexError ((λ k, <[k := x]> l) <$> index l i).
End Lists.

(** ['{0:0>2}'.format(n)] for [n >= 0]: decimal, padded with zeros on the
    left to width two. *)
Definition decimal (n : nat) : string := NilZero.string_of_uint (Nat.to_uint n).

Definition format_02 (n : nat) : string :=
  let s := decimal n in
  if (String.length s <? 2)%nat then "0" +:+ s else s.

(** The [replace] call of [joinVideos]: a backslash (code 92) is put before
    every single quote (code 39). *)
Fixpoint str_replace_quote (s : string) : string :=
  match s with
  | "" => ""
  | String c s' =>
      if Ascii.eqb c "039"%char
      then String "092"%char (String "039"%char (str_replace_quote s'))
      else String c (str_replace_quote s')
  end.

End Py.

#[global] Instance outcome_ret : MRet outcome := @Ret.
#[global] Instance outcome_bind : MBind outcome := λ A B f m,
  match m with
  | Ret a => f a
  | Raise e => Raise e
  end.

(** ** Qt's [QTime] *)

Module QTime.

(** Milliseconds since midnight, or [-1] for the null (invalid) time. *)
Record t := Make { mds : Z }.

#[global] Instance eq_dec : EqDecision t.
Proof. solve_decision. Defined.

Definition MSECS_PER_DAY : Z := 86400000.
Definition null : t := Make (-1).

Definition isValid (x : t) : bool := (-1 <? mds x) && (mds x <? MSECS_PER_DAY).

(** [QTime(h, m, s, ms)]: the null time unless every field is in range. *)
Definition fromHMS (h m s ms : Z) : t :=
  if (0 <=? h) && (h <? 24) && (0 <=? m) && (m <? 60)
     && (0 <=? s) && (s <? 60) && (0 <=? ms) && (ms <? 1000)
  then Make ((h * 3600 + m * 60 + s) * 1000 + ms)
  else null.

Definition hour (x : t) : Z := if isValid x then mds x / 3600000 else -1.
Definition minute (x : t) : Z := if isValid x then (mds x mod 3600000) / 60000 else -1.
Definition second (x : t) : Z := if isValid x then (mds x / 1000) mod 60 else -1.
Definition msec (x : t) : Z := if isValid x then mds x mod 1000 else -1.

Definition two_digits (n : Z) : string := Py.format_02 (Z.to_nat n).

(** [toString('hh:mm:ss')], the only format the program uses
    ([self.timeformat]); the empty string for an invalid time. *)
Definition toString (x : t) : string :=
  if isValid x
  then two_digits (hour x) +:+ ":" +:+ two_digits (minute x) +:+ ":" +:+ two_digits (second x)
  else "".

Definition msecsTo (x y : t) : Z :=
  if isValid x && isValid y then mds y - mds x else 0.

Definition ltb (x y : t) : bool := mds x <? mds y.

Definition addSecs (x : t) (s : Z) : t :=
  if isValid x then Make ((mds x + s * 1000) mod MSECS_PER_DAY) else null.

End QTime.

(** ** [posixpath] *)

Module Path.

Fixpoint rfind_from (c : ascii) (s : string) (i found : Z) : Z :=
  match s with
  | "" => found
  | String a s' => rfind_from c s' (i + 1) (if Ascii.eqb a c then i else found)
  end.

(** [s.rfind(c)]: the last position of [c], or [-1]. *)
Definition rfind (c : ascii) (s : string) : Z := rfind_from c s 0 (-1).

Fixpoint str_take (n : nat) (s : string) : string :=
  match n, s with
  | S n', String a s' => String a (str_take n' s')
  | _, _ => ""
  end.

Fixpoint str_drop (n : nat) (s : string) : string :=
  match n, s with
  | S n', String _ s' => str_drop n' s'
  | _, _ => s
  end.

Fixpoint all_char (c : ascii) (s : string) : bool :=
  match s with
  | "" => true
  | String a s' => Ascii.eqb a c && all_char c s'
  end.

(** [os.path.splitext]: the extension starts at the last dot of the last
    component, unless that component has nothing but dots before it. *)
Definition splitext (p : string) : string * string :=
  let sepIndex := rfind "/"%char p in
  let dotIndex := rfind "."%char p in
  if sepIndex <? dotIndex then
    let lead := str_take (Z.to_nat (dotIndex - (sepIndex + 1)))
                         (str_drop (Z.to_nat (sepIndex + 1)) p) in
    if all_char "."%char lead then (p, "")
    else (str_take (Z.to_nat dotIndex) p, str_drop (Z.to_nat dotIndex) p)
  else (p, "").

Fixpoint rstrip_rev (c : ascii) (r : string) : string :=
  match r with
  | String a r' => if Ascii.eqb a c then rstrip_rev c r' else r
  | "" => ""
  end.

Definition rstrip (c : ascii) (s : string) : string :=
  String.rev (rstrip_rev c (String.rev s)).

Definition dirname (p : string) : string :=
  let i := rfind "/"%char p + 1 in
  let head := str_take (Z.to_nat i) p in
  if negb (String.eqb head "") && negb (all_char "/"%char head)
  then rstrip "/"%char head else head.

Definition endswith (c : ascii) (s : string) : bool :=
  match String.rev s with
  | String a _ => Ascii.eqb a c
  | "" => false
  end.

(** [os.path.join(a, b)] for a relative [b]. *)
Definition join (a b : string) : string :=
  if String.eqb a "" || endswith "/"%char a then a +:+ b else a +:+ "/" +:+ b.

Fixpoint split_acc (c : ascii) (s : string) (cur : string) : list string :=
  match s with
  | "" => [String.rev cur]
  | String a s' =>
      if Ascii.eqb a c then String.rev cur :: split_acc c s' ""
      else split_acc c s' (String a cur)
  end.

Definition split (c : ascii) (s : string) : list string := split_acc c s "".

Definition norm_step (initial_slashes : nat) (new_comps : list string) (comp : string)
  : list string :=
  if String.eqb comp "" || String.eqb comp "." then new_comps
  else if negb (String.eqb comp "..")
          || ((initial_slashes =? 0)%nat && bool_decide (new_comps = []))
          || bool_decide (last new_comps = Some "..")
       then new_comps ++ [comp]
       else removelast new_comps.

Definition normpath (p : string) : string :=
  if String.eqb p "" then "." else
  let initial_slashes : nat :=
    if String.prefix "/" p
    then (if String.prefix "//" p && negb (String.prefix "///" p) then 2 else 1)%nat
    else 0%nat in
  let comps := fold_left (norm_step initial_slashes) (split "/"%char p) [] in
  let q := String.concat "/" comps in
  let q := (if (initial_slashes =? 2)%nat then "//" else
            if (initial_slashes =? 1)%nat then "/" else "") +:+ q in
  if String.eqb q "" then "." else q.

End Path.

(** ** [VidCutter.deltaToQTime] *)

Definition deltaToQTime (millisecs : Z) : outcome QTime.t :=
  secs ← Py.int_truediv millisecs 1000;
  a1 ← Py.float_rem (Binary64.div secs (Binary64.of_Z 3600)) (Binary64.of_Z 60);
  a2 ← Py.float_rem (Binary64.div secs (Binary64.of_Z 60)) (Binary64.of_Z 60);
  a3 ← Py.float_rem secs (Binary64.of_Z 60);
  a4 ← Py.float_rem (Binary64.mul secs (Binary64.of_Z 1000)) (Binary64.of_Z 1000);
  h ← Py.int_of_float a1;
  m ← Py.int_of_float a2;
  s ← Py.int_of_float a3;
  ms ← Py.int_of_float a4;
  Ret (QTime.fromHMS h m s ms).

(** ** The state of the application *)

(** A thumbnail ([QPixmap]); only its identity matters. *)
Definition pixmap := nat.

(** One entry of [self.clipTimes]: the Python list [[start, end, image]].
    [clip_end] is [None] while the entry still holds the empty string that
    [cutStart] puts there; [clip_image] is [None] for Python's [None]. *)
Record clip := Clip {
  clip_start : QTime.t;
  clip_end : option QTime.t;
  clip_image : option pixmap
}.

#[global] Instance clip_eq_dec : EqDecision clip.
Proof. solve_decision. Defined.

(** The [QAction]s whose enabled flag the program changes. *)
Inductive action :=
  | playAction | cutStartAction | cutEndAction | saveAction
  | moveItemUpAction | moveItemDownAction | removeItemAction | removeAllAction
  | mediaInfoAction.

#[global] Instance action_eq_dec : EqDecision action.
Proof. solve_decision. Defined.

(** The enabled flag of each of them. *)
Record Flags := MkFlags {
  on_play : bool;
  on_cutStart : bool;
  on_cutEnd : bool;
  on_save : bool;
  on_moveItemUp : bool;
  on_moveItemDown : bool;
  on_removeItem : bool;
  on_removeAll : bool;
  on_mediaInfo : bool
}.

Definition flag (a : action) (f : Flags) : bool :=
  match a with
  | playAction => on_play f
  | cutStartAction => on_cutStart f
  | cutEndAction => on_cutEnd f
  | saveAction => on_save f
  | moveItemUpAction => on_moveItemUp f
  | moveItemDownAction => on_moveItemDown f
  | removeItemAction => on_removeItem f
  | removeAllAction => on_removeAll f
  | mediaInfoAction => on_mediaInfo f
  end.

Definition with_flag (a : action) (b : bool) (f : Flags) : Flags :=
  match a with
  | playAction =>
      MkFlags b (on_cutStart f) (on_cutEnd f) (on_save f) (on_moveItemUp f) (on_moveItemDown f) (on_removeItem f) (on_removeAll f) (on_mediaInfo f)
  | cutStartAction =>
      MkFlags (on_play f) b (on_cutEnd f) (on_save f) (on_moveItemUp f) (on_moveItemDown f) (on_removeItem f) (on_removeAll f) (on_mediaInfo f)
  | cutEndAction =>
      MkFlags (on_play f) (on_cutStart f) b (on_save f) (on_moveItemUp f) (on_moveItemDown f) (on_removeItem f) (on_removeAll f) (on_mediaInfo f)
  | saveAction =>
      MkFlags (on_play f) (on_cutStart f) (on_cutEnd f) b (on_moveItemUp f) (on_moveItemDown f) (on_removeItem f) (on_removeAll f) (on_mediaInfo f)
  | moveItemUpAction =>
      MkFlags (on_play f) (on_cutStart f) (on_cutEnd f) (on_save f) b (on_moveItemDown f) (on_removeItem f) (on_removeAll f) (on_mediaInfo f)
  | moveItemDownAction =>
      MkFlags (on_play f) (on_cutStart f) (on_cutEnd f) (on_save f) (on_moveItemUp f) b (on_removeItem f) (on_removeAll f) (on_mediaInfo f)
  | removeItemAction =>
      MkFlags (on_play f) (on_cutStart f) (on_cutEnd f) (on_save f) (on_moveItemUp f) (on_moveItemDown f) b (on_removeAll f) (on_mediaInfo f)
  | removeAllAction =>
      MkFlags (on_play f) (on_cutStart f) (on_cutEnd f) (on_save f) (on_moveItemUp f) (on_moveItemDown f) (on_removeItem f) b (on_mediaInfo f)
  | mediaInfoAction =>
      MkFlags (on_play f) (on_cutStart f) (on_cutEnd f) (on_save f) (on_moveItemUp f) (on_moveItemDown f) (on_removeItem f) (on_removeAll f) b
  end.

(** What a file holds. *)
Inductive content :=
  | Trimmed (source frametime duration : string)
  | Joined (entries : list string)
  | ListText (lines : list string)
  | Other (tag : nat).

(** Every call that leaves the process, in the order it is made. *)
Inductive event :=
  | Capture (source frametime : string)
  | Cut (source output frametime duration : string)
  | Join (listfile output : string)
  | WriteFile (path : string) (lines : list string)
  | OsRemove (path : string)
  | QFileRemove (path : string)
  | QFileRename (oldName newName : string)
  | Critical (title : string)
  | Completion (path : string).

#[global] Instance event_eq_dec : EqDecision event.
Proof. solve_decision. Defined.

Record State := MkState {
  clipTimes : list clip;
  inCut : bool;
  finalFilename : string;
  enabled : Flags;
  cliplist_count : Z;               (* self.cliplist.count() *)
  cliplist_currentRow : Z;          (* self.cliplist.currentRow() *)
  position : Z;                     (* self.mediaPlayer.position() *)
  media : string;                   (* local file of currentMedia() *)
  files : gmap string content;
  log : list event
}.

Definition set_clipTimes (v : list clip) (s : State) : State :=
  MkState v (inCut s) (finalFilename s) (enabled s) (cliplist_count s)
          (cliplist_currentRow s) (position s) (media s) (files s) (log s).
Definition set_inCut (v : bool) (s : State) : State :=
  MkState (clipTimes s) v (finalFilename s) (enabled s) (cliplist_count s)
          (cliplist_currentRow s) (position s) (media s) (files s) (log s).
Definition set_finalFilename (v : string) (s : State) : State :=
  MkState (clipTimes s) (inCut s) v (enabled s) (cliplist_count s)
          (cliplist_currentRow s) (position s) (media s) (files s) (log s).
Definition set_enabled (v : Flags) (s : State) : State :=
  MkState (clipTimes s) (inCut s) (finalFilename s) v (cliplist_count s)
          (cliplist_currentRow s) (position s) (media s) (files s) (log s).
Definition set_cliplist (count row : Z) (s : State) : State :=
  MkState (clipTimes s) (inCut s) (finalFilename s) (enabled s) count
          row (position s) (media s) (files s) (log s).
Definition set_position (v : Z) (s : State) : State :=
  MkState (clipTimes s) (inCut s) (finalFilename s) (enabled s) (cliplist_count s)
          (cliplist_currentRow s) v (media s) (files s) (log s).
Definition set_media (v : string) (s : State) : State :=
  MkState (clipTimes s) (inCut s) (finalFilename s) (enabled s) (cliplist_count s)
          (cliplist_currentRow s) (position s) v (files s) (log s).
Definition set_files (v : gmap string content) (s : State) : State :=
  MkState (clipTimes s) (inCut s) (finalFilename s) (enabled s) (cliplist_count s)
          (cliplist_currentRow s) (position s) (media s) v (log s).
Definition set_log (v : list event) (s : State) : State :=
  MkState (clipTimes s) (inCut s) (finalFilename s) (enabled s) (cliplist_count s)
          (cliplist_currentRow s) (position s) (media s) (files s) v.

(** ** Methods as state transformers that may raise *)

Definition M (A : Type) : Type := State → outcome A * State.

#[global] Instance M_ret : MRet M := λ A a s, (Ret a, s).
#[global] Instance M_bind : MBind M := λ A B f m s,
  match m s with
  | (Ret a, s') => f a s'
  | (Raise e, s') => (Raise e, s')
  end.

Definition get {A} (f : State → A) : M A := λ s, (Ret (f s), s).
Definition modify (f : State → State) : M unit := λ s, (Ret tt, f s).
Definition lift {A} (o : outcome A) : M A := λ s, (o, s).
Definition emit (e : event) : M unit := modify (λ s, set_log (log s ++ [e]) s).

(** [try: body except: pass] *)
Definition try_pass (body : M unit) : M unit := λ s,
  match body s with
  | (Raise _, s') => (Ret tt, s')
  | r => r
  end.

Definition isEnabled (a : action) : M bool := get (λ s, flag a (enabled s)).

Definition setEnabled (a : action) (b : bool) : M unit :=
  modify (λ s, set_enabled (with_flag a b (enabled s)) s).

(** ** The world outside the process *)

(** Modelled from the spec: the trim/concatenate backend, [VideoService] of
    [videoservice.py], which is not among the sources.  Its three operations
    are [capture] (a still frame or nothing), [cut] (trims [duration] from
    [frametime] out of [source] into [output]) and [join] (concatenates the
    files named in a list file into [output]); [cut] and [join] may fail.
    A backend is given by the outcome of every possible call; a call that
    fails writes nothing, and the status it returns goes to the caller. *)
Record Backend := MkBackend {
  capture_result : string → string → option pixmap;
  cut_succeeds : string → string → string → string → bool;
  join_succeeds : string → string → bool
}.

(** The backend on which every call succeeds. *)
Definition reliable : Backend :=
  MkBackend (λ _ _, Some 0%nat) (λ _ _ _ _, true) (λ _ _, true).

Definition write_file (path : string) (c : content) : M unit :=
  modify (λ s, set_files (<[path := c]> (files s)) s).

Definition unlink (path : string) : M unit :=
  modify (λ s, set_files (delete path (files s)) s).

Definition lookup_file (path : string) : M (option content) :=
  get (λ s, files s !! path).

Section Methods.

Variable B : Backend.

Definition videoService_capture (source frametime : string) : M (option pixmap) :=
  emit (Capture source frametime);;
  mret (capture_result B source frametime).

Definition videoService_cut (source output frametime duration : string) : M bool :=
  emit (Cut source output frametime duration);;
  if cut_succeeds B source output frametime duration
  then write_file output (Trimmed source frametime duration);; mret true
  else mret false.

Definition videoService_join (listfile output : string) : M bool :=
  emit (Join listfile output);;
  if join_succeeds B listfile output
  then c ← lookup_file listfile;
       write_file output
         (Joined match c with Some (ListText lines) => lines | _ => [] end);;
       mret true
  else mret false.

(** [open(path, 'w')], the writes and [close()]. *)
Definition write_lines (path : string) (lines : list string) : M unit :=
  emit (WriteFile path lines);;
  write_file path (ListText lines).

Definition os_path_isfile (path : string) : M bool :=
  c ← lookup_file path; mret (bool_decide (is_Some c)).

Definition os_path_exists (path : string) : M bool := os_path_isfile path.

Definition os_remove (path : string) : M unit :=
  emit (OsRemove path);;
  c ← lookup_file path;
  match c with
  | Some _ => unlink path
  | None => lift (Raise FileNotFoundError)
  end.

Definition QFile_remove (path : string) : M bool :=
  emit (QFileRemove path);;
  c ← lookup_file path;
  match c with
  | Some _ => unlink path;; mret true
  | None => mret false
  end.

(** [QFile.rename] refuses to overwrite an existing file. *)
Definition QFile_rename (oldName newName : string) : M bool :=
  emit (QFileRename oldName newName);;
  c ← lookup_file oldName;
  d ← lookup_file newName;
  match c, d with
  | Some x, None => unlink oldName;; write_file newName x;; mret true
  | _, _ => mret false
  end.

(** *** The clip list *)

(** Lines 463-466 of [renderTimes] and the rebuilding of the list widget
    (which leaves it without a current row); the widths and labels of the
    widget are not modelled. *)
Definition renderTimes : M unit :=
  modify (set_cliplist 0 (-1));;
  clips ← get clipTimes;
  modify (λ s, set_cliplist (Z.of_nat (length clips)) (cliplist_currentRow s) s);;
  cut ← get inCut;
  (if negb (length clips =? 0)%nat && negb cut then setEnabled saveAction true else mret tt);;
  match clips with
  | [] => setEnabled saveAction false
  | first :: _ =>
      match clip_end first with
      | Some _ => mret tt
      | None => setEnabled saveAction false
      end
  end.

Definition initMediaControls (flag : bool) : M unit :=
  setEnabled playAction flag;;
  setEnabled saveAction false;;
  setEnabled cutStartAction flag;;
  setEnabled cutEndAction false;;
  setEnabled mediaInfoAction flag.

Definition setPosition (p : Z) : M unit := modify (set_position p).

Definition captureImage : M (option pixmap) :=
  p ← get position;
  t ← lift (deltaToQTime p);
  let frametime := QTime.toString (QTime.addSecs t 1) in
  inputfile ← get media;
  videoService_capture inputfile frametime.

Definition cutStart : M unit :=
  p ← get position;
  t ← lift (deltaToQTime p);
  image ← captureImage;
  modify (λ s, set_clipTimes (clipTimes s ++ [Clip t None image]) s);;
  setEnabled cutStartAction false;;
  setEnabled cutEndAction true;;
  modify (set_inCut true);;
  renderTimes.

Definition cutEnd : M unit :=
  clips ← get clipTimes;
  let last_index := Z.of_nat (length clips) - 1 in
  item ← lift (Py.getitem clips last_index);
  p ← get position;
  selected ← lift (deltaToQTime p);
  if QTime.ltb selected (clip_start item) then
    emit (Critical "Invalid END Time")
  else
    clips' ← lift (Py.setitem clips last_index
                     (Clip (clip_start item) (Some selected) (clip_image item)));
    modify (set_clipTimes clips');;
    setEnabled cutStartAction true;;
    setEnabled cutEndAction false;;
    modify (set_inCut false);;
    renderTimes.

Definition moveItemUp : M unit :=
  index ← get cliplist_currentRow;
  clips ← get clipTimes;
  tmpItem ← lift (Py.getitem clips index);
  clips ← lift (Py.delitem clips index);
  modify (set_clipTimes clips);;
  modify (set_clipTimes (Py.insert clips (index - 1) tmpItem));;
  renderTimes.

Definition moveItemDown : M unit :=
  index ← get cliplist_currentRow;
  clips ← get clipTimes;
  tmpItem ← lift (Py.getitem clips index);
  clips ← lift (Py.delitem clips index);
  modify (set_clipTimes clips);;
  modify (set_clipTimes (Py.insert clips (index + 1) tmpItem));;
  renderTimes.

Definition removeItem : M unit :=
  index ← get cliplist_currentRow;
  clips ← get clipTimes;
  clips ← lift (Py.delitem clips index);
  modify (set_clipTimes clips);;
  cut ← get inCut;
  count ← get cliplist_count;
  (if cut && (index =? count - 1)
   then modify (set_inCut false);; initMediaControls true
   else mret tt);;
  renderTimes.

Definition clearList : M unit :=
  modify (set_clipTimes []);;
  modify (set_cliplist 0 (-1));;
  modify (set_inCut false);;
  renderTimes;;
  initMediaControls true.

(** The slot of the list model's [rowsMoved(parent, start, end, destination,
    row)]; only [start] and [row] are used. *)
Definition syncClipList (start row : Z) : M unit :=
  let index := if start <? row then row - 1 else row in
  clips ← get clipTimes;
  '(clip, clips) ← lift (Py.pop clips start);
  modify (set_clipTimes clips);;
  modify (set_clipTimes (Py.insert clips index clip)).

(** [itemMenu] up to the point where the menu is shown. *)
Definition itemMenu : M unit :=
  setEnabled moveItemUpAction false;;
  setEnabled moveItemDownAction false;;
  setEnabled removeItemAction false;;
  setEnabled removeAllAction false;;
  index ← get cliplist_currentRow;
  count ← get cliplist_count;
  cut ← get inCut;
  (if negb (index =? -1) then
     (if negb cut then
        (if 0 <? index then setEnabled moveItemUpAction true else mret tt);;
        (if index <? count - 1 then setEnabled moveItemDownAction true else mret tt)
      else mret tt);;
     (if 0 <? count then setEnabled removeItemAction true else mret tt)
   else mret tt);;
  (if 0 <? count then setEnabled removeAllAction true else mret tt).

(** [loadFile] returns [False] when the file is missing and nothing ([None])
    otherwise; it does not reset [inCut]. *)
Definition loadFile (filename : string) : M (option bool) :=
  there ← os_path_exists filename;
  if negb there then mret (Some false)
  else
    modify (set_media filename);;
    initMediaControls true;;
    modify (set_cliplist 0 (-1));;
    modify (set_clipTimes []);;
    mret None.

(** *** The export *)

Definition newline : string := String "010"%char "".

(** The body of the [for clip in self.clipTimes] loop of [cutVideo], with the
    loop variables [index], [filename] and [filelist].  [clip[0].msecsTo]
    wants a [QTime]: on an entry whose end is still the empty string PyQt
    raises [TypeError].  The status [cut] returns is dropped. *)
Fixpoint cut_loop (source file ext : string) (clips : list clip) (index : nat)
    (filename : string) (filelist : list string) : M (string * list string) :=
  match clips with
  | [] => mret (filename, filelist) : M (string * list string)
  | clip :: rest =>
      stop ← lift (of_option TypeError (clip_end clip));
      d ← lift (deltaToQTime (QTime.msecsTo (clip_start clip) stop));
      let runtime := QTime.toString d in
      let filename := file +:+ "_" +:+ Py.format_02 index +:+ ext in
      let filelist := filelist ++ [filename] in
      videoService_cut source filename (QTime.toString (clip_start clip)) runtime;;
      cut_loop source file ext rest (S index) filename filelist
  end.

Definition list_line (file : string) : string :=
  "file '" +:+ Py.str_replace_quote file +:+ "'" +:+ newline.

Fixpoint remove_loop (joinlist : list string) : M unit :=
  match joinlist with
  | [] => mret tt : M unit
  | file :: rest =>
      there ← os_path_isfile file;
      (if (there : bool) then os_remove file else mret tt);;
      remove_loop rest
  end.

Definition joinVideos (joinlist : list string) (filename : string) : M unit :=
  first ← lift (Py.getitem joinlist 0);
  let listfile := Path.normpath (Path.join (Path.dirname first) ".vidcutter.list") in
  write_lines listfile (list_line <$> joinlist);;
  videoService_join listfile filename;;
  try_pass (os_remove listfile;; remove_loop joinlist).

Definition completionDialog : M unit :=
  f ← get finalFilename;
  emit (Completion f).

(** [answer] is what the save dialog returns: the path the user chose, or
    the empty string when the dialog is cancelled.  The cursor changes are
    not modelled. *)
Definition cutVideo (answer : string) : M bool :=
  source ← get media;
  clips ← get clipTimes;
  if negb (length clips =? 0)%nat then
    modify (set_finalFilename answer);;
    final ← get finalFilename;
    (if negb (String.eqb final "") then
       let '(file, ext) := Path.splitext final in
       '(filename, filelist) ← cut_loop source file ext clips 1 "" [];
       (if (1 <? length filelist)%nat then joinVideos filelist final
        else QFile_remove final;; QFile_rename filename final;; mret tt);;
       completionDialog
     else mret tt);;
    mret true
  else mret false.

(** *** Dispatch

    A [QAction] runs its slot only while it is enabled (the toolbar and the
    menu do not deliver a click on a disabled action, and
    [mousePressEvent] asks [isEnabled] itself).  [playAction] and
    [mediaInfoAction] do not touch the clip list; their slots are left out. *)
Definition slot (a : action) (answer : string) : M unit :=
  match a with
  | cutStartAction => cutStart
  | cutEndAction => cutEnd
  | saveAction => cutVideo answer;; mret tt
  | moveItemUpAction => moveItemUp
  | moveItemDownAction => moveItemDown
  | removeItemAction => removeItem
  | removeAllAction => clearList
  | playAction | mediaInfoAction => mret tt
  end.

Definition trigger (a : action) (answer : string) : M unit :=
  on ← isEnabled a;
  if (on : bool) then slot a answer else mret tt.

(** The context menu of the clip list: [itemMenu] recomputes the flags, then
    the user picks [a]. *)
Definition menu (a : action) : M unit := itemMenu;; trigger a "".

(** The user clicks on row [i] of the list widget. *)
Definition selectRow (i : Z) : M unit :=
  count ← get cliplist_count;
  if (0 <=? i) && (i <? count)
  then modify (λ s, set_cliplist (cliplist_count s) i s)
  else mret tt.

End Methods.

(** The state [__init__] builds: nothing loaded, every action above
    disabled. *)
Definition initial (fs : gmap string content) : State :=
  MkState [] false "" (MkFlags false false false false false false false false false)
          0 (-1) 0 "" fs [].

Definition run {A} (m : M A) (s : State) : State := (m s).2.
Definition result {A} (m : M A) (s : State) : outcome A := (m s).1.


(** ** The specification's vocabulary *)

(** The reorder as the specification words it: pop the element at
    [fromIndex], then insert it at the effective target index, which is
    [toIndex] when [fromIndex >= toIndex] and [toIndex - 1] otherwise. *)
Definition effective_index (fromIndex toIndex : nat) : nat :=
  if (toIndex <=? fromIndex)%nat then toIndex else (toIndex - 1)%nat.

Definition reorder {A} (fromIndex toIndex : nat) (l : list A) : option (list A) :=
  x ← l !! fromIndex;
  let rest := delete fromIndex l in
  let k := effective_index fromIndex toIndex in
  Some (take k rest ++ x :: drop k rest).


(** A region is open while its end is missing. *)
Definition is_open (c : clip) : bool := bool_decide (clip_end c = None).

(** At most one region is open. *)
Definition at_most_one_open (l : list clip) : Prop :=
  (length (filter (λ c, is_open c = true) l) ≤ 1)%nat.

(** An open region is the last element. *)
Definition open_only_last (l : list clip) : Prop :=
  ∀ i c, l !! i = Some c → clip_end c = None → S i = length l.

(** The milliseconds that the four components of a time stand for. *)
Definition recombine (t : QTime.t) : Z :=
  QTime.hour t * 3600000 + QTime.minute t * 60000 + QTime.second t * 1000 + QTime.msec t.

(** Converting [m] and reading the components back gives [m] again. *)
Definition lossless (m : Z) : Prop :=
  ∃ t, deltaToQTime m = Ret t ∧ recombine t = m.

(** ** User actions and scenarios *)

(** The two marking actions of the toolbar, each at a player position. *)
Inductive mark :=
  | MarkStart (p : Z)
  | MarkEnd (p : Z).

Definition fire (B : Backend) (e : mark) : M unit :=
  match e with
  | MarkStart p => setPosition p;; trigger B cutStartAction ""
  | MarkEnd p => setPosition p;; trigger B cutEndAction ""
  end.

(** An exception ends the slot that raised it and leaves the state as it was
    at that point; the next action starts from there. *)
Definition fire_all (B : Backend) (es : list mark) (s : State) : State :=
  fold_left (λ s e, run (fire B e) s) es s.

(** A disk that holds one video, and the application after loading it. *)
Definition disk0 : gmap string content := {[ "/v/in.mp4" := Other 0 ]}.

Definition loaded : State := run (loadFile "/v/in.mp4") (initial disk0).

(** One region marked from 500 ms and still open. *)
Definition one_open : State := fire_all reliable [MarkStart 500] loaded.

(** Regions [0, 1000] and [2000, 2500], both closed. *)
Definition two_closed : State :=
  fire_all reliable [MarkStart 0; MarkEnd 1000; MarkStart 2000; MarkEnd 2500] loaded.

(** Region [0, 1000] closed, then a region opened at 2000 ms. *)
Definition closed_then_open : State :=
  fire_all reliable [MarkStart 0; MarkEnd 1000; MarkStart 2000] loaded.

(** The region [2000, 5000] alone. *)
Definition one_closed : State :=
  fire_all reliable [MarkStart 2000; MarkEnd 5000] loaded.

(** Three closed regions, the first row selected. *)
Definition three_closed : State :=
  run (selectRow 0)
    (fire_all reliable [MarkStart 0; MarkEnd 1000; MarkStart 2000; MarkEnd 3000;
                        MarkStart 4000; MarkEnd 5000] loaded).

(** The backend on which the trim into [output] fails and every other call
    succeeds. *)
Definition failing_cut (output : string) : Backend :=
  MkBackend (λ _ _, Some 0%nat)
            (λ _ out _ _, negb (String.eqb out output))
            (λ _ _, true).

(** ** The methods in closed form *)

(** The save flag that [renderTimes] leaves. *)
Definition save_after (s : State) : bool :=
  match clipTimes s with
  | [] => false
  | first :: _ =>
      match clip_end first with
      | None => false
      | Some _ => if inCut s then flag saveAction (enabled s) else true
      end
  end.

(** The state that [renderTimes] leaves. *)
Definition rendered (s : State) : State :=
  set_enabled (with_flag saveAction (save_after s) (enabled s))
    (set_cliplist (Z.of_nat (length (clipTimes s))) (-1) s).

(** The state that a successful [cutStart] leaves, [t] being the start. *)
Definition started (B : Backend) (t : QTime.t) (s : State) : State :=
  let frametime := QTime.toString (QTime.addSecs t 1) in
  rendered
    (set_inCut true
       (set_enabled (with_flag cutEndAction true
                       (with_flag cutStartAction false (enabled s)))
          (set_clipTimes
             (clipTimes s ++ [Clip t None (capture_result B (media s) frametime)])
             (set_log (log s ++ [Capture (media s) frametime]) s)))).

(** The state that [cutEnd] leaves when it accepts [selected] as the end of
    the last clip [item], the clips before it being [init]. *)
Definition ended (init : list clip) (item : clip) (selected : QTime.t) (s : State) : State :=
  rendered
    (set_inCut false
       (set_enabled (with_flag cutEndAction false
                       (with_flag cutStartAction true (enabled s)))
          (set_clipTimes
             (init ++ [Clip (clip_start item) (Some selected) (clip_image item)]) s))).

(** The flags that [itemMenu] leaves. *)
Definition menu_flags (s : State) : Flags :=
  let index := cliplist_currentRow s in
  let count := cliplist_count s in
  let sel := negb (index =? -1) in
  with_flag removeAllAction (0 <? count)
    (with_flag removeItemAction (sel && (0 <? count))
       (with_flag moveItemDownAction (sel && negb (inCut s) && (index <? count - 1))
          (with_flag moveItemUpAction (sel && negb (inCut s) && (0 <? index))
             (enabled s)))).

(** What the marking actions maintain. *)
Definition marking_inv (s : State) : Prop :=
  flag cutStartAction (enabled s) = negb (inCut s)
  ∧ flag cutEndAction (enabled s) = inCut s
  ∧ ∃ closed opened,
      clipTimes s = closed ++ opened
      ∧ Forall (λ c, is_open c = false) closed
      ∧ if inCut s then ∃ c, opened = [c] ∧ clip_end c = None else opened = [].

(** A move that the specification rules out: a region is open, or the
    current row is on the boundary (no row, or the first one, for a move up;
    no row, or the last one, for a move down). *)
Definition ruled_out (a : action) (s : State) : Prop :=
  match a with
  | moveItemUpAction => inCut s = true ∨ cliplist_currentRow s ≤ 0
  | moveItemDownAction =>
      inCut s = true ∨ cliplist_currentRow s = -1
      ∨ cliplist_count s - 1 ≤ cliplist_currentRow s
  | _ => False
  end.

(** ** Floats that stay in range *)

(** No overflow: a zero, or a finite number whose exponent and magnitude
    (bit length of the mantissa plus exponent) are at most [K]. *)
Definition tame (K : Z) (x : spec_float) : Prop :=
  match x with
  | S754_zero _ => True
  | S754_finite _ m e => e ≤ K ∧ Z.pos (digits2_pos m) + e ≤ K
  | _ => False
  end.

(** ** The export in closed form *)

(** The name of the intermediate file of the region numbered [index]. *)
Definition intermediate (file ext : string) (index : nat) : string :=
  file +:+ "_" +:+ Py.format_02 index +:+ ext.

(** The duration string handed to the backend for a region. *)
Definition runtime (c : clip) : string :=
  match clip_end c with
  | Some stop =>
      match deltaToQTime (QTime.msecsTo (clip_start c) stop) with
      | Ret d => QTime.toString d
      | Raise _ => ""
      end
  | None => ""
  end.

(** The trim call for the region [c] numbered [index]. *)
Definition trim_call (source file ext : string) (index : nat) (c : clip) : event :=
  Cut source (intermediate file ext index) (QTime.toString (clip_start c)) (runtime c).

(** One trim call per region, in the order of the regions, numbered from
    [index]. *)
Fixpoint trim_calls (source file ext : string) (index : nat) (clips : list clip)
  : list event :=
  match clips with
  | [] => []
  | c :: rest => trim_call source file ext index c :: trim_calls source file ext (S index) rest
  end.

(** The intermediate files of the regions, in the same order. *)
Fixpoint intermediates (file ext : string) (index : nat) (clips : list clip)
  : list string :=
  match clips with
  | [] => []
  | _ :: rest => intermediate file ext index :: intermediates file ext (S index) rest
  end.

(** The disk after the trims: each trim that succeeds writes its file. *)
Fixpoint trimmed (B : Backend) (source file ext : string) (index : nat)
    (clips : list clip) (fs : gmap string content) : gmap string content :=
  match clips with
  | [] => fs
  | c :: rest =>
      let name := intermediate file ext index in
      let frametime := QTime.toString (clip_start c) in
      trimmed B source file ext (S index) rest
        (if cut_succeeds B source name frametime (runtime c)
         then <[name := Trimmed source frametime (runtime c)]> fs else fs)
  end.

(** The cleanup loop of [joinVideos]: the disk it leaves and the removals it
    makes (a file that is not there is skipped). *)
Fixpoint survivors (names : list string) (fs : gmap string content)
  : gmap string content :=
  match names with
  | [] => fs
  | f :: rest => survivors rest (delete f fs)
  end.

Fixpoint removals (names : list string) (fs : gmap string content) : list event :=
  match names with
  | [] => []
  | f :: rest =>
      if bool_decide (is_Some (fs !! f))
      then OsRemove f :: removals rest (delete f fs)
      else removals rest fs
  end.

(** The list file that [joinVideos] writes next to the first intermediate. *)
Definition listfile_of (first : string) : string :=
  Path.normpath (Path.join (Path.dirname first) ".vidcutter.list").

(** The disk and the calls of [joinVideos names out]. *)
Definition joined (B : Backend) (names : list string) (out : string)
    (fs : gmap string content) : gmap string content * list event :=
  let lf := listfile_of (default "" (head names)) in
  let lines := list_line <$> names in
  let fs1 := <[lf := ListText lines]> fs in
  let fs2 := if join_succeeds B lf out then <[out := Joined lines]> fs1 else fs1 in
  (survivors names (delete lf fs2),
   [WriteFile lf lines; Join lf out; OsRemove lf] ++ removals names (delete lf fs2)).

(** The disk and the calls of the single-region branch of [cutVideo]. *)
Definition promoted (name out : string) (fs : gmap string content)
  : gmap string content * list event :=
  let fs1 := delete out fs in
  (match fs1 !! name with
   | Some x => <[out := x]> (delete name fs1)
   | None => fs1
   end,
   [QFileRemove out; QFileRename name out]).

(** The state that [cutVideo answer] leaves on a non-empty list of closed
    regions when the dialog was not cancelled. *)
Definition exported (B : Backend) (answer : string) (s : State) : State :=
  let '(file, ext) := Path.splitext answer in
  let clips := clipTimes s in
  let names := intermediates file ext 1 clips in
  let fs := trimmed B (media s) file ext 1 clips (files s) in
  let '(fs', calls) :=
    if (1 <? length names)%nat then joined B names answer fs
    else promoted (List.last names "") answer fs in
  set_files fs'
    (set_log (log s ++ trim_calls (media s) file ext 1 clips ++ calls ++ [Completion answer])
       (set_finalFilename answer s)).

(** ** Floats with their value between bounds *)

(** A non-negative float from its mantissa and exponent. *)
Definition mkf (M E : Z) : spec_float :=
  match M with
  | Z0 => S754_zero false
  | Zpos p => S754_finite false p E
  | Zneg _ => S754_nan
  end.

(** [x] is a non-negative float [M * 2^E] with [E <= Eb], of magnitude at
    most [K], and [a <= x <= num / den]. *)
Definition approx (x : spec_float) (a num den Eb K : Z) : Prop :=
  ∃ M E, x = mkf M E ∧ 0 ≤ M ∧ E ≤ Eb ∧ Zdigits2 M + E ≤ K
         ∧ a * 2 ^ (- E) ≤ M ∧ M * den ≤ num * 2 ^ (- E).

(** The constants of [deltaToQTime] as floats: 1000.0, 60.0 and 3600.0. *)
Definition f1000 : spec_float := S754_finite false 8796093022208000 (-43).
Definition f60 : spec_float := S754_finite false 8444249301319680 (-47).
Definition f3600 : spec_float := S754_finite false 7916483719987200 (-41).


(** ** Floats with their value bounded from below *)

(** [x] is a non-negative float [M * 2^E] in canonical form (a mantissa of
    at most 53 bits) with [E <= Eb] and [lnum / lden < x + 2^E]: the lower
    bound holds up to one unit in the last place. *)
Definition fine (x : spec_float) (lnum lden Eb : Z) : Prop :=
  ∃ M E, x = mkf M E ∧ 0 ≤ M ∧ E ≤ Eb ∧ Zdigits2 M ≤ 53 ∧ -1074 ≤ E
         ∧ lnum * 2 ^ (- E) ≤ (M + 1) * lden.

(** ** The time counter *)

(** The [hh:mm:ss] of a number of milliseconds below one day. *)
Definition clock (m : Z) : string :=
  QTime.two_digits (m / 3600000) +:+ ":" +:+ QTime.two_digits ((m / 60000) mod 60)
    +:+ ":" +:+ QTime.two_digits ((m / 1000) mod 60).

(** [positionChanged]: the text that the time counter is given for the
    position [progress] of a medium of length [duration].  The update of the
    slider is not modelled. *)
Definition positionChanged (progress duration : Z) : outcome string :=
  currentTime ← deltaToQTime progress;
  totalTime ← deltaToQTime duration;
  Ret (QTime.toString currentTime +:+ " / " +:+ QTime.toString totalTime).

(** ** Sessions at the clip list *)

(** The entries of the context menu of the clip list. *)
Inductive entry := MoveUp | MoveDown | Remove | RemoveAll.

Definition entry_action (e : entry) : action :=
  match e with
  | MoveUp => moveItemUpAction
  | MoveDown => moveItemDownAction
  | Remove => removeItemAction
  | RemoveAll => removeAllAction
  end.

(** What the user does at the toolbar and the clip list: a mark, a click on
    a row, an entry of the context menu. *)
Inductive gesture :=
  | Mark (e : mark)
  | Select (i : Z)
  | Menu (e : entry).

Definition act (B : Backend) (g : gesture) : M unit :=
  match g with
  | Mark e => fire B e
  | Select i => selectRow i
  | Menu e => menu B (entry_action e)
  end.

Definition session (B : Backend) (gs : list gesture) (s : State) : State :=
  fold_left (λ s g, run (act B g) s) gs s.

(** The first region has an end. *)
Definition first_closed (l : list clip) : bool :=
  match l with
  | c :: _ => negb (is_open c)
  | [] => false
  end.

(** What the marks and the clip list maintain together. *)
Definition ui_inv (s : State) : Prop :=
  marking_inv s
  ∧ cliplist_count s = Z.of_nat (length (clipTimes s))
  ∧ -1 ≤ cliplist_currentRow s < cliplist_count s
  ∧ flag saveAction (enabled s) = first_closed (clipTimes s).

(** The state that [initMediaControls flag] leaves. *)
Definition controls (flag : bool) (s : State) : State :=
  set_enabled
    (with_flag mediaInfoAction flag
       (with_flag cutEndAction false
          (with_flag cutStartAction flag
             (with_flag saveAction false
                (with_flag playAction flag (enabled s)))))) s.

(** Exchanging the elements at [i] and [i + 1]. *)
Definition swap {A} (i : nat) (l : list A) : list A :=
  match l !! i, l !! S i with
  | Some x, Some y => <[i := y]> (<[S i := x]> l)
  | _, _ => l
  end.

(** The position of a mark fits the 64 bits of a player position. *)
Definition in_range (g : gesture) : Prop :=
  match g with
  | Mark (MarkStart p) | Mark (MarkEnd p) => - 2 ^ 63 < p < 2 ^ 63
  | _ => True
  end.
(** * Properties *)

(** Case analysis on every integer comparison of the goal. *)
Ltac cases_Z :=
  repeat match goal with
    | |- context [?a <=? ?b] => destruct (Z.leb_spec a b)
    | |- context [?a <? ?b] => destruct (Z.ltb_spec a b)
    | |- context [?a =? ?b] => destruct (Z.eqb_spec a b)
    | H : context [?a <=? ?b] |- _ => destruct (Z.leb_spec a b)
    | H : context [?a <? ?b] |- _ => destruct (Z.ltb_spec a b)
    | H : context [?a =? ?b] |- _ => destruct (Z.eqb_spec a b)
    end; simpl in *.

(** ** Floats: no operation of [deltaToQTime] overflows *)

Lemma digits2_pos_size p : digits2_pos p = Pos.size p.
Proof. induction p; simpl; congruence. Qed.

Lemma Zdigits2_log2 m : 0 < m → Zdigits2 m = Z.log2 m + 1.
Proof.
  destruct m as [|p|p]; try lia. intros _. simpl. rewrite digits2_pos_size.
  destruct p; simpl; lia.
Qed.

Lemma Zdigits2_nonneg m : 0 ≤ Zdigits2 m.
Proof. destruct m; simpl; lia. Qed.

Lemma Zdigits2_le m D : 0 ≤ m → 0 ≤ D → Zdigits2 m ≤ D ↔ m < 2 ^ D.
Proof.
  intros Hm HD. destruct (Z.eq_dec m 0) as [->|Hne].
  - simpl. split; [intros _; apply Z.pow_pos_nonneg; lia | lia].
  - rewrite Zdigits2_log2 by lia.
    rewrite (Z.log2_lt_pow2 m D) by lia. lia.
Qed.

Lemma Zdigits2_bound m : 0 ≤ m → m < 2 ^ Zdigits2 m.
Proof. intros. apply Zdigits2_le; auto using Zdigits2_nonneg. lia. Qed.

Lemma Zdigits2_mono a b : 0 ≤ a ≤ b → Zdigits2 a ≤ Zdigits2 b.
Proof.
  intros. apply Zdigits2_le; [lia|apply Zdigits2_nonneg|].
  pose proof (Zdigits2_bound b). lia.
Qed.

Lemma Zdigits2_succ m : 0 ≤ m → Zdigits2 (m + 1) ≤ Zdigits2 m + 1.
Proof.
  intros. pose proof (Zdigits2_nonneg m). apply Zdigits2_le; [lia..|].
  rewrite Z.pow_add_r by lia. pose proof (Zdigits2_bound m). lia.
Qed.

Lemma Zdigits2_shiftr m n : 0 ≤ m → 0 ≤ n → Zdigits2 (m / 2 ^ n) + n ≤ Z.max (Zdigits2 m) n.
Proof.
  intros Hm Hn. pose proof (Zdigits2_nonneg m) as Hd.
  assert (0 < 2 ^ n) by (apply Z.pow_pos_nonneg; lia).
  assert (0 ≤ m / 2 ^ n) by (apply Z.div_pos; lia).
  destruct (Z.le_gt_cases (Zdigits2 m) n).
  - rewrite Z.max_r by lia.
    assert (m / 2 ^ n = 0) as ->; [|simpl; lia].
    apply Z.div_small. split; [lia|].
    eapply Z.lt_le_trans; [by apply Zdigits2_bound|]. apply Z.pow_le_mono_r; lia.
  - rewrite Z.max_l by lia.
    enough (Zdigits2 (m / 2 ^ n) ≤ Zdigits2 m - n) by lia.
    apply Zdigits2_le; [lia..|].
    apply Z.div_lt_upper_bound; [lia|].
    rewrite <- Z.pow_add_r by lia. replace (n + (Zdigits2 m - n)) with (Zdigits2 m) by lia.
    by apply Zdigits2_bound.
Qed.

Lemma Zdigits2_mul a b : 0 ≤ a → 0 ≤ b → Zdigits2 (a * b) ≤ Zdigits2 a + Zdigits2 b.
Proof.
  intros Ha Hb. pose proof (Zdigits2_nonneg a). pose proof (Zdigits2_nonneg b).
  apply Zdigits2_le; [nia|lia|]. rewrite Z.pow_add_r by lia.
  pose proof (Zdigits2_bound a Ha). pose proof (Zdigits2_bound b Hb). nia.
Qed.

Lemma shr_1_m mrs : 0 ≤ shr_m mrs → shr_m (shr_1 mrs) = shr_m mrs / 2.
Proof.
  destruct mrs as [m r s]. simpl. intros Hm.
  destruct m as [|[p|p|]|p]; try lia; cbn [shr_m].
  all: try done.
  - apply Z.div_unique with 1; lia.
  - apply Z.div_unique with 0; lia.
Qed.

Lemma shr_iter_m p mrs :
  0 ≤ shr_m mrs → shr_m (SpecFloat.iter_pos shr_1 p mrs) = shr_m mrs / 2 ^ Z.pos p.
Proof.
  revert mrs. induction p as [p IH|p IH|]; intros mrs Hm; simpl SpecFloat.iter_pos.
  - assert (H1 : 0 ≤ shr_m (shr_1 mrs)) by (rewrite shr_1_m by done; apply Z.div_pos; lia).
    assert (0 < 2 ^ Z.pos p) by (apply Z.pow_pos_nonneg; lia).
    rewrite IH; rewrite IH; try done.
    2: { apply Z.div_pos; lia. }
    rewrite shr_1_m by done. rewrite !Z.div_div by nia.
    f_equal. replace (Z.pos p~1) with (Z.pos p + Z.pos p + 1) by lia.
    rewrite !Z.pow_add_r by lia. change (2 ^ 1) with 2. ring.
  - assert (0 < 2 ^ Z.pos p) by (apply Z.pow_pos_nonneg; lia).
    rewrite IH; rewrite IH; try done.
    2: { apply Z.div_pos; lia. }
    rewrite !Z.div_div by nia. f_equal.
    replace (Z.pos p~0) with (Z.pos p + Z.pos p) by lia.
    by rewrite !Z.pow_add_r by lia.
  - by rewrite shr_1_m.
Qed.

Lemma shr_record_of_loc_m m l : shr_m (shr_record_of_loc m l) = m.
Proof. by destruct l as [|[]]. Qed.

Lemma fexp_le x K : -1074 ≤ K → x ≤ K + 53 → fexp Binary64.prec Binary64.emax x ≤ K.
Proof. unfold fexp, emin, Binary64.prec, Binary64.emax. lia. Qed.

Lemma shr_fexp_bound m e l K mrs e' :
  0 ≤ m → 0 ≤ K → e ≤ K → Zdigits2 m + e ≤ K →
  shr_fexp Binary64.prec Binary64.emax m e l = (mrs, e') →
  0 ≤ shr_m mrs ∧ e' ≤ K ∧ Zdigits2 (shr_m mrs) + e' ≤ K.
Proof.
  intros Hm HK He Hd. unfold shr_fexp, shr.
  pose proof (fexp_le (Zdigits2 m + e) K) as Hf.
  destruct (fexp Binary64.prec Binary64.emax (Zdigits2 m + e) - e) as [|p|p] eqn:En;
    intros [= <- <-];
    rewrite ?shr_iter_m by (by rewrite shr_record_of_loc_m);
    rewrite shr_record_of_loc_m; try done.
  assert (0 < 2 ^ Z.pos p) by (apply Z.pow_pos_nonneg; lia).
  split; [apply Z.div_pos; lia|]. split; [lia|].
  pose proof (Zdigits2_shiftr m (Z.pos p)). lia.
Qed.

Lemma round_nearest_even_bound m l : m ≤ round_nearest_even m l ≤ m + 1.
Proof. destruct l as [|[]]; simpl; try lia. destruct (Z.even m); lia. Qed.

Lemma round_aux_tame s m e l K :
  0 ≤ m → 0 ≤ K ≤ 970 → e ≤ K → Zdigits2 m + e ≤ K →
  tame (K + 1) (binary_round_aux Binary64.prec Binary64.emax s m e l).
Proof.
  intros Hm HK He Hd. unfold binary_round_aux.
  destruct (shr_fexp Binary64.prec Binary64.emax m e l) as [mrs' e'] eqn:E1.
  destruct (shr_fexp_bound m e l K mrs' e') as (H1 & H2 & H3); [lia..|done|].
  set (m1 := round_nearest_even (shr_m mrs') (loc_of_shr_record mrs')).
  pose proof (round_nearest_even_bound (shr_m mrs') (loc_of_shr_record mrs')) as Hr.
  fold m1 in Hr.
  assert (Hd1 : Zdigits2 m1 + e' ≤ K + 1).
  { pose proof (Zdigits2_mono m1 (shr_m mrs' + 1)).
    pose proof (Zdigits2_succ (shr_m mrs')). lia. }
  destruct (shr_fexp Binary64.prec Binary64.emax m1 e' loc_Exact) as [mrs'' e''] eqn:E2.
  destruct (shr_fexp_bound m1 e' loc_Exact (K + 1) mrs'' e'') as (H4 & H5 & H6);
    [lia..|done|].
  destruct (shr_m mrs'') as [|q|q] eqn:Eq; [done| |lia].
  unfold Binary64.emax, Binary64.prec. destruct (Z.leb_spec e'' (1024 - 53)); [|lia].
  simpl in H6 |- *. lia.
Qed.

Lemma tame_le K K' x : tame K x → K ≤ K' → tame K' x.
Proof. destruct x; simpl; try done. lia. Qed.

Lemma Zdigits2_shiftl m n : 0 ≤ m → 0 ≤ n → Zdigits2 (m * 2 ^ n) ≤ Zdigits2 m + n.
Proof.
  intros Hm Hn. pose proof (Zdigits2_nonneg m).
  assert (0 < 2 ^ n) by (apply Z.pow_pos_nonneg; lia).
  apply Zdigits2_le; [nia|lia|]. rewrite Z.pow_add_r by lia.
  pose proof (Zdigits2_bound m Hm). nia.
Qed.

Lemma shl_align_bound m e e' mz ez :
  shl_align m e e' = (mz, ez) →
  ez ≤ e ∧ Z.pos (digits2_pos mz) + ez ≤ Z.pos (digits2_pos m) + e.
Proof.
  unfold shl_align. destruct (e' - e) as [|d|d] eqn:Ed; intros [= <- <-]; [lia..|].
  split; [lia|]. change (Pos.iter xO m d) with (shift_pos d m).
  change (Z.pos (digits2_pos (shift_pos d m))) with (Zdigits2 (Z.pos (shift_pos d m))).
  rewrite shift_pos_correct. change (Z.pow_pos 2 d) with (2 ^ Z.pos d).
  pose proof (Zdigits2_shiftl (Z.pos m) (Z.pos d)). simpl Zdigits2 in H at 2.
  rewrite (Z.mul_comm (2 ^ Z.pos d)). lia.
Qed.

Lemma binary_round_tame s m e K :
  0 ≤ K ≤ 970 → e ≤ K → Z.pos (digits2_pos m) + e ≤ K →
  tame (K + 1) (binary_round Binary64.prec Binary64.emax s m e).
Proof.
  intros HK He Hd. unfold binary_round.
  destruct (shl_align m e _) as [mz ez] eqn:E.
  apply shl_align_bound in E as [H1 H2].
  apply round_aux_tame; simpl; lia.
Qed.

Lemma binary_normalize_tame m e sz K :
  0 ≤ K ≤ 970 → e ≤ K → Zdigits2 m + e ≤ K →
  tame (K + 1) (binary_normalize Binary64.prec Binary64.emax m e sz).
Proof.
  intros HK He Hd. destruct m as [|p|p]; simpl; [done|..];
    by apply binary_round_tame.
Qed.

Lemma div_core_bound m1 e1 m2 e2 q e' l :
  0 < m1 → 0 < m2 →
  SFdiv_core_binary Binary64.prec Binary64.emax m1 e1 m2 e2 = (q, e', l) →
  0 ≤ q ∧ e' ≤ e1 - e2 ∧ Zdigits2 q + e' ≤ Zdigits2 m1 + e1 - e2.
Proof.
  intros H1 H2. unfold SFdiv_core_binary.
  set (e0 := Z.min _ (e1 - e2)). set (s := e1 - e2 - e0).
  assert (Hs : 0 ≤ s) by (unfold s, e0; lia).
  set (m' := match s with Z.pos _ => Z.shiftl m1 s | 0 => m1 | Z.neg _ => 0 end).
  assert (Hm' : m' = m1 * 2 ^ s).
  { unfold m'. destruct s as [|p|p] eqn:Es; [simpl; lia| |lia].
    by rewrite Z.shiftl_mul_pow2. }
  pose proof (Z_div_mod m' m2 ltac:(lia)) as Hdm.
  destruct (Z.div_eucl m' m2) as [q0 r0]. intros [= <- <- <-].
  assert (0 < 2 ^ s) by (apply Z.pow_pos_nonneg; lia).
  assert (Hq : 0 ≤ q0 ≤ m') by nia.
  split; [lia|]. split; [unfold e0; lia|].
  pose proof (Zdigits2_mono q0 m' Hq). rewrite Hm' in H0.
  pose proof (Zdigits2_shiftl m1 s). unfold s in *. lia.
Qed.

Lemma div_tame K x sc mc ec :
  tame K x → 0 ≤ K - ec ≤ 970 →
  tame (K - ec + 1) (Binary64.div x (S754_finite sc mc ec)).
Proof.
  intros Hx HK. destruct x as [|?| |sx mx ex]; simpl in Hx |- *; try done.
  destruct (SFdiv_core_binary _ _ _ _ _ _) as [[q e'] l] eqn:E.
  apply div_core_bound in E as (H1 & H2 & H3); [|lia..].
  simpl in H3. apply round_aux_tame; lia.
Qed.

Lemma mul_tame K x sc mc ec :
  tame K x → 0 ≤ K + (Z.pos (digits2_pos mc) + ec) ≤ 970 →
  tame (K + (Z.pos (digits2_pos mc) + ec) + 1) (Binary64.mul x (S754_finite sc mc ec)).
Proof.
  intros Hx HK. destruct x as [|?| |sx mx ex]; simpl in Hx |- *; try done.
  pose proof (Zdigits2_mul (Z.pos mx) (Z.pos mc)) as Hm. simpl in Hm.
  apply round_aux_tame; simpl; lia.
Qed.

Lemma fmod_tame K x sc mc ec Kc :
  tame K x → 0 ≤ Kc ≤ 970 → Z.pos (digits2_pos mc) + ec ≤ Kc →
  tame (Kc + 1) (Binary64.fmod x (S754_finite sc mc ec)).
Proof.
  intros Hx HK Hc. destruct x as [|?| |sx mx ex]; simpl in Hx |- *; try done.
  set (e := Z.min ex ec).
  set (X := Z.shiftl (Z.pos mx) (ex - e)). set (Y := Z.shiftl (Z.pos mc) (ec - e)).
  assert (HY : Y = Z.pos mc * 2 ^ (ec - e)) by (unfold Y; rewrite Z.shiftl_mul_pow2; lia).
  assert (HX : X = Z.pos mx * 2 ^ (ex - e)) by (unfold X; rewrite Z.shiftl_mul_pow2; lia).
  assert (0 < 2 ^ (ec - e)) by (apply Z.pow_pos_nonneg; lia).
  assert (0 < 2 ^ (ex - e)) by (apply Z.pow_pos_nonneg; lia).
  pose proof (Z.rem_bound_pos X Y ltac:(nia) ltac:(nia)) as Hr.
  apply binary_normalize_tame; [done|lia|].
  assert (Zdigits2 (cond_Zopp sx (Z.rem X Y)) = Zdigits2 (Z.rem X Y)) as ->.
  { destruct sx; simpl; [|done]. by destruct (Z.rem X Y). }
  pose proof (Zdigits2_mono (Z.rem X Y) Y ltac:(lia)).
  pose proof (Zdigits2_shiftl (Z.pos mc) (ec - e)). rewrite <- HY in H2.
  simpl Zdigits2 in H2 at 2. lia.
Qed.

Lemma Zdigits2_abs z : Zdigits2 (Z.abs z) = Zdigits2 z.
Proof. by destruct z. Qed.

Lemma shl_align_fst m e e' :
  e' ≤ e → Z.pos (fst (shl_align m e e')) = Z.pos m * 2 ^ (e - e').
Proof.
  intros He. unfold shl_align. destruct (e' - e) as [|d|d] eqn:Ed; simpl; try lia.
  - replace (e - e') with 0 by lia. lia.
  - change (Pos.iter xO m d) with (shift_pos d m). rewrite shift_pos_correct.
    change (Z.pow_pos 2 d) with (2 ^ Z.pos d). replace (e - e') with (Z.pos d) by lia. lia.
Qed.

Lemma add_tame K sx mx ex sy my ey :
  tame K (S754_finite sx mx ex) → tame K (S754_finite sy my ey) → 0 ≤ K ≤ 969 →
  tame (K + 2) (Binary64.add (S754_finite sx mx ex) (S754_finite sy my ey)).
Proof.
  intros Hx Hy HK. simpl in Hx, Hy. destruct Hx as [Hx1 Hx2], Hy as [Hy1 Hy2].
  unfold Binary64.add, SFadd.
  set (ez := Z.min ex ey).
  rewrite !shl_align_fst by (unfold ez; lia).
  set (a := Z.pos mx * 2 ^ (ex - ez)). set (b := Z.pos my * 2 ^ (ey - ez)).
  apply (tame_le (K + 1 + 1)); [|lia].
  apply (binary_normalize_tame _ _ _ (K + 1)); [lia|unfold ez; lia|].
  rewrite <- Zdigits2_abs.
  pose proof (Zdigits2_shiftl (Z.pos mx) (ex - ez) ltac:(lia) ltac:(unfold ez; lia)) as Ha.
  pose proof (Zdigits2_shiftl (Z.pos my) (ey - ez) ltac:(lia) ltac:(unfold ez; lia)) as Hb.
  fold a in Ha. fold b in Hb. simpl Zdigits2 in Ha at 2. simpl Zdigits2 in Hb at 2.
  assert (0 < 2 ^ (ex - ez)) by (apply Z.pow_pos_nonneg; unfold ez; lia).
  assert (0 < 2 ^ (ey - ez)) by (apply Z.pow_pos_nonneg; unfold ez; lia).
  assert (Hab : 0 ≤ a ∧ 0 ≤ b) by (unfold a, b; nia).
  assert (ez ≤ K) by (unfold ez; lia).
  enough (Zdigits2 (Z.abs (cond_Zopp sx a + cond_Zopp sy b)) ≤ K - ez + 1) by lia.
  apply Zdigits2_le; [lia..|].
  assert (a < 2 ^ (K - ez)) by (apply Zdigits2_le; lia).
  assert (b < 2 ^ (K - ez)) by (apply Zdigits2_le; lia).
  rewrite Z.pow_add_r by lia. change (2 ^ 1) with 2.
  destruct sx, sy; simpl; lia.
Qed.

Lemma float_rem_tame K v mw ew Kc :
  tame K v → 0 ≤ Kc ≤ 960 → ew ≤ Kc → Z.pos (digits2_pos mw) + ew ≤ Kc →
  ∃ r, Py.float_rem v (S754_finite false mw ew) = Ret r ∧ tame (Kc + 3) r.
Proof.
  intros Hv HK He Hm. unfold Py.float_rem.
  pose proof (fmod_tame K v false mw ew Kc Hv ltac:(lia) Hm) as Hr.
  destruct (Binary64.fmod v (S754_finite false mw ew)) as [s| | |s m e] eqn:E;
    simpl in Hr; try done.
  - eauto.
  - destruct s; cbn [Binary64.is_neg xorb]; eexists; (split; [done|]).
    + apply (tame_le (Kc + 1 + 2)); [|lia]. apply add_tame; simpl; lia.
    + simpl. lia.
Qed.

Lemma int_of_float_tame K x : tame K x → ∃ z, Py.int_of_float x = Ret z.
Proof. destruct x; simpl; try done; eauto. Qed.

Lemma int_as_float_tame m : Z.abs m < 2 ^ 63 → tame 63 (Py.int_as_float m).
Proof.
  intros Hm. destruct m as [|p|p]; simpl; [done|..]; (split; [lia|]).
  - enough (Zdigits2 (Z.pos p) ≤ 63) by (simpl in *; lia). apply Zdigits2_le; lia.
  - enough (Zdigits2 (Z.pos p) ≤ 63) by (simpl in *; lia). apply Zdigits2_le; lia.
Qed.

Lemma int_truediv_1000_tame m :
  Z.abs m < 2 ^ 63 → ∃ q, Py.int_truediv m 1000 = Ret q ∧ tame 64 q.
Proof.
  intros Hm. unfold Py.int_truediv. simpl (1000 =? 0). cbv iota.
  pose proof (div_tame 63 (Py.int_as_float m) false 1000 0 (int_as_float_tame m Hm)
                ltac:(lia)) as Hq.
  unfold Binary64.div in Hq. change (Py.int_as_float 1000) with (S754_finite false 1000 0).
  destruct (SFdiv _ _ _ _) as [s| | |s mq eq]; simpl in Hq; try done; eauto.
Qed.

(** Every position that a 64-bit integer can hold has a time. *)
Lemma deltaToQTime_returns m : Z.abs m < 2 ^ 63 → ∃ t, deltaToQTime m = Ret t.
Proof.
  intros Hm. unfold deltaToQTime.
  destruct (int_truediv_1000_tame m Hm) as (secs & -> & Hsecs).
  cbn [mbind outcome_bind].
  assert (E3600 : Binary64.of_Z 3600 = S754_finite false 7916483719987200 (-41))
    by (vm_compute; reflexivity).
  assert (E60 : Binary64.of_Z 60 = S754_finite false 8444249301319680 (-47))
    by (vm_compute; reflexivity).
  assert (E1000 : Binary64.of_Z 1000 = S754_finite false 8796093022208000 (-43))
    by (vm_compute; reflexivity).
  rewrite E3600, E60, E1000.
  pose proof (div_tame 64 secs false 7916483719987200 (-41) Hsecs ltac:(lia)) as H1.
  pose proof (div_tame 64 secs false 8444249301319680 (-47) Hsecs ltac:(lia)) as H2.
  pose proof (mul_tame 64 secs false 8796093022208000 (-43) Hsecs ltac:(simpl; lia)) as H4.
  destruct (float_rem_tame _ _ 8444249301319680 (-47) 6 H1) as (a1 & -> & Ha1);
    [simpl; lia..|].
  destruct (float_rem_tame _ _ 8444249301319680 (-47) 6 H2) as (a2 & -> & Ha2);
    [simpl; lia..|].
  destruct (float_rem_tame _ _ 8444249301319680 (-47) 6 Hsecs) as (a3 & -> & Ha3);
    [simpl; lia..|].
  destruct (float_rem_tame _ _ 8796093022208000 (-43) 10 H4) as (a4 & -> & Ha4);
    [simpl; lia..|].
  cbn [mbind outcome_bind].
  destruct (int_of_float_tame _ _ Ha1) as (h & ->).
  destruct (int_of_float_tame _ _ Ha2) as (mi & ->).
  destruct (int_of_float_tame _ _ Ha3) as (s & ->).
  destruct (int_of_float_tame _ _ Ha4) as (ms & ->).
  cbn [mbind outcome_bind]. eauto.
Qed.

(** ** Floats: the value of each operation of [deltaToQTime] *)

Lemma fexp_eq x : fexp Binary64.prec Binary64.emax x = Z.max (x - 53) (-1074).
Proof. reflexivity. Qed.

Lemma shr_fexp_value m e l mrs e' :
  0 ≤ m → shr_fexp Binary64.prec Binary64.emax m e l = (mrs, e') →
  e' = e + Z.max 0 (fexp Binary64.prec Binary64.emax (Zdigits2 m + e) - e)
  ∧ shr_m mrs = m / 2 ^ Z.max 0 (fexp Binary64.prec Binary64.emax (Zdigits2 m + e) - e).
Proof.
  intros Hm. unfold shr_fexp, shr.
  destruct (fexp Binary64.prec Binary64.emax (Zdigits2 m + e) - e) as [|p|p] eqn:En;
    intros [= <- <-];
    rewrite ?shr_iter_m by (by rewrite shr_record_of_loc_m);
    rewrite shr_record_of_loc_m.
  - change (Z.max 0 0) with 0. rewrite Z.div_1_r. lia.
  - rewrite Z.max_r by lia. done.
  - rewrite Z.max_l by lia. rewrite Z.div_1_r. lia.
Qed.

Lemma div_succ_le x y : 0 < y → (x + 1) / y ≤ x / y + 1.
Proof.
  intros Hy. rewrite <- (Z.div_add x 1 y) by lia.
  apply Z.div_le_mono; lia.
Qed.

Lemma round_aux_value m e l K :
  0 ≤ m → Zdigits2 m + e ≤ K → e ≤ K - 53 → -1021 ≤ K ≤ 900 →
  ∃ M E, binary_round_aux Binary64.prec Binary64.emax false m e l = mkf M E
         ∧ 0 ≤ M ∧ e ≤ E ∧ E ≤ K - 52
         ∧ m / 2 ^ (E - e) ≤ M ∧ M ≤ m / 2 ^ (E - e) + 1
         ∧ Zdigits2 M + E ≤ K + 1.
Proof.
  intros Hm Hd He HK. unfold binary_round_aux.
  destruct (shr_fexp Binary64.prec Binary64.emax m e l) as [mrs' e'] eqn:E1.
  destruct (shr_fexp_value m e l mrs' e' Hm E1) as [He' Hm'].
  set (N1 := Z.max 0 (fexp Binary64.prec Binary64.emax (Zdigits2 m + e) - e)) in *.
  assert (HN1 : 0 ≤ N1) by (unfold N1; lia).
  assert (HN1b : e + N1 ≤ K - 53) by (unfold N1; rewrite fexp_eq; lia).
  assert (H2N1 : 0 < 2 ^ N1) by (apply Z.pow_pos_nonneg; lia).
  assert (Hm'0 : 0 ≤ shr_m mrs') by (rewrite Hm'; apply Z.div_pos; lia).
  assert (Hd' : Zdigits2 (shr_m mrs') + e' ≤ K).
  { rewrite Hm', He'. pose proof (Zdigits2_shiftr m N1 Hm HN1).
    unfold N1 in *. rewrite fexp_eq in *. lia. }
  set (m1 := round_nearest_even (shr_m mrs') (loc_of_shr_record mrs')).
  pose proof (round_nearest_even_bound (shr_m mrs') (loc_of_shr_record mrs')) as Hr.
  fold m1 in Hr.
  assert (Hd1 : Zdigits2 m1 + e' ≤ K + 1).
  { pose proof (Zdigits2_mono m1 (shr_m mrs' + 1)).
    pose proof (Zdigits2_succ (shr_m mrs')). lia. }
  destruct (shr_fexp Binary64.prec Binary64.emax m1 e' loc_Exact) as [mrs'' e''] eqn:E2.
  destruct (shr_fexp_value m1 e' loc_Exact mrs'' e'' ltac:(lia) E2) as [He'' Hm''].
  set (N2 := Z.max 0 (fexp Binary64.prec Binary64.emax (Zdigits2 m1 + e') - e')) in *.
  assert (HN2 : 0 ≤ N2) by (unfold N2; lia).
  assert (HN2b : e' + N2 ≤ K - 52) by (unfold N2; rewrite fexp_eq; lia).
  assert (H2N2 : 0 < 2 ^ N2) by (apply Z.pow_pos_nonneg; lia).
  assert (HE : e'' - e = N1 + N2) by lia.
  assert (Hdiv : m / 2 ^ (N1 + N2) = shr_m mrs' / 2 ^ N2).
  { rewrite Hm', Z.pow_add_r, Z.div_div by lia. done. }
  assert (Hlo : m / 2 ^ (N1 + N2) ≤ shr_m mrs'').
  { rewrite Hdiv, Hm''. apply Z.div_le_mono; lia. }
  assert (Hhi : shr_m mrs'' ≤ m / 2 ^ (N1 + N2) + 1).
  { rewrite Hdiv, Hm''. etrans; [apply Z.div_le_mono; [lia|apply Hr]|].
    by apply div_succ_le. }
  assert (Hm''0 : 0 ≤ shr_m mrs'') by (rewrite Hm''; apply Z.div_pos; lia).
  assert (Hd'' : Zdigits2 (shr_m mrs'') + e'' ≤ K + 1).
  { rewrite Hm'', He''. pose proof (Zdigits2_shiftr m1 N2 ltac:(lia) HN2).
    unfold N2 in *. rewrite fexp_eq in *. lia. }
  exists (shr_m mrs''), e''. rewrite HE.
  split; [|repeat split; try lia].
  destruct (shr_m mrs'') as [|q|q]; [done| |lia].
  simpl. unfold Binary64.emax, Binary64.prec.
  destruct (Z.leb_spec e'' (1024 - 53)); [done|lia].
Qed.

Lemma pow2_pos n : 0 ≤ n → 0 < 2 ^ n.
Proof. intros. apply Z.pow_pos_nonneg; lia. Qed.

Lemma round_approx m e l K a num den :
  0 ≤ m → Zdigits2 m + e ≤ K → e ≤ K - 53 → -1021 ≤ K ≤ 52 → 0 ≤ den →
  a * 2 ^ (- e) ≤ m → m * den ≤ num * 2 ^ (- e) →
  approx (binary_round_aux Binary64.prec Binary64.emax false m e l)
    a (num * 2 ^ (52 - K) + den) (den * 2 ^ (52 - K)) (K - 52) (K + 1).
Proof.
  intros Hm Hd He HK Hden Hlo Hhi.
  destruct (round_aux_value m e l K Hm Hd He ltac:(lia))
    as (M & E & -> & HM & HeE & HE & HMlo & HMhi & HMd).
  exists M, E. repeat split; try done.
  - (* lower *)
    set (N := E - e) in *.
    assert (HN : 0 < 2 ^ N) by (apply pow2_pos; unfold N; lia).
    assert (Hpow : 2 ^ (- e) = 2 ^ (- E) * 2 ^ N).
    { rewrite <- Z.pow_add_r by (unfold N; lia). f_equal. unfold N. lia. }
    etrans; [|apply HMlo]. apply Z.div_le_lower_bound; [done|].
    rewrite Hpow in Hlo. lia.
  - (* upper *)
    set (N := E - e) in *.
    assert (HN : 0 < 2 ^ N) by (apply pow2_pos; unfold N; lia).
    assert (HE0 : 0 < 2 ^ (- E)) by (apply pow2_pos; lia).
    assert (Hpow : 2 ^ (- e) = 2 ^ (- E) * 2 ^ N).
    { rewrite <- Z.pow_add_r by (unfold N; lia). f_equal. unfold N. lia. }
    assert (HU : 0 < 2 ^ (52 - K) ≤ 2 ^ (- E)).
    { split; [apply pow2_pos; lia|]. apply Z.pow_le_mono_r; lia. }
    assert (H1 : (M - 1) * 2 ^ N ≤ m).
    { pose proof (Z.mul_div_le m (2 ^ N) HN). nia. }
    assert (H2 : (M - 1) * den ≤ num * 2 ^ (- E)).
    { apply (Z.mul_le_mono_pos_r _ _ (2 ^ N)); [done|].
      rewrite Hpow in Hhi. nia. }
    assert (0 ≤ num * 2 ^ (- E)) by nia.
    assert (0 ≤ num) by nia.
    nia.
Qed.

Lemma mkf_pos p E : mkf (Z.pos p) E = S754_finite false p E.
Proof. reflexivity. Qed.

Lemma Zdigits2_lower m : 0 < m → 2 ^ (Zdigits2 m - 1) ≤ m.
Proof.
  intros Hm. rewrite Zdigits2_log2 by done.
  replace (Z.log2 m + 1 - 1) with (Z.log2 m) by lia. by apply Z.log2_spec.
Qed.

(** Division by a positive constant [C = Mc * 2^Ec]. *)
Lemma div_approx x a num den Eb K Mc Ec C a' :
  approx x a num den Eb K →
  Z.pos Mc = C * 2 ^ (- Ec) → Ec ≤ 0 → 0 < C → Eb ≤ 0 → 0 ≤ den →
  let mc := Zdigits2 (Z.pos Mc) + Ec in
  let K' := K - mc + 1 in
  -1021 ≤ K' ≤ 52 →
  a' * C ≤ a →
  approx (Binary64.div x (S754_finite false Mc Ec))
    a' (num * 2 ^ (52 - K') + den * C) (den * C * 2 ^ (52 - K')) (K' - 52) (K' + 1).
Proof.
  intros (M & E & -> & HM & HE & Hd & Hlo & Hhi) HMc HEc HC HEb Hden mc K' HK Ha'.
  assert (HE0 : 0 < 2 ^ (- E)) by (apply pow2_pos; lia).
  assert (HEc0 : 0 < 2 ^ (- Ec)) by (apply pow2_pos; lia).
  destruct M as [|M|M]; [|clear HM|lia].
  { (* zero *)
    assert (Ha0 : a ≤ 0) by nia. assert (Ha'0 : a' ≤ 0) by nia.
    assert (Hn0 : 0 ≤ num) by nia.
    assert (HP : 0 < 2 ^ (- (K' - 52))) by (apply pow2_pos; lia).
    assert (HU : 0 < 2 ^ (52 - K')) by (apply pow2_pos; lia).
    exists 0, (K' - 52). split; [done|]. split; [lia|]. split; [lia|].
    split; [simpl; lia|]. split; nia. }
  rewrite mkf_pos. unfold Binary64.div, SFdiv. cbn [xorb].
  destruct (SFdiv_core_binary _ _ _ _ _ _) as [[q e'] l] eqn:Ecore.
  revert Ecore. unfold SFdiv_core_binary.
  set (d1 := Zdigits2 (Z.pos M)). set (dc := Zdigits2 (Z.pos Mc)).
  set (e0 := Z.min (fexp Binary64.prec Binary64.emax (d1 + E - (dc + Ec))) (E - Ec)).
  set (s := E - Ec - e0).
  assert (Hs : 0 ≤ s) by (unfold s, e0; lia).
  set (m' := match s with Z.pos _ => Z.shiftl (Z.pos M) s | 0 => Z.pos M | Z.neg _ => 0 end).
  assert (Hm' : m' = Z.pos M * 2 ^ s).
  { unfold m'. destruct s as [|p|p] eqn:Es; [simpl; lia| |lia].
    by rewrite Z.shiftl_mul_pow2. }
  pose proof (Z_div_mod m' (Z.pos Mc) ltac:(lia)) as Hdm.
  destruct (Z.div_eucl m' (Z.pos Mc)) as [q0 r0]. intros [= <- <- <-].
  destruct Hdm as [Hdm Hr0].
  assert (Hs0 : 0 < 2 ^ s) by (by apply pow2_pos).
  assert (Hq0 : 0 ≤ q0) by nia.
  assert (He0 : e0 ≤ K' - 53).
  { unfold e0. rewrite fexp_eq. unfold K', mc. fold dc. fold d1 in Hd. lia. }
  assert (Hmag : Zdigits2 q0 + e0 ≤ K').
  { pose proof (Zdigits2_bound (Z.pos M) ltac:(lia)) as Hb1. fold d1 in Hb1.
    pose proof (Zdigits2_lower (Z.pos Mc) ltac:(lia)) as Hb2. fold dc in Hb2.
    assert (Hdc : 1 ≤ dc) by (unfold dc; simpl; lia).
    assert (Hd1 : 1 ≤ d1) by (unfold d1; simpl; lia).
    set (D := Z.max 0 (d1 + s - dc + 1)).
    enough (Zdigits2 q0 ≤ D) by (unfold D, s, K', mc in *; fold dc; fold d1 in Hd; lia).
    apply Zdigits2_le; [done|unfold D; lia|].
    assert (0 < 2 ^ (dc - 1)) by (apply pow2_pos; lia).
    assert (q0 * 2 ^ (dc - 1) < 2 ^ (d1 + s)).
    { rewrite Z.pow_add_r by lia. nia. }
    destruct (Z.le_gt_cases 0 (d1 + s - dc + 1)).
    - unfold D. rewrite Z.max_r by lia.
      assert (2 ^ (d1 + s) = 2 ^ (d1 + s - dc + 1) * 2 ^ (dc - 1)) as Hsplit.
      { rewrite <- Z.pow_add_r by lia. f_equal. lia. }
      rewrite Hsplit in *. nia.
    - unfold D. rewrite Z.max_l by lia. simpl.
      assert (2 ^ (d1 + s) ≤ 2 ^ (dc - 1)) by (apply Z.pow_le_mono_r; lia).
      nia. }
  assert (He'0 : 0 < 2 ^ (- e0)) by (apply pow2_pos; lia).
  assert (Hexp : 2 ^ (- e0) * 2 ^ (- Ec) = 2 ^ (- E) * 2 ^ s).
  { rewrite <- !Z.pow_add_r by lia. f_equal. unfold s. lia. }
  apply round_approx; try done.
  - nia.
  - (* lower: a' * 2^(-e0) ≤ q0 *)
    assert (a' * 2 ^ (- e0) * Z.pos Mc ≤ m').
    { rewrite HMc, Hm'.
      replace (a' * 2 ^ (- e0) * (C * 2 ^ (- Ec)))
        with (a' * C * (2 ^ (- e0) * 2 ^ (- Ec))) by ring.
      rewrite Hexp. nia. }
    nia.
  - (* upper: q0 * (den * C) ≤ num * 2^(-e0) *)
    assert (H1 : q0 * Z.pos Mc * den ≤ num * (2 ^ (- E) * 2 ^ s)) by nia.
    rewrite <- Hexp, HMc in H1.
    apply (Z.mul_le_mono_pos_r _ _ (2 ^ (- Ec))); [done|]. nia.
Qed.

(** Multiplication by a positive constant [C = Mc * 2^Ec]. *)
Lemma mul_approx x a num den Eb K Mc Ec C :
  approx x a num den Eb K →
  Z.pos Mc = C * 2 ^ (- Ec) → Ec ≤ 0 → 0 < C → Eb ≤ 0 → 0 ≤ den →
  let mc := Zdigits2 (Z.pos Mc) + Ec in
  let K' := K + mc in
  -1021 ≤ K' ≤ 52 → Eb + Ec ≤ K' - 53 →
  approx (Binary64.mul x (S754_finite false Mc Ec))
    (a * C) (num * C * 2 ^ (52 - K') + den) (den * 2 ^ (52 - K')) (K' - 52) (K' + 1).
Proof.
  intros (M & E & -> & HM & HE & Hd & Hlo & Hhi) HMc HEc HC HEb Hden mc K' HK HEbc.
  assert (HE0 : 0 < 2 ^ (- E)) by (apply pow2_pos; lia).
  assert (HEc0 : 0 < 2 ^ (- Ec)) by (apply pow2_pos; lia).
  assert (HP : 0 < 2 ^ (- (K' - 52))) by (apply pow2_pos; lia).
  assert (HU : 0 < 2 ^ (52 - K')) by (apply pow2_pos; lia).
  destruct M as [|M|M]; [|clear HM|lia].
  { assert (Ha0 : a ≤ 0) by nia. assert (Hn0 : 0 ≤ num) by nia.
    exists 0, (K' - 52). split; [done|]. split; [lia|]. split; [lia|].
    split; [simpl; lia|]. split; nia. }
  rewrite mkf_pos. unfold Binary64.mul, SFmul. cbn [xorb].
  assert (Hexp : 2 ^ (- (E + Ec)) = 2 ^ (- E) * 2 ^ (- Ec)).
  { rewrite <- Z.pow_add_r by lia. f_equal. lia. }
  pose proof (Zdigits2_mul (Z.pos M) (Z.pos Mc) ltac:(lia) ltac:(lia)) as Hmul.
  replace (num * C * 2 ^ (52 - K') + den) with ((num * C) * 2 ^ (52 - K') + den) by ring.
  apply round_approx; try done.
  - rewrite Pos2Z.inj_mul. unfold K', mc. lia.
  - lia.
  - rewrite Hexp, Pos2Z.inj_mul, HMc. nia.
  - rewrite Hexp, Pos2Z.inj_mul.
    assert (Z.pos M * den * Z.pos Mc ≤ num * 2 ^ (- E) * Z.pos Mc) by nia.
    rewrite HMc in H at 2. nia.
Qed.

Lemma shl_align_value m e e' mz ez :
  shl_align m e e' = (mz, ez) →
  ez = Z.min e e' ∧ Z.pos mz = Z.pos m * 2 ^ (e - ez).
Proof.
  unfold shl_align. destruct (e' - e) as [|d|d] eqn:Ed; intros [= <- <-].
  - rewrite Z.min_l by lia. rewrite Z.sub_diag. simpl. lia.
  - rewrite Z.min_l by lia. rewrite Z.sub_diag. simpl. lia.
  - rewrite Z.min_r by lia. split; [done|].
    change (Pos.iter xO m d) with (shift_pos d m). rewrite shift_pos_correct.
    change (Z.pow_pos 2 d) with (2 ^ Z.pos d). replace (e - e') with (Z.pos d) by lia. lia.
Qed.

(** Rounding a non-negative integer multiple of [2^e]. *)
Lemma normalize_approx r e K a num den :
  0 ≤ r → e ≤ 0 → Zdigits2 r + e ≤ K → -1021 ≤ K ≤ 52 → 0 ≤ den →
  a * 2 ^ (- e) ≤ r → r * den ≤ num * 2 ^ (- e) →
  approx (binary_normalize Binary64.prec Binary64.emax r e false)
    a (num * 2 ^ (52 - K) + den) (den * 2 ^ (52 - K)) (K - 52) (K + 1).
Proof.
  intros Hr He Hd HK Hden Hlo Hhi.
  assert (He0 : 0 < 2 ^ (- e)) by (apply pow2_pos; lia).
  assert (HP : 0 < 2 ^ (- (K - 52))) by (apply pow2_pos; lia).
  assert (HU : 0 < 2 ^ (52 - K)) by (apply pow2_pos; lia).
  destruct r as [|r|r]; [|clear Hr|lia].
  { assert (Ha0 : a ≤ 0) by nia. assert (Hn0 : 0 ≤ num) by nia.
    exists 0, (K - 52). split; [done|]. split; [lia|]. split; [lia|].
    split; [simpl; lia|]. split; nia. }
  cbn [binary_normalize]. unfold binary_round.
  destruct (shl_align r e _) as [mz ez] eqn:Es.
  pose proof (shl_align_bound _ _ _ _ _ Es) as [Hb1 Hb2].
  apply shl_align_value in Es as [Hez Hmz].
  assert (Hsplit : 2 ^ (- ez) = 2 ^ (- e) * 2 ^ (e - ez)).
  { rewrite <- Z.pow_add_r by lia. f_equal. lia. }
  assert (0 < 2 ^ (e - ez)) by (apply pow2_pos; lia).
  simpl Zdigits2 in Hd.
  apply round_approx; try done.
  - simpl Zdigits2. lia.
  - rewrite Hez, fexp_eq. lia.
  - rewrite Hsplit, Hmz. nia.
  - rewrite Hsplit, Hmz. nia.
Qed.

(** The remainder by a positive constant [C = Mc * 2^Ec] of a float whose
    integer part is [a]. *)
Lemma fmod_approx x a num den Eb K Mc Ec C :
  approx x a num den Eb K →
  Z.pos Mc = C * 2 ^ (- Ec) → Ec ≤ 0 → 0 < C → Eb ≤ 0 → 0 < den →
  0 ≤ a → num < (a + 1) * den →
  let mc := Zdigits2 (Z.pos Mc) + Ec in
  -1021 ≤ mc ≤ 52 →
  approx (Binary64.fmod x (S754_finite false Mc Ec))
    (a mod C) ((num - a / C * C * den) * 2 ^ (52 - mc) + den) (den * 2 ^ (52 - mc))
    (mc - 52) (mc + 1).
Proof.
  intros (M & E & -> & HM & HE & Hd & Hlo & Hhi) HMc HEc HC HEb Hden Ha Hnum mc Hmc.
  assert (HE0 : 0 < 2 ^ (- E)) by (apply pow2_pos; lia).
  assert (HEc0 : 0 < 2 ^ (- Ec)) by (apply pow2_pos; lia).
  assert (HP : 0 < 2 ^ (- (mc - 52))) by (apply pow2_pos; lia).
  assert (HU : 0 < 2 ^ (52 - mc)) by (apply pow2_pos; lia).
  pose proof (Z.div_mod a C ltac:(lia)) as Hdm.
  pose proof (Z.mod_pos_bound a C HC) as Hmod.
  assert (Hg : 0 ≤ a / C) by (apply Z.div_pos; lia).
  destruct M as [|M|M]; [|clear HM|lia].
  { assert (Ha0 : a = 0) by nia. subst a.
    rewrite Z.mod_0_l, Z.div_0_l by lia. simpl (mkf 0 E). simpl Binary64.fmod.
    exists 0, (mc - 52). split; [done|]. split; [lia|]. split; [lia|].
    split; [simpl; lia|]. split; nia. }
  rewrite mkf_pos. unfold Binary64.fmod. cbn [cond_Zopp].
  set (e := Z.min E Ec).
  set (u := 2 ^ (- e)).
  assert (Hu : 0 < u) by (apply pow2_pos; unfold e; lia).
  set (X := Z.shiftl (Z.pos M) (E - e)). set (Y := Z.shiftl (Z.pos Mc) (Ec - e)).
  assert (HX : X = Z.pos M * 2 ^ (E - e)) by (unfold X; rewrite Z.shiftl_mul_pow2; unfold e; lia).
  assert (HY : Y = C * u).
  { unfold Y, u. rewrite Z.shiftl_mul_pow2, HMc by (unfold e; lia).
    rewrite <- Z.mul_assoc, <- Z.pow_add_r by (unfold e; lia). do 2 f_equal. lia. }
  assert (HEe : 0 < 2 ^ (E - e)) by (apply pow2_pos; unfold e; lia).
  assert (Hue : u = 2 ^ (- E) * 2 ^ (E - e)).
  { unfold u. rewrite <- Z.pow_add_r by (unfold e; lia). f_equal. lia. }
  assert (HXlo : a * u ≤ X) by (rewrite HX, Hue; nia).
  assert (HXden : X * den ≤ num * u) by (rewrite HX, Hue; nia).
  assert (HXhi : X < (a + 1) * u) by nia.
  assert (Hrem : Z.rem X Y = X - a / C * Y).
  { rewrite Z.rem_mod_nonneg by nia. symmetry.
    apply (Z.mod_unique_pos X Y (a / C)); nia. }
  rewrite Hrem. set (r := X - a / C * Y) in *.
  assert (Hr0 : 0 ≤ r) by (unfold r; nia).
  assert (HrY : r < Y) by (unfold r; nia).
  apply normalize_approx.
  - done.
  - unfold e; lia.
  - (* magnitude *)
    pose proof (Zdigits2_mono r Y ltac:(lia)) as Hm1.
    assert (Zdigits2 Y ≤ Zdigits2 (Z.pos Mc) + (Ec - e)).
    { unfold Y. rewrite Z.shiftl_mul_pow2 by (unfold e; lia).
      apply Zdigits2_shiftl; unfold e; lia. }
    unfold mc. lia.
  - done.
  - lia.
  - fold u. unfold r. nia.
  - fold u. unfold r. nia.
Qed.

Lemma float_rem_approx x a num den Eb K Mc Ec C :
  approx x a num den Eb K →
  Z.pos Mc = C * 2 ^ (- Ec) → Ec ≤ 0 → 0 < C → Eb ≤ 0 → 0 < den →
  0 ≤ a → num < (a + 1) * den →
  let mc := Zdigits2 (Z.pos Mc) + Ec in
  -1021 ≤ mc ≤ 52 →
  ∃ r, Py.float_rem x (S754_finite false Mc Ec) = Ret r
       ∧ approx r (a mod C) ((num - a / C * C * den) * 2 ^ (52 - mc) + den)
           (den * 2 ^ (52 - mc)) (mc - 52) (mc + 1).
Proof.
  intros Hx HMc HEc HC HEb Hden Ha Hnum mc Hmc.
  pose proof (fmod_approx x a num den Eb K Mc Ec C Hx HMc HEc HC HEb Hden Ha Hnum Hmc) as Hr.
  unfold Py.float_rem.
  destruct Hr as (M & E & Er & Hrest). rewrite Er.
  destruct M as [|M|M]; [| |lia]; cbn [mkf Binary64.sign_bit Binary64.is_neg xorb].
  - exists (mkf 0 E). split; [done|]. exists 0, E. done.
  - exists (mkf (Z.pos M) E). split; [done|]. exists (Z.pos M), E. done.
Qed.

(** Truncating a float whose integer part is [a]. *)
Lemma int_of_float_approx x a num den Eb K :
  approx x a num den Eb K → Eb ≤ 0 → 0 < den → 0 ≤ a → num < (a + 1) * den →
  Py.int_of_float x = Ret a.
Proof.
  intros (M & E & -> & HM & HE & Hd & Hlo & Hhi) HEb Hden Ha Hnum.
  assert (HE0 : 0 < 2 ^ (- E)) by (apply pow2_pos; lia).
  destruct M as [|M|M]; [|clear HM|lia].
  - simpl. f_equal. nia.
  - simpl. f_equal. destruct (Z.leb_spec 0 E).
    + assert (E = 0) as -> by lia. rewrite Z.shiftl_0_r. simpl in *. nia.
    + rewrite Z.shiftr_div_pow2 by lia. symmetry.
      apply (Z.div_unique_pos _ _ _ (Z.pos M - a * 2 ^ (- E))); nia.
Qed.

Lemma approx_weaken x a num den Eb K a' num' den' Eb' K' :
  approx x a num den Eb K →
  a' ≤ a → 0 < den → 0 < den' → num * den' ≤ num' * den → Eb ≤ Eb' → K ≤ K' →
  approx x a' num' den' Eb' K'.
Proof.
  intros (M & E & -> & HM & HE & Hd & Hlo & Hhi) Ha Hden Hden' Hn HEb HK.
  assert (0 ≤ 2 ^ (- E)) by (apply Z.pow_nonneg; lia).
  exists M, E. repeat split; try lia; [nia|].
  apply (Z.mul_le_mono_pos_r _ _ den); [done|].
  assert (M * den * den' ≤ num * 2 ^ (- E) * den') by nia.
  assert (num * den' * 2 ^ (- E) ≤ num' * den * 2 ^ (- E)) by nia.
  lia.
Qed.

Lemma int_as_float_approx n K :
  0 ≤ n → Zdigits2 n ≤ K → approx (Py.int_as_float n) n n 1 0 K.
Proof.
  intros Hn HK. exists n, 0. repeat split; try lia. by destruct n.
Qed.

(** The quotient [1000 * k / 1000] is [k], or one unit in the last place
    above. *)
Lemma secs_approx k :
  0 ≤ k < 86400 →
  ∃ secs, Py.int_truediv (1000 * k) 1000 = Ret secs
          ∧ approx secs k (k * 2 ^ 34 + 1) (2 ^ 34) (-34) 19.
Proof.
  intros Hk. unfold Py.int_truediv. simpl (1000 =? 0). cbv iota.
  assert (Hx : approx (Py.int_as_float (1000 * k)) (1000 * k) (1000 * k) 1 0 27).
  { apply int_as_float_approx; [lia|]. apply Zdigits2_le; lia. }
  pose proof (div_approx _ _ _ _ _ _ 1000 0 1000 k Hx eq_refl ltac:(lia) ltac:(lia)
                ltac:(lia) ltac:(lia)) as Hq.
  cbv zeta in Hq. change (Zdigits2 1000) with 10 in Hq.
  specialize (Hq ltac:(lia) ltac:(lia)).
  change (Py.int_as_float 1000) with (S754_finite false 1000 0).
  fold (Binary64.div (Py.int_as_float (1000 * k)) (S754_finite false 1000 0)).
  eapply (approx_weaken _ _ _ _ _ _ k (k * 2 ^ 34 + 1) (2 ^ 34) (-34) 19) in Hq;
    [|lia..].
  destruct Hq as (M & E & Eq & Hrest). rewrite Eq.
  exists (mkf M E). split; [|by exists M, E].
  destruct M; [done|done|]. destruct Hrest. lia.
Qed.

(** [int(x % C)] for a float [x] whose integer part is [a]. *)
Lemma rem_trunc x a num den Eb K Mc Ec C :
  approx x a num den Eb K →
  Z.pos Mc = C * 2 ^ (- Ec) → Ec ≤ 0 → 0 < C → Eb ≤ 0 → 0 < den → 0 ≤ a →
  let mc := Zdigits2 (Z.pos Mc) + Ec in
  -1021 ≤ mc ≤ 52 →
  den < ((a + 1) * den - num) * 2 ^ (52 - mc) →
  ∃ r, Py.float_rem x (S754_finite false Mc Ec) = Ret r
       ∧ Py.int_of_float r = Ret (a mod C).
Proof.
  intros Hx HMc HEc HC HEb Hden Ha mc Hmc Hgap.
  assert (HU : 0 < 2 ^ (52 - mc)) by (apply pow2_pos; lia).
  assert (Hnum : num < (a + 1) * den) by nia.
  destruct (float_rem_approx x a num den Eb K Mc Ec C Hx HMc HEc HC HEb Hden Ha Hnum Hmc)
    as (r & Er & Hr).
  exists r. split; [done|].
  pose proof (Z.div_mod a C ltac:(lia)) as Hdm.
  pose proof (Z.mod_pos_bound a C HC) as Hmod.
  eapply int_of_float_approx; [exact Hr|fold mc; lia|nia|lia|].
  fold mc. set (U := 2 ^ (52 - mc)) in *. set (g := a / C) in *. set (T := a mod C) in *.
  assert (((T + 1) * den - (num - g * C * den)) = (a + 1) * den - num) by (rewrite Hdm; ring).
  nia.
Qed.

Lemma fromHMS_seconds k :
  0 ≤ k < 86400 →
  QTime.fromHMS ((k / 3600) mod 60) ((k / 60) mod 60) (k mod 60) ((1000 * k) mod 1000)
  = QTime.Make (1000 * k).
Proof.
  intros Hk. unfold QTime.fromHMS.
  assert ((1000 * k) mod 1000 = 0) as -> by (rewrite Z.mul_comm; apply Z.mod_mul; lia).
  assert (0 ≤ k / 3600 < 24) by (split; [apply Z.div_pos; lia|apply Z.div_lt_upper_bound; lia]).
  rewrite (Z.mod_small (k / 3600) 60) by lia.
  pose proof (Z.mod_pos_bound (k / 60) 60 ltac:(lia)).
  pose proof (Z.mod_pos_bound k 60 ltac:(lia)).
  cases_Z; try lia. f_equal.
  pose proof (Z.div_mod k 60 ltac:(lia)). pose proof (Z.div_mod (k / 60) 60 ltac:(lia)).
  assert (k / 60 / 60 = k / 3600) by (rewrite Z.div_div by lia; done).
  lia.
Qed.

(** A whole number of seconds below one day comes back exactly. *)
Lemma deltaToQTime_seconds k :
  0 ≤ k < 86400 → deltaToQTime (1000 * k) = Ret (QTime.Make (1000 * k)).
Proof.
  intros Hk. unfold deltaToQTime.
  destruct (secs_approx k Hk) as (secs & -> & Hsecs). cbn [mbind outcome_bind].
  change (Binary64.of_Z 3600) with f3600.
  change (Binary64.of_Z 60) with f60.
  change (Binary64.of_Z 1000) with f1000.
  (* hours *)
  assert (H1 : approx (Binary64.div secs f3600) (k / 3600)
                 (k * 2 ^ 20 + 1) (3600 * 2 ^ 20) (-44) 9).
  { pose proof (div_approx _ _ _ _ _ _ 7916483719987200 (-41) 3600 (k / 3600) Hsecs
                  eq_refl ltac:(lia) ltac:(lia) ltac:(lia) ltac:(lia)) as H.
    cbv zeta in H. change (Zdigits2 7916483719987200) with 53 in H.
    specialize (H ltac:(lia) ltac:(pose proof (Z.mul_div_le k 3600); lia)).
    eapply approx_weaken; [exact H|lia..]. }
  (* minutes *)
  assert (H2 : approx (Binary64.div secs f60) (k / 60)
                 (k * 2 ^ 20 + 1) (60 * 2 ^ 20) (-38) 15).
  { pose proof (div_approx _ _ _ _ _ _ 8444249301319680 (-47) 60 (k / 60) Hsecs
                  eq_refl ltac:(lia) ltac:(lia) ltac:(lia) ltac:(lia)) as H.
    cbv zeta in H. change (Zdigits2 8444249301319680) with 53 in H.
    specialize (H ltac:(lia) ltac:(pose proof (Z.mul_div_le k 60); lia)).
    eapply approx_weaken; [exact H|lia..]. }
  (* milliseconds *)
  assert (H4 : approx (Binary64.mul secs f1000) (k * 1000)
                 (k * 1000 * 2 ^ 20 + 1) (2 ^ 20) (-23) 30).
  { pose proof (mul_approx _ _ _ _ _ _ 8796093022208000 (-43) 1000 Hsecs
                  eq_refl ltac:(lia) ltac:(lia) ltac:(lia) ltac:(lia)) as H.
    cbv zeta in H. change (Zdigits2 8796093022208000) with 53 in H.
    specialize (H ltac:(lia) ltac:(lia)).
    eapply approx_weaken; [exact H|lia..]. }
  unfold f60, f3600, f1000 in *.
  destruct (rem_trunc _ _ _ _ _ _ 8444249301319680 (-47) 60 H1) as (a1 & -> & E1);
    [reflexivity|lia|lia|lia|lia|apply Z.div_pos; lia|
     change (Zdigits2 8444249301319680) with 53; lia|
     change (Zdigits2 8444249301319680) with 53;
     pose proof (Z.div_mod k 3600 ltac:(lia)); pose proof (Z.mod_pos_bound k 3600 ltac:(lia));
     lia|].
  destruct (rem_trunc _ _ _ _ _ _ 8444249301319680 (-47) 60 H2) as (a2 & -> & E2);
    [reflexivity|lia|lia|lia|lia|apply Z.div_pos; lia|
     change (Zdigits2 8444249301319680) with 53; lia|
     change (Zdigits2 8444249301319680) with 53;
     pose proof (Z.div_mod k 60 ltac:(lia)); pose proof (Z.mod_pos_bound k 60 ltac:(lia));
     lia|].
  destruct (rem_trunc _ _ _ _ _ _ 8444249301319680 (-47) 60 Hsecs) as (a3 & -> & E3);
    [reflexivity|lia|lia|lia|lia|lia|
     change (Zdigits2 8444249301319680) with 53; lia|
     change (Zdigits2 8444249301319680) with 53; lia|].
  destruct (rem_trunc _ _ _ _ _ _ 8796093022208000 (-43) 1000 H4) as (a4 & -> & E4);
    [reflexivity|lia|lia|lia|lia|lia|
     change (Zdigits2 8796093022208000) with 53; lia|
     change (Zdigits2 8796093022208000) with 53; lia|].
  cbn [mbind outcome_bind]. rewrite E1, E2, E3, E4. cbn [mbind outcome_bind].
  f_equal. rewrite (Z.mul_comm k 1000). by apply fromHMS_seconds.
Qed.

(** ** Python lists *)

Section PyLists.
Context {A : Type}.
Implicit Types (l : list A) (i : Z) (k : nat).

Lemma index_lt l i k : Py.index l i = Some k → (k < length l)%nat.
Proof. unfold Py.index. intros H. cases_Z; simplify_eq; lia. Qed.

Lemma index_in_range l i :
  is_Some (Py.index l i) ↔ - Z.of_nat (length l) ≤ i < Z.of_nat (length l).
Proof.
  unfold Py.index. cases_Z; (split; [intros [? ?]; simplify_eq; lia | intros; eauto; lia]).
Qed.

Lemma index_nonneg l i :
  0 ≤ i → i < Z.of_nat (length l) → Py.index l i = Some (Z.to_nat i).
Proof. intros. unfold Py.index. cases_Z; done || lia. Qed.

Lemma index_last l : l ≠ [] → Py.index l (-1) = Some (length l - 1)%nat.
Proof.
  intros Hl. unfold Py.index. destruct l as [|x l]; [done|]. simpl length.
  cases_Z; try lia. f_equal. lia.
Qed.

Lemma pop_Ret l i x r :
  Py.pop l i = Ret (x, r) ↔
  ∃ k, Py.index l i = Some k ∧ l !! k = Some x ∧ r = delete k l.
Proof.
  unfold Py.pop. destruct (Py.index l i) as [k|]; simpl.
  - destruct (l !! k) as [y|] eqn:E; simpl.
    + split; [intros [= <- <-]; eauto | intros (? & [= <-] & ? & ->); congruence].
    + split; [done | intros (? & [= <-] & ? & _); congruence].
  - split; [done | intros (? & ? & _); done].
Qed.

Lemma pop_Raise l i e :
  Py.pop l i = Raise e → e = IndexError ∧ Py.index l i = None.
Proof.
  unfold Py.pop. destruct (Py.index l i) as [k|] eqn:E; simpl.
  - destruct (lookup_lt_is_Some_2 l k (index_lt _ _ _ E)) as [x ->]. done.
  - by intros [= <-].
Qed.

Lemma pop_Permutation l i x r : Py.pop l i = Ret (x, r) → Permutation l (x :: r).
Proof.
  rewrite pop_Ret. intros (k & _ & Hk & ->). by apply delete_Permutation.
Qed.

Lemma insert_Permutation l i x : Permutation (Py.insert l i x) (x :: l).
Proof.
  unfold Py.insert. rewrite <- Permutation_middle. by rewrite take_drop.
Qed.

Lemma insert_nonneg l i x :
  0 ≤ i →
  Py.insert l i x = take (Z.to_nat i) l ++ x :: drop (Z.to_nat i) l.
Proof.
  intros Hi. unfold Py.insert. cases_Z; [lia|].
  destruct (Z.le_gt_cases i (Z.of_nat (length l))).
  - by rewrite Z.min_l.
  - rewrite Z.min_r, Nat2Z.id by lia.
    rewrite !take_ge, !drop_ge by lia. done.
Qed.
End PyLists.

(** ** C8: the drag reorder *)

(** C8. Whatever the list and the two indices, [syncClipList] pops the clip
    at [start] and inserts it at [row - 1] when [start < row] and at [row]
    otherwise, which for positions counted from zero is the reorder of the
    specification; the new list is a permutation of the old one and nothing
    else changes.  Only an index outside the list makes the [pop] raise, and
    then the state is untouched. *)
Theorem syncClipList_reorder (s : State) (start row : Z) :
  let n := Z.of_nat (length (clipTimes s)) in
  match syncClipList start row s with
  | (Ret _, s') =>
      - n ≤ start < n
      ∧ (∃ clip rest, Py.pop (clipTimes s) start = Ret (clip, rest)
           ∧ clipTimes s' = Py.insert rest (if start <? row then row - 1 else row) clip)
      ∧ Permutation (clipTimes s) (clipTimes s')
      ∧ (0 ≤ start → 0 ≤ row →
         reorder (Z.to_nat start) (Z.to_nat row) (clipTimes s) = Some (clipTimes s'))
      ∧ s' = set_clipTimes (clipTimes s') s
  | (Raise e, s') => e = IndexError ∧ s' = s ∧ ¬ (- n ≤ start < n)
  end.
Proof.
  intros n. unfold syncClipList, mbind, M_bind, get, lift, modify. simpl.
  destruct (Py.pop (clipTimes s) start) as [[clip rest]|e] eqn:Hpop; simpl.
  - pose proof Hpop as Hp. apply pop_Ret in Hp as (k & Hk & Hx & ->).
    split; [apply index_in_range; eauto|].
    split; [eauto|].
    split.
    { rewrite insert_Permutation. by apply delete_Permutation. }
    split; [|done].
    intros Hs Hr. pose proof (index_lt _ _ _ Hk) as Hlt.
    assert (start < n) by (apply (index_in_range (clipTimes s)); eauto).
    rewrite index_nonneg in Hk by done.
    simplify_eq. unfold reorder. rewrite Hx. simpl. f_equal.
    unfold effective_index.
    destruct (Z.ltb_spec start row), (Nat.leb_spec (Z.to_nat row) (Z.to_nat start));
      try lia.
    + rewrite insert_nonneg by lia. by rewrite Z2Nat.inj_sub by lia.
    + by rewrite insert_nonneg by lia.
  - apply pop_Raise in Hpop as [-> Hnone]. repeat split.
    intros Hin. apply index_in_range in Hin as [? ?]. congruence.
Qed.

(** ** C9: [deltaToQTime] and exact milliseconds *)

Lemma deltaToQTime_1001_loses_a_millisecond : ¬ lossless 1001.
Proof.
  intros (t & Ht & Hr). vm_compute in Ht. injection Ht as <-. vm_compute in Hr. discriminate.
Qed.

Example deltaToQTime_1001 : deltaToQTime 1001 = Ret (QTime.Make 1000).
Proof. vm_compute. reflexivity. Qed.

(** The hour argument is taken modulo 60: sixty hours come back as midnight. *)
Example deltaToQTime_60h : deltaToQTime 216000000 = Ret (QTime.Make 0).
Proof. vm_compute. reflexivity. Qed.

(** A [QTime] holds less than a day: at 24 hours the result is the null time. *)
Example deltaToQTime_24h : deltaToQTime 86400000 = Ret QTime.null.
Proof. vm_compute. reflexivity. Qed.

Lemma recombine_valid n : 0 ≤ n < 86400000 → recombine (QTime.Make n) = n.
Proof.
  intros Hn. unfold recombine, QTime.hour, QTime.minute, QTime.second, QTime.msec,
    QTime.isValid, QTime.MSECS_PER_DAY. cbn [QTime.mds].
  cases_Z; try lia. Z.div_mod_to_equations. lia.
Qed.

(** C9, failing input. At 1001 ms the quotient [1001 / 1000] is the double
    nearest to 1.001, a little below it; its product with 1000 is a little
    below 1001, the remainder by 1000 a little below 1, and the millisecond
    argument is truncated to 0.  The time that comes back is 00:00:01.000:
    its components stand for 1000 ms, not for the 1001 that went in.  The
    neighbours 1000 and 1002 come back exactly. *)
Theorem deltaToQTime_1001_is_one_second :
  deltaToQTime 1001 = Ret (QTime.Make 1000)
  ∧ QTime.msec (QTime.Make 1000) = 0
  ∧ recombine (QTime.Make 1000) = 1000
  ∧ ¬ lossless 1001
  ∧ deltaToQTime 1000 = Ret (QTime.Make 1000)
  ∧ deltaToQTime 1002 = Ret (QTime.Make 1002)
  ∧ recombine (QTime.Make 1002) = 1002.
Proof.
  split; [vm_compute; reflexivity|]. split; [vm_compute; reflexivity|].
  split; [vm_compute; reflexivity|]. split; [exact deltaToQTime_1001_loses_a_millisecond|].
  repeat split; vm_compute; reflexivity.
Qed.

(** ** C3: an end mark at or before the start *)

(** C3, failing input. With a region open from 1000 ms, an end mark at the
    same 1000 ms is accepted: [cutEnd] compares with [<], stores an end equal
    to the start, clears [inCut] and shows no error (the log is as before).  An end mark at 999 ms
    is refused and changes nothing but the log. *)
Theorem cutEnd_accepts_end_equal_to_start :
  let s := fire_all reliable [MarkStart 1000] loaded in
  let s' := run (fire reliable (MarkEnd 1000)) s in
  clipTimes s = [Clip (QTime.Make 1000) None (Some 0%nat)]
  ∧ inCut s = true
  ∧ clipTimes s' = [Clip (QTime.Make 1000) (Some (QTime.Make 1000)) (Some 0%nat)]
  ∧ inCut s' = false
  ∧ log s' = log s
  ∧ clipTimes (run (fire reliable (MarkEnd 999)) s) = clipTimes s
  ∧ log (run (fire reliable (MarkEnd 999)) s) = log s ++ [Critical "Invalid END Time"].
Proof.
  vm_compute. repeat split; reflexivity.
Qed.

(** ** C10: removing with no row selected *)

(** C10, counterexample. A direct call of [removeItem] with one open region
    and no current row ([currentRow() = -1]): [del self.clipTimes[-1]]
    removes the region, but [-1] is not [count() - 1], so [inCut] stays set
    and the end action stays enabled with no open region left.  With row 0
    selected the same call clears [inCut]. *)
Theorem removeItem_unselected_keeps_inCut :
  cliplist_currentRow one_open = -1
  ∧ (∃ c, clipTimes one_open = [c] ∧ clip_end c = None)
  ∧ inCut one_open = true
  ∧ result removeItem one_open = Ret tt
  ∧ clipTimes (run removeItem one_open) = []
  ∧ inCut (run removeItem one_open) = true
  ∧ flag cutEndAction (enabled (run removeItem one_open)) = true
  ∧ inCut (run (selectRow 0;; removeItem) one_open) = false.
Proof. vm_compute. repeat split; try reflexivity. eexists. split; reflexivity. Qed.

(** ** C4: when the export is offered *)

(** C4, failing input. After a closed region and a second, open one the
    save action is still enabled: [renderTimes] looks at the end of the
    first region only and never disables the action because of [inCut].
    Triggering it trims the first region and then raises [TypeError] on the
    second. *)
Theorem save_enabled_with_open_second_region :
  (∃ c1 c2, clipTimes closed_then_open = [c1; c2]
            ∧ is_open c1 = false ∧ is_open c2 = true)
  ∧ inCut closed_then_open = true
  ∧ flag saveAction (enabled closed_then_open) = true
  ∧ result (trigger reliable saveAction "/v/out.mp4") closed_then_open = Raise TypeError
  ∧ log (run (trigger reliable saveAction "/v/out.mp4") closed_then_open)
    = log closed_then_open ++ [Cut "/v/in.mp4" "/v/out_01.mp4" "00:00:00" "00:00:01"].
Proof. vm_compute. repeat split; try reflexivity. do 2 eexists. repeat split. Qed.

(** ** The methods in closed form *)

Ltac step :=
  unfold emit, setEnabled, isEnabled;
  unfold mbind, M_bind, mret, M_ret, get, modify, lift;
  simpl.

Lemma with_flag_same a f : with_flag a (flag a f) f = f.
Proof. by destruct a, f. Qed.

Lemma flag_with_flag a b x f :
  flag a (with_flag b x f) = if decide (a = b) then x else flag a f.
Proof. by destruct a, b, f. Qed.

Lemma renderTimes_eq s : renderTimes s = (Ret tt, rendered s).
Proof.
  unfold renderTimes, rendered, save_after. step.
  destruct s as [clips cut ? fl ? ? ? ? ? ?]; simpl.
  destruct clips as [|first rest]; simpl; [by destruct cut|].
  destruct cut; simpl; destruct (clip_end first); simpl; try done.
  all: by destruct fl.
Qed.

Lemma cutStart_eq B s :
  cutStart B s =
  match deltaToQTime (position s) with
  | Ret t => (Ret tt, started B t s)
  | Raise e => (Raise e, s)
  end.
Proof.
  unfold cutStart, captureImage, videoService_capture. step.
  destruct (deltaToQTime (position s)) as [t|e]; simpl; [|done].
  by rewrite renderTimes_eq.
Qed.

Lemma getitem_last {A} (init : list A) (x : A) :
  Py.getitem (init ++ [x]) (Z.of_nat (length (init ++ [x])) - 1) = Ret x.
Proof.
  unfold Py.getitem. rewrite index_nonneg by (rewrite length_app; simpl; lia).
  rewrite length_app. simpl.
  replace (Z.to_nat (Z.of_nat (length init + 1) - 1)) with (length init) by lia.
  by rewrite list_lookup_middle.
Qed.

Lemma setitem_last {A} (init : list A) (x y : A) :
  Py.setitem (init ++ [x]) (Z.of_nat (length (init ++ [x])) - 1) y = Ret (init ++ [y]).
Proof.
  unfold Py.setitem. rewrite index_nonneg by (rewrite length_app; simpl; lia).
  rewrite length_app. simpl.
  replace (Z.to_nat (Z.of_nat (length init + 1) - 1)) with (length init + 0)%nat by lia.
  by rewrite insert_app_r.
Qed.

Lemma cutEnd_eq init item s :
  clipTimes s = init ++ [item] →
  cutEnd s =
  match deltaToQTime (position s) with
  | Ret selected =>
      if QTime.ltb selected (clip_start item)
      then (Ret tt, set_log (log s ++ [Critical "Invalid END Time"]) s)
      else (Ret tt, ended init item selected s)
  | Raise e => (Raise e, s)
  end.
Proof.
  intros Hc. unfold cutEnd. step. rewrite Hc, getitem_last. simpl.
  destruct (deltaToQTime (position s)) as [t|e]; simpl; [|done].
  destruct (QTime.ltb t (clip_start item)); [done|].
  rewrite setitem_last. simpl. by rewrite renderTimes_eq.
Qed.

Lemma cutEnd_empty s : clipTimes s = [] → cutEnd s = (Raise IndexError, s).
Proof. intros Hc. unfold cutEnd. step. by rewrite Hc. Qed.

Lemma itemMenu_eq s : itemMenu s = (Ret tt, set_enabled (menu_flags s) s).
Proof.
  unfold itemMenu, menu_flags. step.
  destruct s as [? cut ? fl count row ? ? ? ?]; simpl.
  destruct (row =? -1), cut, (0 <? row), (row <? count - 1), (0 <? count); by destruct fl.
Qed.

(** ** C2: marking starts and ends *)

Lemma loadFile_loaded fs f :
  is_Some (fs !! f) →
  ∃ s, loadFile f (initial fs) = (Ret None, s)
       ∧ clipTimes s = [] ∧ inCut s = false
       ∧ flag cutStartAction (enabled s) = true
       ∧ flag cutEndAction (enabled s) = false.
Proof.
  intros [c Hc]. unfold loadFile, os_path_exists, os_path_isfile, lookup_file,
    initMediaControls. step. rewrite Hc. simpl. eauto 10.
Qed.

Lemma marking_inv_loaded fs f :
  is_Some (fs !! f) → marking_inv (run (loadFile f) (initial fs)).
Proof.
  intros H. destruct (loadFile_loaded _ _ H) as (s & E & Hc & Hi & H1 & H2).
  unfold run. rewrite E. simpl. unfold marking_inv. rewrite Hc, Hi, H1, H2.
  repeat split. by exists [], [].
Qed.

Lemma marking_inv_fire B e s : marking_inv s → marking_inv (run (fire B e) s).
Proof.
  intros (Hs & He & closed & opened & Hc & Hcl & Hop). simpl in Hs, He.
  unfold run, fire, trigger, slot, setPosition. destruct e as [p|p]; step.
  - (* start *)
    rewrite Hs. destruct (inCut s) eqn:Hcut; simpl.
    { unfold marking_inv; simpl. rewrite Hs, He, Hcut. eauto 10. }
    rewrite cutStart_eq. simpl.
    destruct (deltaToQTime p) as [t|err]; simpl.
    + unfold marking_inv; simpl. repeat split.
      subst opened. rewrite app_nil_r in Hc. rewrite Hc.
      eexists closed, [_]. eauto.
    + unfold marking_inv; simpl. rewrite Hs, He, Hcut. eauto 10.
  - (* end *)
    rewrite He. destruct (inCut s) eqn:Hcut; simpl.
    2: { unfold marking_inv; simpl. rewrite Hs, He, Hcut. eauto 10. }
    destruct Hop as (c & -> & Hnone).
    rewrite (cutEnd_eq closed c) by done. simpl.
    destruct (deltaToQTime p) as [t|err]; simpl.
    + destruct (QTime.ltb t (clip_start c)); simpl.
      * unfold marking_inv; simpl. rewrite Hs, He, Hcut. eauto 10.
      * unfold marking_inv; simpl. repeat split.
        eexists (closed ++ [_]), []. rewrite app_nil_r. repeat split.
        apply Forall_app. split; [done|]. by repeat constructor.
    + unfold marking_inv; simpl. rewrite Hs, He, Hcut. eauto 10.
Qed.

Lemma marking_inv_fire_all B es s : marking_inv s → marking_inv (fire_all B es s).
Proof.
  revert s. induction es as [|e es IH]; intros s Hs; [done|].
  apply IH. by apply marking_inv_fire.
Qed.

Lemma filter_open_closed (closed : list clip) :
  Forall (λ c, is_open c = false) closed →
  filter (λ c, is_open c = true) closed = [].
Proof.
  induction 1 as [|c l Hc _ IH]; [done|].
  rewrite filter_cons. rewrite decide_False by congruence. done.
Qed.

Lemma is_open_false c : is_open c = false ↔ clip_end c ≠ None.
Proof. unfold is_open. apply bool_decide_eq_false. Qed.

Lemma marking_inv_open s :
  marking_inv s →
  at_most_one_open (clipTimes s) ∧ open_only_last (clipTimes s)
  ∧ (inCut s = true ↔ ∃ c, last (clipTimes s) = Some c ∧ clip_end c = None).
Proof.
  intros (_ & _ & closed & opened & Hc & Hcl & Hop). rewrite Hc.
  assert (Hlen : (length opened ≤ 1)%nat).
  { destruct (inCut s); [destruct Hop as (? & -> & _)|subst]; simpl; lia. }
  repeat split.
  - unfold at_most_one_open. rewrite filter_app, filter_open_closed, app_nil_l by done.
    etrans; [apply length_filter|done].
  - intros i c Hi Hnone. rewrite length_app.
    destruct (decide (i < length closed)%nat) as [Hlt|Hge].
    + rewrite lookup_app_l in Hi by done.
      rewrite Forall_lookup in Hcl. specialize (Hcl _ _ Hi).
      by apply is_open_false in Hcl.
    + apply lookup_lt_Some in Hi. rewrite length_app in Hi. lia.
  - intros Hcut. rewrite Hcut in Hop. destruct Hop as (c & -> & Hnone).
    exists c. by rewrite last_snoc.
  - intros (c & Hl & Hnone). destruct (inCut s); [done|]. subst opened.
    rewrite app_nil_r in Hl. apply last_Some in Hl as [init ->].
    rewrite Forall_app, Forall_singleton in Hcl. destruct Hcl as [_ Hcl].
    by apply is_open_false in Hcl.
Qed.

Lemma fire_start_while_open B p s :
  marking_inv s → inCut s = true → fire B (MarkStart p) s = (Ret tt, set_position p s).
Proof.
  intros (Hs & _) Hcut. simpl in Hs. unfold fire, trigger, setPosition. step.
  by rewrite Hs, Hcut.
Qed.

(** C2. Direct calls: [cutStart] has no guard of its own; called twice it
    returns normally both times and leaves two open regions, the first of
    them not last. *)
Lemma cutStart_twice_opens_two_regions :
  result (setPosition 0;; cutStart reliable;; setPosition 10;; cutStart reliable) loaded
  = Ret tt
  ∧ is_open <$> clipTimes (run (setPosition 0;; cutStart reliable;;
                                setPosition 10;; cutStart reliable) loaded)
    = [true; true].
Proof. vm_compute. split; reflexivity. Qed.

(** C2, amended. Through the two toolbar actions (a disabled action does not
    run its slot), from a freshly loaded file and for every sequence of start
    and end marks at any positions and every backend: at most one region is
    open, an open region is the last one, [inCut] says whether the last
    region is open, and a start mark while a region is open does nothing
    (no region is appended, nothing is reported; only the player position
    moved). *)
Theorem marks_keep_one_open_region_last
    (B : Backend) (fs : gmap string content) (f : string) (es : list mark) :
  is_Some (fs !! f) →
  let s := fire_all B es (run (loadFile f) (initial fs)) in
  at_most_one_open (clipTimes s)
  ∧ open_only_last (clipTimes s)
  ∧ (inCut s = true ↔ ∃ c, last (clipTimes s) = Some c ∧ clip_end c = None)
  ∧ ∀ p, inCut s = true → fire B (MarkStart p) s = (Ret tt, set_position p s).
Proof.
  intros Hf s.
  assert (Hinv : marking_inv s) by by apply marking_inv_fire_all, marking_inv_loaded.
  destruct (marking_inv_open s Hinv) as (H1 & H2 & H3).
  repeat split; try done; try apply H3.
  intros p Hcut. by apply fire_start_while_open.
Qed.

Lemma marks_keep_one_open_region_last_witness :
  let s := fire_all reliable [MarkStart 0; MarkStart 5; MarkEnd 10; MarkStart 20] loaded in
  at_most_one_open (clipTimes s) ∧ open_only_last (clipTimes s).
Proof.
  pose proof (marks_keep_one_open_region_last reliable disk0 "/v/in.mp4"
                [MarkStart 0; MarkStart 5; MarkEnd 10; MarkStart 20]) as H.
  destruct H as (H1 & H2 & _).
  - exists (Other 0). vm_compute. reflexivity.
  - split; [exact H1 | exact H2].
Defined.

(** ** C7: moves at the boundary or during a cut *)

(** C7. Direct call: with three closed regions and row 0 current,
    [moveItemUp] returns normally and the first region ends up second
    ([insert(-1, item)] puts it before the last element). *)
Lemma moveItemUp_at_row_0_reorders :
  cliplist_currentRow three_closed = 0
  ∧ inCut three_closed = false
  ∧ QTime.mds ∘ clip_start <$> clipTimes three_closed = [0; 2000; 4000]
  ∧ result moveItemUp three_closed = Ret tt
  ∧ QTime.mds ∘ clip_start <$> clipTimes (run moveItemUp three_closed) = [2000; 0; 4000].
Proof. vm_compute. repeat split; reflexivity. Qed.

(** C7, amended. From the context menu, a move that the specification rules
    out finds its action disabled: [itemMenu] recomputes the four flags of
    the menu, the slot does not run, nothing is raised or reported, and the
    clip list and everything else stay as they were. *)
Theorem ruled_out_moves_are_disabled (B : Backend) (a : action) (s : State) :
  ruled_out a s →
  menu B a s = (Ret tt, set_enabled (menu_flags s) s)
  ∧ flag a (menu_flags s) = false
  ∧ clipTimes (run (menu B a) s) = clipTimes s
  ∧ log (run (menu B a) s) = log s.
Proof.
  intros Hr.
  assert (Hflag : flag a (menu_flags s) = false).
  { unfold menu_flags. destruct a; try done; simpl in Hr |- *.
    - destruct Hr as [->| Hrow]; [by rewrite andb_false_r|].
      cases_Z; try lia; by rewrite ?andb_false_r.
    - destruct Hr as [->|[->| Hrow]]; [by rewrite andb_false_r|done|].
      cases_Z; try lia; by rewrite ?andb_false_r. }
  assert (E : menu B a s = (Ret tt, set_enabled (menu_flags s) s)).
  { unfold menu, trigger. step. rewrite itemMenu_eq. simpl. by rewrite Hflag. }
  unfold run. rewrite E. done.
Qed.

(** The scenario of C7: after a start mark at 500 ms, with row 0 selected,
    the menu's move up does nothing. *)
Lemma ruled_out_moves_are_disabled_witness :
  clipTimes (run (menu reliable moveItemUpAction) (run (selectRow 0) one_open))
  = clipTimes (run (selectRow 0) one_open).
Proof.
  refine (proj1 (proj2 (proj2
    (ruled_out_moves_are_disabled reliable moveItemUpAction (run (selectRow 0) one_open) _)))).
  left. vm_compute. reflexivity.
Defined.

(** ** The export in closed form *)

Lemma msecsTo_bound x y : Z.abs (QTime.msecsTo x y) < 2 ^ 63.
Proof.
  unfold QTime.msecsTo, QTime.isValid, QTime.MSECS_PER_DAY.
  cases_Z; lia.
Qed.

Lemma closed_runtime c :
  is_open c = false →
  ∃ stop d, clip_end c = Some stop
            ∧ deltaToQTime (QTime.msecsTo (clip_start c) stop) = Ret d
            ∧ runtime c = QTime.toString d.
Proof.
  intros Hc. apply is_open_false in Hc. unfold runtime.
  destruct (clip_end c) as [stop|]; [|done].
  destruct (deltaToQTime_returns _ (msecsTo_bound (clip_start c) stop)) as [d Hd].
  rewrite Hd. eauto.
Qed.

Lemma last_cons {A} (l : list A) (a d : A) : List.last (a :: l) d = List.last l a.
Proof.
  revert a d. induction l as [|b l IH]; intros a d; [done|].
  change (List.last (a :: b :: l) d) with (List.last (b :: l) d). by rewrite !IH.
Qed.

Lemma cut_loop_closed B source file ext clips :
  Forall (λ c, is_open c = false) clips →
  ∀ index filename filelist s,
    cut_loop B source file ext clips index filename filelist s =
    (Ret (List.last (intermediates file ext index clips) filename,
          filelist ++ intermediates file ext index clips),
     set_files (trimmed B source file ext index clips (files s))
       (set_log (log s ++ trim_calls source file ext index clips) s)).
Proof.
  induction 1 as [|c rest Hc _ IH]; intros index filename filelist s.
  - simpl. rewrite !app_nil_r. by destruct s.
  - destruct (closed_runtime c Hc) as (stop & d & Hstop & Hd & Hrt).
    cbn [trimmed trim_calls intermediates]. rewrite last_cons.
    unfold trim_call. rewrite Hrt.
    cbn [cut_loop]. unfold videoService_cut, write_file, emit.
    unfold mbind, M_bind, mret, M_ret, get, modify, lift.
    rewrite Hstop. cbn [of_option]. rewrite Hd.
    fold (intermediate file ext index).
    destruct (cut_succeeds B source (intermediate file ext index) _ _);
      cbv beta iota; rewrite IH; f_equal; try (by rewrite <- app_assoc);
      destruct s; simpl; by rewrite <- app_assoc.
Qed.

Lemma remove_loop_eq names :
  ∀ s, remove_loop names s =
       (Ret tt, set_files (survivors names (files s))
                  (set_log (log s ++ removals names (files s)) s)).
Proof.
  induction names as [|f rest IH]; intros s.
  - simpl. rewrite app_nil_r. by destruct s.
  - cbn [remove_loop survivors removals].
    unfold os_path_isfile, os_remove, lookup_file, unlink, emit.
    unfold mbind, M_bind, mret, M_ret, get, modify, lift. cbv beta iota.
    destruct (files s !! f) as [c|] eqn:Ef.
    + change (bool_decide (is_Some (Some c))) with true.
      cbv beta iota. cbn [files set_log].
      rewrite Ef. cbv beta iota. rewrite IH. f_equal.
      destruct s; simpl. by rewrite <- app_assoc.
    + change (bool_decide (is_Some (@None content))) with false. cbv beta iota.
      rewrite IH. by rewrite delete_id.
Qed.

Lemma survivors_lookup names : ∀ fs f,
  survivors names fs !! f = if bool_decide (f ∈ names) then None else fs !! f.
Proof.
  induction names as [|g rest IH]; intros fs f; cbn [survivors].
  - case_bool_decide as H; [by apply elem_of_nil in H|done].
  - rewrite IH. case_bool_decide as H1; case_bool_decide as H2; try done.
    + exfalso. apply H2. by right.
    + apply elem_of_cons in H2 as [->|?]; [apply lookup_delete_eq|done].
    + apply lookup_delete_ne. intros ->. apply H2. by left.
Qed.

Lemma removals_names names : ∀ fs,
  Forall (λ e, ∃ f, e = OsRemove f ∧ f ∈ names) (removals names fs).
Proof.
  induction names as [|g rest IH]; intros fs; cbn [removals]; [constructor|].
  destruct (bool_decide _).
  - constructor; [exists g; split; [done|by left]|].
    eapply Forall_impl; [apply IH|]. intros e (f & -> & Hf). exists f. split; [done|by right].
  - eapply Forall_impl; [apply IH|]. intros e (f & -> & Hf). exists f. split; [done|by right].
Qed.

Lemma joinVideos_eq B first rest out s :
  joinVideos B (first :: rest) out s =
  (Ret tt, set_files (joined B (first :: rest) out (files s)).1
             (set_log (log s ++ (joined B (first :: rest) out (files s)).2) s)).
Proof.
  unfold joinVideos, joined, listfile_of. cbn [fst snd].
  change (default "" (head (first :: rest))) with first.
  change (Py.getitem (first :: rest) 0) with (Ret first).
  unfold write_lines, videoService_join, try_pass, os_remove, lookup_file,
    write_file, unlink, emit.
  unfold mbind, M_bind, mret, M_ret, get, modify, lift. cbv beta iota zeta.
  set (lf := Path.normpath _). set (lines := list_line <$> first :: rest).
  destruct (join_succeeds B lf out); cbv beta iota; cbn [files log set_log set_files];
    rewrite ?lookup_insert_eq.
  - assert (is_Some (<[out:=Joined lines]> (<[lf:=ListText lines]> (files s)) !! lf))
      as [c Hc].
    { destruct (decide (out = lf)) as [->|Hne];
        [rewrite lookup_insert_eq | rewrite lookup_insert_ne, lookup_insert_eq by done];
        eauto. }
    rewrite Hc. cbv beta iota. rewrite remove_loop_eq. cbn [files log set_log set_files].
    f_equal. destruct s; simpl. by rewrite <- !app_assoc.
  - cbv beta iota. rewrite remove_loop_eq. cbn [files log set_log set_files].
    f_equal. destruct s; simpl. by rewrite <- !app_assoc.
Qed.

Lemma intermediates_length file ext clips :
  ∀ index, length (intermediates file ext index clips) = length clips.
Proof. induction clips as [|c rest IH]; intros index; simpl; [done|]. by rewrite IH. Qed.

Lemma promote_eq name out s :
  (QFile_remove out;; QFile_rename name out;; mret tt) s =
  (Ret tt, set_files (promoted name out (files s)).1
             (set_log (log s ++ (promoted name out (files s)).2) s)).
Proof.
  unfold QFile_remove, QFile_rename, promoted, lookup_file, write_file, unlink, emit.
  unfold mbind, M_bind, mret, M_ret, get, modify, lift. cbv beta iota zeta.
  cbn [fst snd files log set_log set_files].
  destruct (files s !! out) as [c|] eqn:Eo; cbv beta iota;
    cbn [files log set_log set_files]; rewrite ?(delete_id _ _ Eo), ?lookup_delete_eq;
    destruct (_ !! name) as [x|]; cbv beta iota; cbn [files log set_log set_files].
  all: f_equal; destruct s; simpl in *; rewrite <- ?app_assoc; simpl;
    rewrite ?Eo; try done.
Qed.

Lemma cutVideo_closed B answer s :
  clipTimes s ≠ [] → Forall (λ c, is_open c = false) (clipTimes s) → answer ≠ "" →
  cutVideo B answer s = (Ret true, exported B answer s).
Proof.
  intros Hne Hclosed Hanswer. unfold cutVideo, exported, completionDialog, emit.
  unfold mbind at 1 2 3 4 5, M_bind, mret, M_ret, get, modify, lift. cbv beta iota zeta.
  destruct (clipTimes s) as [|c rest] eqn:Hclips; [done|].
  cbn [length Nat.eqb negb finalFilename set_finalFilename].
  apply String.eqb_neq in Hanswer. rewrite Hanswer. cbn [negb].
  destruct (Path.splitext answer) as [file ext].
  unfold mbind, M_bind, mret, M_ret, get, modify, lift.
  rewrite (cut_loop_closed B (media s) file ext (c :: rest) Hclosed).
  cbv beta iota. rewrite app_nil_l, intermediates_length.
  cbn [files log media set_files set_log set_finalFilename].
  destruct (1 <? length (c :: rest))%nat eqn:Hlen.
  - cbn [intermediates]. rewrite joinVideos_eq.
    cbn [files log finalFilename set_files set_log].
    destruct (joined _ _ _ _) as [fs' calls]. cbn [fst snd].
    f_equal. destruct s; simpl. by rewrite <- !app_assoc.
  - pose proof (promote_eq (List.last (intermediates file ext 1 (c :: rest)) "") answer) as E.
    unfold mbind, M_bind, mret, M_ret in E. rewrite E.
    cbn [files log finalFilename set_files set_log].
    destruct (promoted _ _ _) as [fs' calls]. cbn [fst snd].
    f_equal. destruct s; simpl. by rewrite <- !app_assoc.
Qed.

(** ** File names *)

Lemma str_app_cons c (a b : string) : String c a +:+ b = String c (a +:+ b).
Proof. reflexivity. Qed.

Lemma str_length_app (a b : string) :
  String.length (a +:+ b) = (String.length a + String.length b)%nat.
Proof.
  induction a as [|c a IH]; [done|]. rewrite str_app_cons. simpl. by rewrite IH.
Qed.

Lemma str_take_drop n (s : string) : Path.str_take n s +:+ Path.str_drop n s = s.
Proof.
  revert s. induction n as [|n IH]; intros [|c s]; simpl; try done.
  rewrite str_app_cons. by rewrite IH.
Qed.

Lemma str_app_empty_r (s : string) : s +:+ "" = s.
Proof. induction s as [|c s IH]; [done|]. rewrite str_app_cons. by rewrite IH. Qed.

(** [splitext] cuts its argument in two. *)
Lemma splitext_app p file ext : Path.splitext p = (file, ext) → file +:+ ext = p.
Proof.
  unfold Path.splitext.
  destruct (_ <? _); [destruct (Path.all_char _ _)|]; intros [= <- <-];
    auto using str_app_empty_r, str_take_drop.
Qed.

(** An intermediate file is never the destination itself. *)
Lemma intermediate_ne file ext index : intermediate file ext index ≠ file +:+ ext.
Proof.
  intros E. apply (f_equal String.length) in E. unfold intermediate in E.
  rewrite !str_length_app in E. simpl in E. lia.
Qed.

Lemma intermediates_elem file ext clips : ∀ index f,
  f ∈ intermediates file ext index clips → ∃ i, f = intermediate file ext i.
Proof.
  induction clips as [|c rest IH]; intros index f; simpl.
  - intros H. by apply elem_of_nil in H.
  - intros [->|H]%elem_of_cons; eauto.
Qed.

Lemma trim_calls_lookup source file ext clips : ∀ index i c,
  clips !! i = Some c →
  trim_calls source file ext index clips !! i
  = Some (Cut source (intermediate file ext (index + i))
            (QTime.toString (clip_start c)) (runtime c))
  ∧ intermediates file ext index clips !! i = Some (intermediate file ext (index + i)).
Proof.
  induction clips as [|c' rest IH]; intros index i c Hi; [done|].
  destruct i as [|i]; simpl in *.
  - simplify_eq. by rewrite Nat.add_0_r.
  - rewrite <- Nat.add_succ_comm. by apply IH.
Qed.

Lemma trim_calls_length source file ext clips :
  ∀ index, length (trim_calls source file ext index clips) = length clips.
Proof. induction clips as [|c rest IH]; intros index; simpl; [done|]. by rewrite IH. Qed.

(** ** C5: one region *)

(** C5. With the single region [2000 ms, 5000 ms], whatever the source, the
    destination chosen in the dialog and the backend: [cutVideo] returns
    [True] after exactly one trim call, for the 3000 ms between start and end
    (passed as ["00:00:03"], from ["00:00:02"]), into the file named by the
    destination's base, [_01] and the destination's extension; no list file
    is written and no concatenate call is made; the destination is removed
    and the intermediate is renamed to it.  When the trim succeeds, the
    destination then holds the trimmed clip and the intermediate is gone. *)
Theorem single_region_export
    (B : Backend) (s : State) (answer file ext : string) (image : option pixmap) :
  clipTimes s = [Clip (QTime.Make 2000) (Some (QTime.Make 5000)) image] →
  answer ≠ "" →
  Path.splitext answer = (file, ext) →
  let name := file +:+ "_01" +:+ ext in
  let s' := run (cutVideo B answer) s in
  result (cutVideo B answer) s = Ret true
  ∧ file +:+ ext = answer
  ∧ QTime.msecsTo (QTime.Make 2000) (QTime.Make 5000) = 3000
  ∧ log s' = log s ++ [Cut (media s) name "00:00:02" "00:00:03";
                        QFileRemove answer; QFileRename name answer;
                        Completion answer]
  ∧ (cut_succeeds B (media s) name "00:00:02" "00:00:03" = true →
     files s' !! answer = Some (Trimmed (media s) "00:00:02" "00:00:03")
     ∧ files s' !! name = None).
Proof.
  intros Hclips Hanswer Hsplit name s'.
  assert (Hname : name ≠ answer).
  { rewrite <- (splitext_app _ _ _ Hsplit). apply (intermediate_ne file ext 1). }
  assert (E : cutVideo B answer s = (Ret true, exported B answer s)).
  { apply cutVideo_closed; rewrite ?Hclips; [done| |done]. by repeat constructor. }
  unfold s', run, result. rewrite E. cbn [fst snd].
  unfold exported. rewrite Hsplit, Hclips.
  assert (Hrt : runtime (Clip (QTime.Make 2000) (Some (QTime.Make 5000)) image) = "00:00:03")
    by (vm_compute; reflexivity).
  cbn [intermediates trim_calls trimmed length Nat.ltb Nat.leb List.last].
  unfold trim_call. rewrite Hrt.
  change (intermediate file ext 1) with name.
  change (QTime.toString (clip_start (Clip (QTime.Make 2000) (Some (QTime.Make 5000)) image)))
    with "00:00:02".
  unfold promoted. cbn [files log set_files set_log set_finalFilename].
  assert (Hname' : answer ≠ name) by done.
  repeat split; [by apply splitext_app|..].
  - rewrite H, lookup_delete_ne, lookup_insert_eq by done.
    apply lookup_insert_eq.
  - rewrite H, lookup_delete_ne, lookup_insert_eq by done.
    rewrite lookup_insert_ne by done. apply lookup_delete_eq.
Qed.

Lemma single_region_export_witness :
  log (run (cutVideo reliable "/v/out.mp4") one_closed)
  = log one_closed ++ [Cut "/v/in.mp4" "/v/out_01.mp4" "00:00:02" "00:00:03";
                        QFileRemove "/v/out.mp4";
                        QFileRename "/v/out_01.mp4" "/v/out.mp4";
                        Completion "/v/out.mp4"]
  ∧ files (run (cutVideo reliable "/v/out.mp4") one_closed) !! "/v/out.mp4"
    = Some (Trimmed "/v/in.mp4" "00:00:02" "00:00:03").
Proof.
  destruct (single_region_export reliable one_closed "/v/out.mp4" "/v/out" ".mp4" (Some 0%nat))
    as (_ & _ & _ & Hlog & Hfiles).
  - vm_compute. reflexivity.
  - discriminate.
  - vm_compute. reflexivity.
  - split; [exact Hlog|]. apply Hfiles. reflexivity.
Defined.

(** ** C6: two or more regions *)

Lemma exported_many B answer s file ext c1 c2 rest :
  Path.splitext answer = (file, ext) →
  clipTimes s = c1 :: c2 :: rest →
  let names := intermediates file ext 1 (clipTimes s) in
  let fs := trimmed B (media s) file ext 1 (clipTimes s) (files s) in
  exported B answer s =
  set_files (joined B names answer fs).1
    (set_log (log s ++ trim_calls (media s) file ext 1 (clipTimes s)
                ++ (joined B names answer fs).2 ++ [Completion answer])
       (set_finalFilename answer s)).
Proof.
  intros Hsplit Hclips names fs. unfold exported. rewrite Hsplit.
  fold names fs. rewrite (intermediates_length file ext (clipTimes s) 1 : length names = _).
  rewrite Hclips. cbn [length Nat.ltb Nat.leb]. by destruct (joined _ _ _ _).
Qed.

(** With two or more regions, all closed, and a destination chosen:
    [cutVideo] returns [True]; it makes one trim call per region, the i-th
    call for the i-th region and into the i-th intermediate file; then it
    writes the list file, whose i-th line is [file '<name>'] and a line
    feed for the name of the i-th intermediate (a backslash put before each
    quote of the name), and makes one concatenate call on it; after that
    call it removes the list file and every intermediate that exists, so
    that no intermediate and no list file is left.  When the concatenation
    succeeds and the destination is not the list file itself, the
    destination holds the concatenation of the listed files. *)
Theorem multi_region_export (B : Backend) (s : State) (answer file ext : string) :
  (2 ≤ length (clipTimes s))%nat →
  Forall (λ c, is_open c = false) (clipTimes s) →
  answer ≠ "" →
  Path.splitext answer = (file, ext) →
  let names := intermediates file ext 1 (clipTimes s) in
  let calls := trim_calls (media s) file ext 1 (clipTimes s) in
  let lf := listfile_of (default "" (head names)) in
  let lines := (λ name, "file '" +:+ Py.str_replace_quote name +:+ "'" +:+ String "010" "")
                 <$> names in
  let s' := run (cutVideo B answer) s in
  result (cutVideo B answer) s = Ret true
  ∧ (∀ i c, clipTimes s !! i = Some c →
       calls !! i = Some (Cut (media s) (intermediate file ext (S i))
                            (QTime.toString (clip_start c)) (runtime c))
       ∧ names !! i = Some (intermediate file ext (S i)))
  ∧ length calls = length (clipTimes s)
  ∧ (∃ removes,
       log s' = log s ++ calls
                  ++ [WriteFile lf lines; Join lf answer; OsRemove lf]
                  ++ removes ++ [Completion answer]
       ∧ Forall (λ e, ∃ f, e = OsRemove f ∧ f ∈ names) removes)
  ∧ (∀ f, f ∈ names → files s' !! f = None)
  ∧ files s' !! lf = None
  ∧ (join_succeeds B lf answer = true → answer ≠ lf →
     files s' !! answer = Some (Joined lines)).
Proof.
  intros Hlen Hclosed Hanswer Hsplit names calls lf lines s'.
  change lines with (list_line <$> names). clear lines.
  destruct (clipTimes s) as [|c1 [|c2 rest]] eqn:Hclips; simpl in Hlen; try lia.
  assert (E : cutVideo B answer s = (Ret true, exported B answer s)).
  { apply cutVideo_closed; rewrite ?Hclips; done. }
  unfold s', run, result. rewrite E. cbn [fst snd].
  rewrite (exported_many B answer s file ext c1 c2 rest Hsplit Hclips).
  rewrite Hclips. fold names calls.
  set (fs := trimmed B (media s) file ext 1 (c1 :: c2 :: rest) (files s)).
  unfold joined. fold lf. cbn [fst snd files log set_files set_log set_finalFilename].
  set (fs2 := if join_succeeds B lf answer then _ else _).
  split; [done|]. split.
  { intros i c Hi. apply (trim_calls_lookup (media s) file ext _ 1 i c Hi). }
  split; [apply trim_calls_length|]. split.
  { exists (removals names (delete lf fs2)). split; [|apply removals_names].
    by rewrite <- !app_assoc. }
  split.
  { intros f Hf. rewrite survivors_lookup. by rewrite bool_decide_true. }
  split.
  { rewrite survivors_lookup. case_bool_decide; [done|apply lookup_delete_eq]. }
  intros Hjoin Hlf. rewrite survivors_lookup. rewrite bool_decide_false.
  - rewrite lookup_delete_ne by done. unfold fs2. rewrite Hjoin. apply lookup_insert_eq.
  - intros Hin. apply intermediates_elem in Hin as [i Hi].
    apply (intermediate_ne file ext i). rewrite <- Hi. symmetry. by apply splitext_app.
Qed.

Lemma multi_region_export_witness :
  log (run (cutVideo reliable "/v/out.mp4") two_closed)
  = log two_closed
    ++ [Cut "/v/in.mp4" "/v/out_01.mp4" "00:00:00" "00:00:01";
        Cut "/v/in.mp4" "/v/out_02.mp4" "00:00:02" "00:00:00";
        WriteFile "/v/.vidcutter.list"
          ["file '/v/out_01.mp4'" +:+ String "010" "";
           "file '/v/out_02.mp4'" +:+ String "010" ""];
        Join "/v/.vidcutter.list" "/v/out.mp4";
        OsRemove "/v/.vidcutter.list";
        OsRemove "/v/out_01.mp4"; OsRemove "/v/out_02.mp4";
        Completion "/v/out.mp4"]
  ∧ files (run (cutVideo reliable "/v/out.mp4") two_closed) !! "/v/out.mp4"
    = Some (Joined ["file '/v/out_01.mp4'" +:+ String "010" "";
                    "file '/v/out_02.mp4'" +:+ String "010" ""]).
Proof.
  destruct (multi_region_export reliable two_closed "/v/out.mp4" "/v/out" ".mp4")
    as (_ & _ & _ & _ & _ & _ & Hdest).
  - vm_compute. lia.
  - vm_compute. by repeat constructor.
  - discriminate.
  - vm_compute. reflexivity.
  - split; [vm_compute; reflexivity|].
    rewrite Hdest; [vm_compute; reflexivity|reflexivity|vm_compute; discriminate].
Defined.


(** ** C1: a trim that fails *)

(** C1, counterexample. Regions [0, 1000] and [2000, 2500], destination
    [/v/out.mp4], and a backend whose trim into [/v/out_02.mp4] fails: the
    concatenate call is made all the same, the first intermediate is removed
    only by the cleanup that follows it, [cutVideo] shows the completion
    dialog and returns [True], and the destination holds what the backend
    concatenated.  When it is the first trim that fails, the second trim is
    still issued. *)
Lemma failed_trim_is_not_noticed :
  let B := failing_cut "/v/out_02.mp4" in
  let s' := run (cutVideo B "/v/out.mp4") two_closed in
  cut_succeeds B "/v/in.mp4" "/v/out_02.mp4" "00:00:02" "00:00:00" = false
  ∧ result (cutVideo B "/v/out.mp4") two_closed = Ret true
  ∧ log s'
    = log two_closed
      ++ [Cut "/v/in.mp4" "/v/out_01.mp4" "00:00:00" "00:00:01";
          Cut "/v/in.mp4" "/v/out_02.mp4" "00:00:02" "00:00:00";
          WriteFile "/v/.vidcutter.list" (list_line <$> ["/v/out_01.mp4"; "/v/out_02.mp4"]);
          Join "/v/.vidcutter.list" "/v/out.mp4";
          OsRemove "/v/.vidcutter.list";
          OsRemove "/v/out_01.mp4";
          Completion "/v/out.mp4"]
  ∧ files s' !! "/v/out.mp4"
    = Some (Joined (list_line <$> ["/v/out_01.mp4"; "/v/out_02.mp4"]))
  ∧ log (run (cutVideo (failing_cut "/v/out_01.mp4") "/v/out.mp4") two_closed)
    = log two_closed
      ++ [Cut "/v/in.mp4" "/v/out_01.mp4" "00:00:00" "00:00:01";
          Cut "/v/in.mp4" "/v/out_02.mp4" "00:00:02" "00:00:00";
          WriteFile "/v/.vidcutter.list" (list_line <$> ["/v/out_01.mp4"; "/v/out_02.mp4"]);
          Join "/v/.vidcutter.list" "/v/out.mp4";
          OsRemove "/v/.vidcutter.list";
          OsRemove "/v/out_02.mp4";
          Completion "/v/out.mp4"].
Proof. vm_compute. repeat split; reflexivity. Qed.

(** C1, amended. [cutVideo] does not look at what a trim returns.  For every
    backend, so whichever trims fail, on a non-empty list of closed regions
    with a destination chosen: it returns [True]; the calls it makes start
    with one trim per region, in order, the same calls whatever their
    outcome; they end with the completion dialog; with two or more regions
    the list file is written and the concatenate call is made in between,
    with one region the destination is removed and the intermediate renamed
    to it. *)
Theorem trims_are_never_checked (B : Backend) (s : State) (answer file ext : string) :
  clipTimes s ≠ [] →
  Forall (λ c, is_open c = false) (clipTimes s) →
  answer ≠ "" →
  Path.splitext answer = (file, ext) →
  let names := intermediates file ext 1 (clipTimes s) in
  let lf := listfile_of (default "" (head names)) in
  let s' := run (cutVideo B answer) s in
  result (cutVideo B answer) s = Ret true
  ∧ length (trim_calls (media s) file ext 1 (clipTimes s)) = length (clipTimes s)
  ∧ ∃ rest,
      log s' = log s ++ trim_calls (media s) file ext 1 (clipTimes s)
                 ++ rest ++ [Completion answer]
      ∧ ((2 ≤ length (clipTimes s))%nat →
         ∃ removes, rest = [WriteFile lf (list_line <$> names); Join lf answer;
                            OsRemove lf] ++ removes)
      ∧ (length (clipTimes s) = 1%nat →
         rest = [QFileRemove answer; QFileRename (intermediate file ext 1) answer]).
Proof.
  intros Hne Hclosed Hanswer Hsplit names lf s'.
  assert (E : cutVideo B answer s = (Ret true, exported B answer s))
    by by apply cutVideo_closed.
  unfold s', run, result. rewrite E. cbn [fst snd].
  split; [done|]. split; [apply trim_calls_length|].
  destruct (clipTimes s) as [|c1 [|c2 more]] eqn:Hclips; [done|..].
  - unfold exported. rewrite Hsplit, Hclips.
    cbn [intermediates length Nat.ltb Nat.leb List.last promoted].
    cbn [files log set_files set_log set_finalFilename].
    eexists. split; [reflexivity|]. split; [simpl; lia|done].
  - rewrite (exported_many B answer s file ext c1 c2 more Hsplit Hclips).
    rewrite Hclips. fold names. unfold joined. fold lf.
    cbn [fst snd files log set_files set_log set_finalFilename].
    eexists. split; [reflexivity|]. split; [eauto|]. simpl. lia.
Qed.

Lemma trims_are_never_checked_witness :
  result (cutVideo (failing_cut "/v/out_02.mp4") "/v/out.mp4") two_closed = Ret true.
Proof.
  refine (proj1 (trims_are_never_checked (failing_cut "/v/out_02.mp4") two_closed
                   "/v/out.mp4" "/v/out" ".mp4" _ _ _ _)).
  - vm_compute. discriminate.
  - vm_compute. by repeat constructor.
  - discriminate.
  - vm_compute. reflexivity.
Defined.

(** ** Floats: lower bounds and exact remainders *)

Lemma round_aux_fine m e l K lnum lden :
  0 ≤ m → Zdigits2 m + e ≤ K → e ≤ K - 53 → -1021 ≤ K ≤ 52 → 0 ≤ lden →
  lnum * 2 ^ (- e) ≤ (m + 1) * lden →
  fine (binary_round_aux Binary64.prec Binary64.emax false m e l) lnum lden (K - 52).
Proof.
  intros Hm Hd He HK Hden Hlo. unfold binary_round_aux.
  destruct (shr_fexp Binary64.prec Binary64.emax m e l) as [mrs' e'] eqn:E1.
  destruct (shr_fexp_value m e l mrs' e' Hm E1) as [He' Hm'].
  set (N1 := Z.max 0 (fexp Binary64.prec Binary64.emax (Zdigits2 m + e) - e)) in *.
  assert (HN1 : 0 ≤ N1) by (unfold N1; lia).
  assert (HN1b : e + N1 ≤ K - 53) by (unfold N1; rewrite fexp_eq; lia).
  assert (HN1c : -1074 ≤ e + N1) by (unfold N1; rewrite fexp_eq; lia).
  assert (H2N1 : 0 < 2 ^ N1) by (apply Z.pow_pos_nonneg; lia).
  assert (Hm'0 : 0 ≤ shr_m mrs') by (rewrite Hm'; apply Z.div_pos; lia).
  set (m1 := round_nearest_even (shr_m mrs') (loc_of_shr_record mrs')).
  pose proof (round_nearest_even_bound (shr_m mrs') (loc_of_shr_record mrs')) as Hr.
  fold m1 in Hr.
  assert (Hd' : Zdigits2 (shr_m mrs') + e' ≤ K).
  { rewrite Hm', He'. pose proof (Zdigits2_shiftr m N1 Hm HN1).
    unfold N1 in *. rewrite fexp_eq in *. lia. }
  assert (Hd1 : Zdigits2 m1 + e' ≤ K + 1).
  { pose proof (Zdigits2_mono m1 (shr_m mrs' + 1)).
    pose proof (Zdigits2_succ (shr_m mrs')). lia. }
  destruct (shr_fexp Binary64.prec Binary64.emax m1 e' loc_Exact) as [mrs'' e''] eqn:E2.
  destruct (shr_fexp_value m1 e' loc_Exact mrs'' e'' ltac:(lia) E2) as [He'' Hm''].
  set (N2 := Z.max 0 (fexp Binary64.prec Binary64.emax (Zdigits2 m1 + e') - e')) in *.
  assert (HN2 : 0 ≤ N2) by (unfold N2; lia).
  assert (HN2b : e' + N2 ≤ K - 52) by (unfold N2; rewrite fexp_eq; lia).
  assert (H2N2 : 0 < 2 ^ N2) by (apply Z.pow_pos_nonneg; lia).
  assert (Hm''0 : 0 ≤ shr_m mrs'') by (rewrite Hm''; apply Z.div_pos; lia).
  assert (Hcanon : Zdigits2 (shr_m mrs'') ≤ 53).
  { rewrite Hm''. pose proof (Zdigits2_shiftr m1 N2 ltac:(lia) HN2) as Hs.
    pose proof (Zdigits2_nonneg (m1 / 2 ^ N2)).
    pose proof (Zdigits2_mono (m1 / 2 ^ N2) m1) as Hmono.
    assert (0 ≤ m1 / 2 ^ N2 ≤ m1) as Hq.
    { split; [apply Z.div_pos; lia|]. apply Z.div_le_upper_bound; [lia|]. nia. }
    specialize (Hmono Hq).
    unfold N2 in *. rewrite fexp_eq in *. lia. }
  exists (shr_m mrs''), e''.
  split.
  { destruct (shr_m mrs'') as [|q|q]; [done| |lia].
    simpl. unfold Binary64.emax, Binary64.prec.
    destruct (Z.leb_spec e'' (1024 - 53)); [done|lia]. }
  split; [done|]. split; [lia|]. split; [done|]. split; [lia|].
  (* the lower bound *)
  assert (HE : e'' - e = N1 + N2) by lia.
  assert (Hpow : 2 ^ (- e) = 2 ^ (- e'') * 2 ^ (N1 + N2)).
  { rewrite <- Z.pow_add_r by lia. f_equal. lia. }
  assert (HNN : 0 < 2 ^ (N1 + N2)) by (apply pow2_pos; lia).
  assert (HE0 : 0 < 2 ^ (- e'')) by (apply pow2_pos; lia).
  assert (Hle : m + 1 ≤ (shr_m mrs'' + 1) * 2 ^ (N1 + N2)).
  { rewrite Z.pow_add_r by lia.
    pose proof (Z.div_mod m (2 ^ N1) ltac:(lia)) as D1.
    pose proof (Z.mod_pos_bound m (2 ^ N1) ltac:(lia)) as B1.
    pose proof (Z.div_mod m1 (2 ^ N2) ltac:(lia)) as D2.
    pose proof (Z.mod_pos_bound m1 (2 ^ N2) ltac:(lia)) as B2.
    rewrite <- Hm' in D1. rewrite <- Hm'' in D2.
    assert (shr_m mrs' + 1 ≤ (shr_m mrs'' + 1) * 2 ^ N2) by nia.
    nia. }
  rewrite Hpow in Hlo.
  apply (Z.mul_le_mono_pos_r _ _ (2 ^ (N1 + N2))); [done|].
  nia.
Qed.

(** Division of an exactly known float by a positive constant. *)
Lemma div_fine M E Mc Ec C lnum lden K :
  0 < M → E ≤ 0 → Zdigits2 M + E ≤ K →
  Z.pos Mc = C * 2 ^ (- Ec) → Ec ≤ 0 → 0 < C → 0 ≤ lden →
  lnum * 2 ^ (- E) ≤ M * lden →
  let mc := Zdigits2 (Z.pos Mc) + Ec in
  let K' := K - mc + 1 in
  -1021 ≤ K' ≤ 52 →
  fine (Binary64.div (mkf M E) (S754_finite false Mc Ec)) lnum (lden * C) (K' - 52).
Proof.
  intros HM HE Hd HMc HEc HC Hden Hlo mc K' HK.
  assert (HE0 : 0 < 2 ^ (- E)) by (apply pow2_pos; lia).
  assert (HEc0 : 0 < 2 ^ (- Ec)) by (apply pow2_pos; lia).
  destruct M as [|M|M]; [lia| |lia].
  rewrite mkf_pos. unfold Binary64.div, SFdiv. cbn [xorb].
  destruct (SFdiv_core_binary _ _ _ _ _ _) as [[q e'] l] eqn:Ecore.
  revert Ecore. unfold SFdiv_core_binary.
  set (d1 := Zdigits2 (Z.pos M)). set (dc := Zdigits2 (Z.pos Mc)).
  set (e0 := Z.min (fexp Binary64.prec Binary64.emax (d1 + E - (dc + Ec))) (E - Ec)).
  set (s := E - Ec - e0).
  assert (Hs : 0 ≤ s) by (unfold s, e0; lia).
  set (m' := match s with Z.pos _ => Z.shiftl (Z.pos M) s | 0 => Z.pos M | Z.neg _ => 0 end).
  assert (Hm' : m' = Z.pos M * 2 ^ s).
  { unfold m'. destruct s as [|p|p] eqn:Es; [simpl; lia| |lia].
    by rewrite Z.shiftl_mul_pow2. }
  pose proof (Z_div_mod m' (Z.pos Mc) ltac:(lia)) as Hdm.
  destruct (Z.div_eucl m' (Z.pos Mc)) as [q0 r0]. intros [= <- <- <-].
  destruct Hdm as [Hdm Hr0].
  assert (Hs0 : 0 < 2 ^ s) by (by apply pow2_pos).
  assert (Hq0 : 0 ≤ q0) by nia.
  assert (He0 : e0 ≤ K' - 53).
  { unfold e0. rewrite fexp_eq. unfold K', mc. fold dc. fold d1 in Hd. lia. }
  assert (Hmag : Zdigits2 q0 + e0 ≤ K').
  { pose proof (Zdigits2_bound (Z.pos M) ltac:(lia)) as Hb1. fold d1 in Hb1.
    pose proof (Zdigits2_lower (Z.pos Mc) ltac:(lia)) as Hb2. fold dc in Hb2.
    assert (Hdc : 1 ≤ dc) by (unfold dc; simpl; lia).
    assert (Hd1 : 1 ≤ d1) by (unfold d1; simpl; lia).
    set (D := Z.max 0 (d1 + s - dc + 1)).
    enough (Zdigits2 q0 ≤ D) by (unfold D, s, K', mc in *; fold dc; fold d1 in Hd; lia).
    apply Zdigits2_le; [done|unfold D; lia|].
    assert (0 < 2 ^ (dc - 1)) by (apply pow2_pos; lia).
    assert (q0 * 2 ^ (dc - 1) < 2 ^ (d1 + s)).
    { rewrite Z.pow_add_r by lia. nia. }
    destruct (Z.le_gt_cases 0 (d1 + s - dc + 1)).
    - unfold D. rewrite Z.max_r by lia.
      assert (2 ^ (d1 + s) = 2 ^ (d1 + s - dc + 1) * 2 ^ (dc - 1)) as Hsplit.
      { rewrite <- Z.pow_add_r by lia. f_equal. lia. }
      rewrite Hsplit in *. nia.
    - unfold D. rewrite Z.max_l by lia. simpl.
      assert (2 ^ (d1 + s) ≤ 2 ^ (dc - 1)) by (apply Z.pow_le_mono_r; lia).
      nia. }
  assert (He'0 : 0 < 2 ^ (- e0)) by (apply pow2_pos; lia).
  assert (Hexp : 2 ^ (- e0) * 2 ^ (- Ec) = 2 ^ (- E) * 2 ^ s).
  { rewrite <- !Z.pow_add_r by lia. f_equal. unfold s. lia. }
  apply round_aux_fine; try done.
  - nia.
  - apply (Z.mul_le_mono_pos_r _ _ (2 ^ (- Ec))); [done|].
    replace (lnum * 2 ^ (- e0) * 2 ^ (- Ec)) with (lnum * (2 ^ (- e0) * 2 ^ (- Ec))) by ring.
    rewrite Hexp.
    assert (lnum * 2 ^ (- E) * 2 ^ s ≤ Z.pos M * lden * 2 ^ s) by nia.
    assert (Z.pos M * 2 ^ s ≤ (q0 + 1) * Z.pos Mc) by nia.
    replace ((q0 + 1) * (lden * C) * 2 ^ (- Ec)) with ((q0 + 1) * (C * 2 ^ (- Ec)) * lden) by ring.
    rewrite <- HMc. nia.
Qed.

(** Multiplication by a positive constant. *)
Lemma mul_fine x lnum lden Eb Mc Ec C :
  fine x lnum lden Eb →
  Z.pos Mc = C * 2 ^ (- Ec) → Ec ≤ 0 → 0 < C → Eb ≤ 0 → 0 ≤ lden →
  let mc := Zdigits2 (Z.pos Mc) + Ec in
  let K' := 53 + Eb + mc in
  -1021 ≤ K' ≤ 52 →
  fine (Binary64.mul x (S754_finite false Mc Ec))
    ((lnum * 2 ^ (- Eb) - lden) * C) (lden * 2 ^ (- Eb)) (K' - 52).
Proof.
  intros (M & E & -> & HM & HE & Hd & HEl & Hlo) HMc HEc HC HEb Hden mc K' HK.
  assert (HE0 : 0 < 2 ^ (- E)) by (apply pow2_pos; lia).
  assert (HEb0 : 0 < 2 ^ (- Eb)) by (apply pow2_pos; lia).
  assert (HEc0 : 0 < 2 ^ (- Ec)) by (apply pow2_pos; lia).
  assert (HEE : 2 ^ (- Eb) ≤ 2 ^ (- E)) by (apply Z.pow_le_mono_r; lia).
  assert (Hmc1 : 1 ≤ Zdigits2 (Z.pos Mc)) by (simpl; lia).
  destruct M as [|M|M]; [|clear HM|lia].
  { exists 0, (K' - 52). split; [done|]. split; [lia|]. split; [lia|].
    split; [simpl; lia|]. split; [unfold K', mc; lia|].
    assert (0 ≤ 2 ^ (- (K' - 52))) by (apply Z.pow_nonneg; lia).
    assert ((lnum * 2 ^ (- Eb) - lden) ≤ 0).
    { destruct (Z.le_gt_cases lnum 0); nia. }
    assert ((lnum * 2 ^ (- Eb) - lden) * C ≤ 0) by nia.
    assert ((lnum * 2 ^ (- Eb) - lden) * C * 2 ^ (- (K' - 52)) ≤ 0) by nia.
    assert (0 ≤ lden * 2 ^ (- Eb)) by nia.
    lia. }
  rewrite mkf_pos. unfold Binary64.mul, SFmul. cbn [xorb].
  assert (Hexp : 2 ^ (- (E + Ec)) = 2 ^ (- E) * 2 ^ (- Ec)).
  { rewrite <- Z.pow_add_r by lia. f_equal. lia. }
  pose proof (Zdigits2_mul (Z.pos M) (Z.pos Mc) ltac:(lia) ltac:(lia)) as Hmul.
  apply round_aux_fine; try done.
  - rewrite Pos2Z.inj_mul. unfold K', mc. lia.
  - unfold K', mc. lia.
  - nia.
  - rewrite Hexp, Pos2Z.inj_mul.
    (* lnum * 2^-E ≤ (M + 1) * lden *)
    assert (H1 : (lnum * 2 ^ (- E) - lden) * Z.pos Mc ≤ Z.pos M * lden * Z.pos Mc) by nia.
    assert (H2 : (lnum * 2 ^ (- Eb) - lden) * 2 ^ (- E) ≤ (lnum * 2 ^ (- E) - lden) * 2 ^ (- Eb)).
    { nia. }
    rewrite HMc in *.
    nia.
Qed.

(** A mantissa that needs no shift is kept as it is. *)
Lemma round_aux_exact m e :
  0 < m → fexp Binary64.prec Binary64.emax (Zdigits2 m + e) ≤ e → e ≤ 971 →
  binary_round_aux Binary64.prec Binary64.emax false m e loc_Exact = mkf m e.
Proof.
  intros Hm Hf He. unfold binary_round_aux, shr_fexp.
  assert (Hshr : ∀ mrs, shr mrs e (fexp Binary64.prec Binary64.emax (Zdigits2 m + e) - e)
                        = (mrs, e)).
  { intros mrs. unfold shr.
    destruct (fexp Binary64.prec Binary64.emax (Zdigits2 m + e) - e) eqn:En; try done. lia. }
  rewrite Hshr. cbn [shr_record_of_loc shr_m loc_of_shr_record round_nearest_even].
  rewrite Hshr. cbn [shr_record_of_loc shr_m].
  destruct m as [|p|p]; [lia| |lia]. cbn [mkf].
  unfold Binary64.emax, Binary64.prec. destruct (Z.leb_spec e (1024 - 53)); [done|lia].
Qed.

(** An integer multiple of [2^e] that fits 53 bits is represented exactly. *)
Lemma normalize_exact r e :
  0 < r → Zdigits2 r ≤ 53 → -1074 ≤ e ≤ 0 →
  ∃ M E, binary_normalize Binary64.prec Binary64.emax r e false = mkf M E
         ∧ 0 < M ∧ -1074 ≤ E ≤ e ∧ M = r * 2 ^ (e - E).
Proof.
  intros Hr Hd He. destruct r as [|p|p]; [lia| |lia].
  cbn [binary_normalize]. unfold binary_round.
  destruct (shl_align p e _) as [mz ez] eqn:Es.
  pose proof (shl_align_bound _ _ _ _ _ Es) as [Hb1 Hb2].
  apply shl_align_value in Es as [Hez Hmz].
  rewrite fexp_eq in Hez. change (Z.pos (digits2_pos p)) with (Zdigits2 (Z.pos p)) in *.
  assert (0 < 2 ^ (e - ez)) by (apply pow2_pos; lia).
  exists (Z.pos mz), ez. split.
  - apply round_aux_exact; [lia| |lia].
    rewrite fexp_eq.
    pose proof (Zdigits2_shiftl (Z.pos p) (e - ez) ltac:(lia) ltac:(lia)) as Hsh.
    rewrite <- Hmz in Hsh. lia.
  - split; [lia|]. split; [lia|]. done.
Qed.

(** [int(x % C)] for a canonical float [x >= 0] whose integer part is [a]
    and a positive integer constant [C = Mc * 2^Ec]. *)
Lemma rem_floor M E Mc Ec C a :
  0 < M → Zdigits2 M ≤ 53 → -1074 ≤ E ≤ 0 →
  Z.pos Mc = C * 2 ^ (- Ec) → -1074 ≤ Ec ≤ 0 → 0 < C → Zdigits2 (Z.pos Mc) ≤ 53 →
  0 ≤ a → a * 2 ^ (- E) ≤ M → M < (a + 1) * 2 ^ (- E) →
  ∃ r, Py.float_rem (mkf M E) (S754_finite false Mc Ec) = Ret r
       ∧ Py.int_of_float r = Ret (a mod C).
Proof.
  intros HM Hd HE HMc HEc HC Hdc Ha Hlo Hhi.
  assert (HE0 : 0 < 2 ^ (- E)) by (apply pow2_pos; lia).
  assert (HEc0 : 0 < 2 ^ (- Ec)) by (apply pow2_pos; lia).
  pose proof (Z.div_mod a C ltac:(lia)) as Hdm.
  pose proof (Z.mod_pos_bound a C HC) as Hmod.
  assert (Hg : 0 ≤ a / C) by (apply Z.div_pos; lia).
  destruct M as [|M|M]; [lia| |lia].
  rewrite mkf_pos. unfold Py.float_rem, Binary64.fmod. cbn [cond_Zopp].
  set (e := Z.min E Ec).
  set (u := 2 ^ (- e)).
  assert (Hu : 0 < u) by (apply pow2_pos; unfold e; lia).
  set (X := Z.shiftl (Z.pos M) (E - e)). set (Y := Z.shiftl (Z.pos Mc) (Ec - e)).
  assert (HX : X = Z.pos M * 2 ^ (E - e)) by (unfold X; rewrite Z.shiftl_mul_pow2; unfold e; lia).
  assert (HY : Y = C * u).
  { unfold Y, u. rewrite Z.shiftl_mul_pow2, HMc by (unfold e; lia).
    rewrite <- Z.mul_assoc, <- Z.pow_add_r by (unfold e; lia). do 2 f_equal. lia. }
  assert (HYc : Y = Z.pos Mc * 2 ^ (Ec - e)).
  { unfold Y. rewrite Z.shiftl_mul_pow2 by (unfold e; lia). done. }
  assert (HEe : 0 < 2 ^ (E - e)) by (apply pow2_pos; unfold e; lia).
  assert (HEce : 0 < 2 ^ (Ec - e)) by (apply pow2_pos; unfold e; lia).
  assert (Hue : u = 2 ^ (- E) * 2 ^ (E - e)).
  { unfold u. rewrite <- Z.pow_add_r by (unfold e; lia). f_equal. lia. }
  assert (HXlo : a * u ≤ X) by (rewrite HX, Hue; nia).
  assert (HXhi : X < (a + 1) * u) by (rewrite HX, Hue; nia).
  assert (Hrem : Z.rem X Y = X - a / C * Y).
  { rewrite Z.rem_mod_nonneg by nia. symmetry.
    apply (Z.mod_unique_pos X Y (a / C)); nia. }
  rewrite Hrem. set (r := X - a / C * Y) in *.
  assert (Hr0 : 0 ≤ r) by (unfold r; nia).
  assert (HrY : r < Y) by (unfold r; nia).
  assert (HrX : r ≤ X) by (unfold r; nia).
  assert (HrT : (a mod C) * u ≤ r < (a mod C + 1) * u) by (unfold r; nia).
  destruct (Z.eq_dec r 0) as [Hz|Hnz].
  - rewrite Hz. cbn [binary_normalize Binary64.sign_bit]. eexists. split; [done|].
    simpl. f_equal. nia.
  - assert (Hdr : Zdigits2 r ≤ 53).
    { destruct (Z.le_gt_cases E Ec).
      + assert (e = E) as He by (unfold e; lia).
        rewrite He, Z.sub_diag, Z.mul_1_r in HX.
        pose proof (Zdigits2_mono r X ltac:(lia)). rewrite HX in *. lia.
      + assert (e = Ec) as He by (unfold e; lia).
        rewrite He, Z.sub_diag, Z.mul_1_r in HYc.
        pose proof (Zdigits2_mono r Y ltac:(lia)). rewrite HYc in *. lia. }
    destruct (normalize_exact r e ltac:(lia) Hdr ltac:(unfold e; lia))
      as (M' & E' & -> & HM' & HE' & HMr).
    destruct M' as [|M'|M']; [lia| |lia]. cbn [mkf Binary64.is_neg xorb].
    eexists. split; [done|].
    cbn [Py.int_of_float Binary64.trunc cond_Zopp of_option]. f_equal.
    assert (0 < 2 ^ (e - E')) by (apply pow2_pos; lia).
    assert (Hsplit : 2 ^ (- E') = u * 2 ^ (e - E')).
    { unfold u. rewrite <- Z.pow_add_r by lia. f_equal. lia. }
    destruct (Z.leb_spec 0 E').
    + assert (E' = 0) as -> by lia. assert (e = 0) as He0 by lia.
      rewrite Z.shiftl_0_r. unfold u in *. rewrite He0 in *. simpl in *. nia.
    + rewrite Z.shiftr_div_pow2 by lia. symmetry.
      set (w := 2 ^ (e - E')) in *. set (T := a mod C) in *.
      rewrite Hsplit, HMr.
      apply (Z.div_unique_pos _ _ _ ((r - T * u) * w)); [|ring].
      clear - HrT Hu H. split; [nia|].
      apply Z.mul_lt_mono_pos_r; lia.
Qed.

Lemma mkf_inj M E M' E' : 0 < M → mkf M E = mkf M' E' → M' = M ∧ E' = E.
Proof.
  intros HM. destruct M as [|p|p]; [lia| |lia].
  destruct M' as [|q|q]; simpl; [done| |done]. by intros [= -> ->].
Qed.

(** The quotient [m / 1000]: its integer part is that of the exact
    quotient, and it is the exact quotient up to one unit in the last
    place. *)
Lemma secs_value m :
  0 < m < 2 ^ 31 →
  ∃ secs, Py.int_truediv m 1000 = Ret secs
          ∧ approx secs (m / 1000) (m * 2 ^ 30 + 1000) (1000 * 2 ^ 30) (-30) 23
          ∧ fine secs m 1000 (-30).
Proof.
  intros Hm. unfold Py.int_truediv. simpl (1000 =? 0). cbv iota.
  assert (Hd : Zdigits2 m ≤ 31) by (apply Zdigits2_le; lia).
  assert (Hx : approx (Py.int_as_float m) m m 1 0 31).
  { apply int_as_float_approx; [lia|done]. }
  pose proof (Z.mul_div_le m 1000 ltac:(lia)) as Hk.
  pose proof (div_approx _ _ _ _ _ _ 1000 0 1000 (m / 1000) Hx eq_refl ltac:(lia) ltac:(lia)
                ltac:(lia) ltac:(lia)) as Hq.
  cbv zeta in Hq. change (Zdigits2 1000) with 10 in Hq.
  specialize (Hq ltac:(lia) ltac:(lia)).
  pose proof (div_fine m 0 1000 0 1000 m 1 31 ltac:(lia) ltac:(lia) ltac:(lia) eq_refl
                ltac:(lia) ltac:(lia) ltac:(lia) ltac:(simpl; lia)) as Hf.
  cbv zeta in Hf. change (Zdigits2 1000) with 10 in Hf.
  specialize (Hf ltac:(lia)).
  assert (Em : mkf m 0 = Py.int_as_float m) by (destruct m; [lia|done|lia]).
  rewrite Em in Hf.
  change (Py.int_as_float 1000) with (S754_finite false 1000 0).
  fold (Binary64.div (Py.int_as_float m) (S754_finite false 1000 0)).
  set (q := Binary64.div _ _) in *.
  exists q. split; [|split].
  - destruct Hq as (M & E & -> & HM & _). destruct M as [|p|p]; [done|done|lia].
  - eapply approx_weaken; [exact Hq|lia..].
  - replace (1 * 1000) with 1000 in Hf by lia. exact Hf.
Qed.

(** The millisecond field: [int((secs * 1000) % 1000)] is the millisecond
    of [m], or one less. *)
Lemma msec_value m secs :
  0 < m < 2 ^ 31 →
  approx secs (m / 1000) (m * 2 ^ 30 + 1000) (1000 * 2 ^ 30) (-30) 23 →
  fine secs m 1000 (-30) →
  ∃ r ms, Py.float_rem (Binary64.mul secs f1000) f1000 = Ret r
          ∧ Py.int_of_float r = Ret ms
          ∧ (ms = m mod 1000 ∨ (ms = m mod 1000 - 1 ∧ 0 < m mod 1000)).
Proof.
  intros Hm Ha Hf.
  pose proof (Z.div_mod m 1000 ltac:(lia)) as Hdm.
  pose proof (Z.mod_pos_bound m 1000 ltac:(lia)) as Hmod.
  pose proof (mul_approx _ _ _ _ _ _ 8796093022208000 (-43) 1000 Ha
                eq_refl ltac:(lia) ltac:(lia) ltac:(lia) ltac:(lia)) as H4.
  cbv zeta in H4. change (Zdigits2 8796093022208000) with 53 in H4.
  specialize (H4 ltac:(lia) ltac:(lia)).
  pose proof (mul_fine _ _ _ _ 8796093022208000 (-43) 1000 Hf
                eq_refl ltac:(lia) ltac:(lia) ltac:(lia) ltac:(lia)) as F4.
  cbv zeta in F4. change (Zdigits2 8796093022208000) with 53 in F4.
  specialize (F4 ltac:(lia)).
  fold f1000 in H4, F4.
  destruct F4 as (M & E & EM & HM & HE & Hd & HEl & Hlo).
  destruct H4 as (M' & E' & EM' & HM' & HE' & Hd' & Hlo' & Hhi').
  assert (HE0 : 2 ^ 19 ≤ 2 ^ (- E)) by (apply Z.pow_le_mono_r; lia).
  assert (HMpos : 0 < M).
  { change (2 ^ (- -30)) with 1073741824 in Hlo. change (2 ^ 19) with 524288 in HE0. nia. }
  rewrite EM in EM'. apply (mkf_inj _ _ _ _ HMpos) in EM' as [-> ->].
  rewrite EM. unfold f1000.
  change (2 ^ (- -30)) with 1073741824 in Hlo.
  change (2 ^ 30) with 1073741824 in Hhi'.
  change (2 ^ (52 - (23 + (53 + -43)))) with 524288 in Hhi'.
  change (2 ^ 19) with 524288 in HE0.
  set (P := 2 ^ (- E)) in *.
  assert (Hup : M < (m + 1) * P) by nia.
  destruct (Z.le_gt_cases (m * P) M) as [Hge|Hlt].
  - destruct (rem_floor M E 8796093022208000 (-43) 1000 m) as (r & Er & Ei);
      [lia|lia|lia|reflexivity|lia|lia|simpl; lia|lia|done|done|].
    exists r, (m mod 1000). split; [done|]. split; [done|]. by left.
  - assert (Hf0 : 0 < m mod 1000) by nia.
    destruct (rem_floor M E 8796093022208000 (-43) 1000 (m - 1)) as (r & Er & Ei);
      [lia|lia|lia|reflexivity|lia|lia|simpl; lia|lia|fold P; nia|fold P; lia|].
    exists r, ((m - 1) mod 1000). split; [done|]. split; [done|]. right.
    split; [|done].
    symmetry. apply (Z.mod_unique_pos _ _ (m / 1000)); lia.
Qed.

Lemma fromHMS_fields m ms :
  0 ≤ m < 86400000 → 0 ≤ ms < 1000 →
  QTime.fromHMS ((m / 3600000) mod 60) ((m / 60000) mod 60) ((m / 1000) mod 60) ms
  = QTime.Make (m / 1000 * 1000 + ms).
Proof.
  intros Hm Hms. unfold QTime.fromHMS.
  assert (0 ≤ m / 3600000 < 24) by (split; [apply Z.div_pos; lia|apply Z.div_lt_upper_bound; lia]).
  rewrite (Z.mod_small (m / 3600000) 60) by lia.
  pose proof (Z.mod_pos_bound (m / 60000) 60 ltac:(lia)).
  pose proof (Z.mod_pos_bound (m / 1000) 60 ltac:(lia)).
  cases_Z; try lia. f_equal. Z.div_mod_to_equations. lia.
Qed.

(** What [deltaToQTime] computes on a position below [2^31] milliseconds:
    exact hour (modulo 60), minute and second fields, and a millisecond
    field that is exact or one too small. *)
Lemma deltaToQTime_value m :
  0 ≤ m < 2 ^ 31 →
  ∃ ms, deltaToQTime m
        = Ret (QTime.fromHMS ((m / 3600000) mod 60) ((m / 60000) mod 60)
                             ((m / 1000) mod 60) ms)
        ∧ (ms = m mod 1000 ∨ (ms = m mod 1000 - 1 ∧ 0 < m mod 1000)).
Proof.
  intros Hm. destruct (Z.eq_dec m 0) as [->|Hnz].
  { exists 0. split; [vm_compute; reflexivity|by left]. }
  assert (Hm' : 0 < m < 2 ^ 31) by lia.
  unfold deltaToQTime.
  destruct (secs_value m Hm') as (secs & -> & Hsecs & Hfine). cbn [mbind outcome_bind].
  change (Binary64.of_Z 3600) with f3600.
  change (Binary64.of_Z 60) with f60.
  change (Binary64.of_Z 1000) with f1000.
  set (k := m / 1000) in *.
  pose proof (Z.div_mod m 1000 ltac:(lia)) as Hdm. fold k in Hdm.
  pose proof (Z.mod_pos_bound m 1000 ltac:(lia)) as Hmod.
  assert (Hk : 0 ≤ k) by (apply Z.div_pos; lia).
  assert (EH : m / 3600000 = k / 3600) by (unfold k; rewrite Z.div_div by lia; done).
  assert (EM : m / 60000 = k / 60) by (unfold k; rewrite Z.div_div by lia; done).
  rewrite EH, EM.
  pose proof (Z.div_mod k 3600 ltac:(lia)) as Hd1.
  pose proof (Z.mod_pos_bound k 3600 ltac:(lia)) as Hb1.
  pose proof (Z.div_mod k 60 ltac:(lia)) as Hd2.
  pose proof (Z.mod_pos_bound k 60 ltac:(lia)) as Hb2.
  (* the seconds, with a margin below the next whole second *)
  assert (H3 : approx secs k ((k + 1) * 2 ^ 10 - 1) (2 ^ 10) (-30) 23).
  { eapply approx_weaken; [exact Hsecs|lia..]. }
  (* hours *)
  assert (H1 : approx (Binary64.div secs f3600) (k / 3600)
                 ((k / 3600 + 1) * 2 ^ 22 - 1) (2 ^ 22) (-40) 13).
  { pose proof (div_approx _ _ _ _ _ _ 7916483719987200 (-41) 3600 (k / 3600) H3
                  eq_refl ltac:(lia) ltac:(lia) ltac:(lia) ltac:(lia)) as H.
    cbv zeta in H. change (Zdigits2 7916483719987200) with 53 in H.
    specialize (H ltac:(lia) ltac:(lia)).
    eapply approx_weaken; [exact H|lia..]. }
  (* minutes *)
  assert (H2 : approx (Binary64.div secs f60) (k / 60)
                 ((k / 60 + 1) * 2 ^ 17 - 1) (2 ^ 17) (-34) 19).
  { pose proof (div_approx _ _ _ _ _ _ 8444249301319680 (-47) 60 (k / 60) H3
                  eq_refl ltac:(lia) ltac:(lia) ltac:(lia) ltac:(lia)) as H.
    cbv zeta in H. change (Zdigits2 8444249301319680) with 53 in H.
    specialize (H ltac:(lia) ltac:(lia)).
    eapply approx_weaken; [exact H|lia..]. }
  destruct (msec_value m secs Hm' Hsecs Hfine) as (a4 & ms & E4 & Ei4 & Hms).
  unfold f60, f3600 in *.
  destruct (rem_trunc _ _ _ _ _ _ 8444249301319680 (-47) 60 H1) as (a1 & -> & E1);
    [reflexivity|lia|lia|lia|lia|apply Z.div_pos; lia|
     change (Zdigits2 8444249301319680) with 53; lia|
     change (Zdigits2 8444249301319680) with 53; lia|].
  destruct (rem_trunc _ _ _ _ _ _ 8444249301319680 (-47) 60 H2) as (a2 & -> & E2);
    [reflexivity|lia|lia|lia|lia|apply Z.div_pos; lia|
     change (Zdigits2 8444249301319680) with 53; lia|
     change (Zdigits2 8444249301319680) with 53; lia|].
  destruct (rem_trunc _ _ _ _ _ _ 8444249301319680 (-47) 60 H3) as (a3 & -> & E3);
    [reflexivity|lia|lia|lia|lia|lia|
     change (Zdigits2 8444249301319680) with 53; lia|
     change (Zdigits2 8444249301319680) with 53; lia|].
  rewrite E4.
  cbn [mbind outcome_bind]. rewrite E1, E2, E3, Ei4. cbn [mbind outcome_bind].
  exists ms. split; [done|exact Hms].
Qed.

Lemma toString_clock m : 0 ≤ m < 86400000 → QTime.toString (QTime.Make m) = clock m.
Proof.
  intros Hm. unfold QTime.toString, clock, QTime.hour, QTime.minute, QTime.second,
    QTime.isValid, QTime.MSECS_PER_DAY. cbn [QTime.mds].
  cases_Z; try lia.
  replace ((m mod 3600000) / 60000) with ((m / 60000) mod 60)
    by (Z.div_mod_to_equations; lia).
  done.
Qed.

Lemma clock_floor m m' : m / 1000 = m' / 1000 → clock m = clock m'.
Proof.
  intros E. unfold clock.
  replace (m / 3600000) with (m / 1000 / 3600) by (rewrite Z.div_div by lia; done).
  replace (m / 60000) with (m / 1000 / 60) by (rewrite Z.div_div by lia; done).
  replace (m' / 3600000) with (m' / 1000 / 3600) by (rewrite Z.div_div by lia; done).
  replace (m' / 60000) with (m' / 1000 / 60) by (rewrite Z.div_div by lia; done).
  by rewrite E.
Qed.

(** Below one day: the time of [m] milliseconds, or of one millisecond
    less. *)
Lemma deltaToQTime_day m :
  0 ≤ m < 86400000 →
  ∃ ms, deltaToQTime m = Ret (QTime.Make (m / 1000 * 1000 + ms))
        ∧ (ms = m mod 1000 ∨ (ms = m mod 1000 - 1 ∧ 0 < m mod 1000)).
Proof.
  intros Hm. destruct (deltaToQTime_value m ltac:(lia)) as (ms & E & Hms).
  exists ms. split; [|done]. rewrite E. f_equal. apply fromHMS_fields; [done|].
  pose proof (Z.mod_pos_bound m 1000 ltac:(lia)). lia.
Qed.

(** ** [deltaToQTime] on every position *)

(** No position that a 64-bit integer can hold makes [deltaToQTime] raise:
    no division, remainder or conversion in it overflows or meets a
    zero or a NaN. *)
Theorem deltaToQTime_never_raises (m : Z) :
  - 2 ^ 63 < m < 2 ^ 63 → ∃ t, deltaToQTime m = Ret t.
Proof. intros Hm. apply deltaToQTime_returns. lia. Qed.

Lemma deltaToQTime_never_raises_witness : ∃ t, deltaToQTime (-5) = Ret t.
Proof. apply (deltaToQTime_never_raises (-5)). lia. Defined.

Lemma deltaToQTime_day_time (m : Z) :
  0 ≤ m < 86400000 →
  ∃ t, deltaToQTime m = Ret t
       ∧ QTime.isValid t = true
       ∧ m - 1 ≤ QTime.mds t ≤ m
       ∧ (m mod 1000 = 0 → QTime.mds t = m)
       ∧ QTime.hour t = m / 3600000
       ∧ QTime.minute t = (m / 60000) mod 60
       ∧ QTime.second t = (m / 1000) mod 60
       ∧ QTime.toString t = clock m.
Proof.
  intros Hm. destruct (deltaToQTime_day m Hm) as (ms & E & Hms).
  pose proof (Z.div_mod m 1000 ltac:(lia)) as Hdm.
  pose proof (Z.mod_pos_bound m 1000 ltac:(lia)) as Hmod.
  set (n := m / 1000 * 1000 + ms) in *.
  assert (Hn : 0 ≤ n < 86400000 ∧ m - 1 ≤ n ≤ m ∧ n / 1000 = m / 1000).
  { unfold n. split; [lia|]. split; [lia|].
    symmetry. apply (Z.div_unique_pos _ _ _ ms); lia. }
  destruct Hn as (Hn1 & Hn2 & Hn3).
  exists (QTime.Make n). split; [done|].
  assert (Hv : QTime.isValid (QTime.Make n) = true).
  { unfold QTime.isValid, QTime.MSECS_PER_DAY. cbn [QTime.mds]. cases_Z; lia. }
  unfold QTime.hour, QTime.minute, QTime.second. rewrite Hv. cbn [QTime.mds].
  split; [done|]. split; [done|]. split; [lia|].
  split; [clear E; Z.div_mod_to_equations; lia|].
  split; [clear E; Z.div_mod_to_equations; lia|].
  split; [by rewrite Hn3|].
  rewrite toString_clock by done. by apply clock_floor.
Qed.

(** For every position below 24 hours [deltaToQTime] returns a valid time
    that is the position itself or one millisecond before it, never after
    it, and the position itself on whole seconds; its hours, minutes and
    seconds are those of the position. *)
Theorem deltaToQTime_within_a_millisecond (m : Z) :
  0 ≤ m < 86400000 →
  ∃ t, deltaToQTime m = Ret t
       ∧ QTime.isValid t = true
       ∧ m - 1 ≤ QTime.mds t ≤ m
       ∧ (m mod 1000 = 0 → QTime.mds t = m)
       ∧ QTime.hour t = m / 3600000
       ∧ QTime.minute t = (m / 60000) mod 60
       ∧ QTime.second t = (m / 1000) mod 60
       ∧ QTime.toString t = clock m.
Proof. apply deltaToQTime_day_time. Qed.

Lemma deltaToQTime_within_a_millisecond_witness :
  ∃ t, deltaToQTime 1001 = Ret t ∧ 1000 ≤ QTime.mds t ≤ 1001.
Proof.
  destruct (deltaToQTime_within_a_millisecond 1001) as (t & E & _ & H & _); [lia|].
  exists t. split; [exact E|]. lia.
Defined.

Lemma deltaToQTime_beyond (m : Z) :
  (86400000 ≤ m < 216000000 → deltaToQTime m = Ret QTime.null)
  ∧ (216000000 ≤ m < 302400000 →
     ∃ t, deltaToQTime m = Ret t ∧ QTime.isValid t = true
          ∧ m - 216000000 - 1 ≤ QTime.mds t ≤ m - 216000000).
Proof.
  split; intros Hm.
  - destruct (deltaToQTime_value m ltac:(lia)) as (ms & E & Hms).
    rewrite E. f_equal. unfold QTime.fromHMS.
    assert (24 ≤ m / 3600000 < 60).
    { split; [apply Z.div_le_lower_bound; lia|apply Z.div_lt_upper_bound; lia]. }
    rewrite (Z.mod_small (m / 3600000) 60) by lia.
    destruct (Z.ltb_spec (m / 3600000) 24); [lia|].
    by rewrite andb_false_r.
  - destruct (deltaToQTime_value m ltac:(lia)) as (ms & E & Hms).
    set (m' := m - 216000000).
    pose proof (Z.mod_pos_bound m 1000 ltac:(lia)) as Hmod.
    assert (E1 : (m / 3600000) mod 60 = (m' / 3600000) mod 60).
    { unfold m'. clear E. Z.div_mod_to_equations. lia. }
    assert (E2 : (m / 60000) mod 60 = (m' / 60000) mod 60).
    { unfold m'. clear E. Z.div_mod_to_equations. lia. }
    assert (E3 : (m / 1000) mod 60 = (m' / 1000) mod 60).
    { unfold m'. clear E. Z.div_mod_to_equations. lia. }
    assert (E4 : m mod 1000 = m' mod 1000).
    { unfold m'. clear E. Z.div_mod_to_equations. lia. }
    rewrite E1, E2, E3, fromHMS_fields in E by (unfold m'; lia).
    rewrite E4 in Hms.
    pose proof (Z.div_mod m' 1000 ltac:(lia)) as Hdm.
    eexists. split; [exact E|].
    unfold QTime.isValid, QTime.MSECS_PER_DAY. cbn [QTime.mds].
    split; [cases_Z; unfold m' in *; lia|]. fold m'. lia.
Qed.

(** Past the range of a [QTime]: from 24 hours up to 60 hours the result is
    the null time; from 60 hours on the hour is taken modulo 60, so that up
    to 84 hours the result is a valid time, 60 hours behind the position (or
    one millisecond more). *)
Theorem deltaToQTime_past_a_day (m : Z) :
  (86400000 ≤ m < 216000000 → deltaToQTime m = Ret QTime.null)
  ∧ (216000000 ≤ m < 302400000 →
     ∃ t, deltaToQTime m = Ret t ∧ QTime.isValid t = true
          ∧ m - 216000000 - 1 ≤ QTime.mds t ≤ m - 216000000).
Proof. apply deltaToQTime_beyond. Qed.

Lemma deltaToQTime_past_a_day_witness : deltaToQTime 90000000 = Ret QTime.null.
Proof. apply (proj1 (deltaToQTime_past_a_day 90000000)). lia. Defined.

(** ** [positionChanged] *)

(** The time counter: for a position and a length below 24 hours it shows the
    two as [hh:mm:ss], whole seconds, fractions dropped; for a medium of 24
    to 60 hours the total is blank. *)
Theorem positionChanged_text (progress duration : Z) :
  0 ≤ progress < 86400000 →
  (0 ≤ duration < 86400000 →
   positionChanged progress duration = Ret (clock progress +:+ " / " +:+ clock duration))
  ∧ (86400000 ≤ duration < 216000000 →
     positionChanged progress duration = Ret (clock progress +:+ " / ")).
Proof.
  intros Hp.
  destruct (deltaToQTime_day_time progress Hp) as (t & Et & _ & _ & _ & _ & _ & _ & Etc).
  unfold positionChanged. rewrite Et. cbn [mbind outcome_bind]. rewrite Etc.
  split; intros Hd.
  - destruct (deltaToQTime_day_time duration Hd)
      as (d & Ed & _ & _ & _ & _ & _ & _ & Edc).
    rewrite Ed. cbn [mbind outcome_bind]. by rewrite Edc.
  - rewrite (proj1 (deltaToQTime_beyond duration) Hd). done.
Qed.

Lemma positionChanged_text_witness :
  positionChanged 61500 3600000 = Ret "00:01:01 / 01:00:00".
Proof. apply (proj1 (positionChanged_text 61500 3600000 ltac:(lia))). lia. Defined.

(** ** [captureImage] *)

(** For a position below 24 hours [captureImage] asks the backend for the
    frame of the source one second after the position, as [hh:mm:ss] and
    wrapping to midnight at the end of the day; it returns what the backend
    returns and changes nothing else. *)
Theorem captureImage_frame (B : Backend) (s : State) :
  0 ≤ position s < 86400000 →
  let frametime := clock ((position s + 1000) mod 86400000) in
  captureImage B s
  = (Ret (capture_result B (media s) frametime),
     set_log (log s ++ [Capture (media s) frametime]) s).
Proof.
  intros Hp frametime.
  destruct (deltaToQTime_day (position s) Hp) as (ms & E & Hms).
  pose proof (Z.div_mod (position s) 1000 ltac:(lia)) as Hdm.
  pose proof (Z.mod_pos_bound (position s) 1000 ltac:(lia)) as Hmod.
  set (n := position s / 1000 * 1000 + ms) in *.
  assert (Hn : 0 ≤ n < 86400000 ∧ n / 1000 = position s / 1000).
  { unfold n. split; [lia|]. symmetry. apply (Z.div_unique_pos _ _ _ ms); lia. }
  destruct Hn as [Hn1 Hn2].
  assert (Eft : QTime.toString (QTime.addSecs (QTime.Make n) 1) = frametime).
  { unfold QTime.addSecs, QTime.isValid, QTime.MSECS_PER_DAY. cbn [QTime.mds].
    destruct (Z.ltb_spec (-1) n); [|lia]. destruct (Z.ltb_spec n 86400000); [|lia].
    cbn [andb].
    pose proof (Z.mod_pos_bound (n + 1 * 1000) 86400000 ltac:(lia)).
    rewrite toString_clock by done. apply clock_floor.
    clear E Hms. Z.div_mod_to_equations. lia. }
  unfold captureImage, videoService_capture. step. rewrite E. simpl. by rewrite Eft.
Qed.

Lemma captureImage_frame_witness :
  (captureImage reliable one_closed).1 = Ret (Some 0%nat).
Proof.
  rewrite (captureImage_frame reliable one_closed); [reflexivity|].
  vm_compute. split; [discriminate|reflexivity].
Defined.

(** ** [cutEnd] and the order of start and end *)

Lemma cutEnd_at (init : list clip) (item : clip) (s : State) :
  clipTimes s = init ++ [item] →
  0 ≤ position s < 86400000 →
  (QTime.mds (clip_start item) < position s
   ∨ (QTime.mds (clip_start item) = position s ∧ position s mod 1000 = 0) →
   ∃ t, deltaToQTime (position s) = Ret t
        ∧ position s - 1 ≤ QTime.mds t ≤ position s
        ∧ cutEnd s = (Ret tt, ended init item t s))
  ∧ (position s < QTime.mds (clip_start item) →
     cutEnd s = (Ret tt, set_log (log s ++ [Critical "Invalid END Time"]) s)).
Proof.
  intros Hc Hp.
  destruct (deltaToQTime_day_time (position s) Hp) as (t & E & _ & Ht & Hw & _).
  rewrite (cutEnd_eq init item s Hc), E. unfold QTime.ltb.
  split.
  - intros Hs. exists t. split; [done|]. split; [done|].
    destruct (Z.ltb_spec (QTime.mds t) (QTime.mds (clip_start item))); [|done].
    destruct Hs as [Hs|[Hs Hz]]; [lia|]. specialize (Hw Hz). lia.
  - intros Hs.
    destruct (Z.ltb_spec (QTime.mds t) (QTime.mds (clip_start item))); [done|lia].
Qed.

(** [cutEnd] compares the converted position with the start of the last
    region.  At a position below 24 hours: a position after the start is
    accepted, and the region is closed with the time of the position; a
    position before the start is refused with the error dialog and nothing
    else changes; a position equal to the start is accepted when it is a
    whole number of seconds. *)
Theorem cutEnd_boundary (init : list clip) (item : clip) (s : State) :
  clipTimes s = init ++ [item] →
  0 ≤ position s < 86400000 →
  (QTime.mds (clip_start item) < position s
   ∨ (QTime.mds (clip_start item) = position s ∧ position s mod 1000 = 0) →
   ∃ t, deltaToQTime (position s) = Ret t
        ∧ position s - 1 ≤ QTime.mds t ≤ position s
        ∧ cutEnd s = (Ret tt, ended init item t s))
  ∧ (position s < QTime.mds (clip_start item) →
     cutEnd s = (Ret tt, set_log (log s ++ [Critical "Invalid END Time"]) s)).
Proof. apply cutEnd_at. Qed.

Lemma cutEnd_boundary_witness :
  let s := set_position 100 one_open in
  cutEnd s = (Ret tt, set_log (log s ++ [Critical "Invalid END Time"]) s).
Proof.
  intros s.
  refine (proj2 (cutEnd_boundary [] (Clip (QTime.Make 500) None (Some 0%nat)) s _ _) _).
  - vm_compute. reflexivity.
  - vm_compute. split; [discriminate|reflexivity].
  - vm_compute. reflexivity.
Defined.

Lemma initMediaControls_eq b s : initMediaControls b s = (Ret tt, controls b s).
Proof. unfold initMediaControls, controls. step. done. Qed.

Section PyLists2.
Context {A : Type}.
Implicit Types (l : list A) (k : nat).

Lemma getitem_nat l k x : l !! k = Some x → Py.getitem l (Z.of_nat k) = Ret x.
Proof.
  intros H. unfold Py.getitem. pose proof (lookup_lt_Some _ _ _ H).
  rewrite index_nonneg by lia. rewrite Nat2Z.id. simpl. by rewrite H.
Qed.

Lemma delitem_nat l k : (k < length l)%nat → Py.delitem l (Z.of_nat k) = Ret (delete k l).
Proof.
  intros H. unfold Py.delitem. rewrite index_nonneg by lia. by rewrite Nat2Z.id.
Qed.

Lemma insert_nat l k x :
  Py.insert l (Z.of_nat k) x = take k l ++ x :: drop k l.
Proof. rewrite insert_nonneg by lia. by rewrite Nat2Z.id. Qed.

(** Deleting position [S k] and inserting the element at [k] exchanges the
    two. *)
Lemma move_up_swap l k x y :
  l !! k = Some y → l !! S k = Some x →
  take k (delete (S k) l) ++ x :: drop k (delete (S k) l) = swap k l.
Proof.
  intros Hy Hx. unfold swap. rewrite Hy, Hx.
  revert k Hy Hx. induction l as [|a l IH]; intros k Hy Hx; [done|].
  destruct k as [|k]; simpl in *.
  - destruct l as [|b l]; simplify_eq/=. done.
  - f_equal. apply IH; done.
Qed.

Lemma move_down_swap l k x y :
  l !! k = Some x → l !! S k = Some y →
  take (S k) (delete k l) ++ x :: drop (S k) (delete k l) = swap k l.
Proof.
  intros Hx Hy. unfold swap. rewrite Hx, Hy.
  revert k Hy Hx. induction l as [|a l IH]; intros k Hy Hx; [done|].
  destruct k as [|k]; simpl in *.
  - destruct l as [|b l]; simplify_eq/=. done.
  - f_equal. apply IH; done.
Qed.

Lemma swap_length k l : length (swap k l) = length l.
Proof.
  unfold swap. destruct (l !! k), (l !! S k); try done.
  by rewrite !length_insert.
Qed.

Lemma swap_swap k l : swap k (swap k l) = l.
Proof.
  unfold swap at 2. destruct (l !! k) as [x|] eqn:Hx; [|by unfold swap; rewrite Hx].
  destruct (l !! S k) as [y|] eqn:Hy; [|by unfold swap; rewrite Hx, Hy].
  pose proof (lookup_lt_Some _ _ _ Hx). pose proof (lookup_lt_Some _ _ _ Hy).
  unfold swap.
  rewrite list_lookup_insert_eq by (rewrite length_insert; lia).
  rewrite list_lookup_insert_ne by lia.
  rewrite list_lookup_insert_eq by lia.
  apply list_eq. intros i.
  destruct (decide (i = k)) as [->|Hk].
  { rewrite list_lookup_insert_eq by (rewrite !length_insert; lia). done. }
  rewrite list_lookup_insert_ne by done.
  destruct (decide (i = S k)) as [->|HSk].
  { rewrite list_lookup_insert_eq by (rewrite !length_insert; lia). done. }
  by rewrite !list_lookup_insert_ne by done.
Qed.

Lemma swap_Permutation k l : Permutation (swap k l) l.
Proof.
  unfold swap. destruct (l !! k) as [x|] eqn:Hx; [|done].
  destruct (l !! S k) as [y|] eqn:Hy; [|done].
  revert k Hx Hy. induction l as [|a l IH]; intros k Hx Hy; [done|].
  destruct k as [|k]; simpl in *.
  - destruct l as [|b l]; simplify_eq/=. apply perm_swap.
  - constructor. by apply IH.
Qed.
End PyLists2.

(** ** The entries of the context menu in closed form *)

Lemma moveItemUp_swap s k :
  cliplist_currentRow s = Z.of_nat (S k) → (S k < length (clipTimes s))%nat →
  moveItemUp s = (Ret tt, rendered (set_clipTimes (swap k (clipTimes s)) s)).
Proof.
  intros Hrow Hlen.
  destruct (lookup_lt_is_Some_2 (clipTimes s) (S k) Hlen) as [x Hx].
  destruct (lookup_lt_is_Some_2 (clipTimes s) k ltac:(lia)) as [y Hy].
  unfold moveItemUp. step. rewrite Hrow.
  rewrite (getitem_nat _ _ _ Hx), (delitem_nat _ _ Hlen). simpl.
  rewrite renderTimes_eq. do 2 f_equal.
  replace (Z.of_nat (S k) - 1) with (Z.of_nat k) by lia.
  rewrite insert_nat, (move_up_swap _ _ _ _ Hy Hx). by destruct s.
Qed.

Lemma moveItemDown_swap s k :
  cliplist_currentRow s = Z.of_nat k → (S k < length (clipTimes s))%nat →
  moveItemDown s = (Ret tt, rendered (set_clipTimes (swap k (clipTimes s)) s)).
Proof.
  intros Hrow Hlen.
  destruct (lookup_lt_is_Some_2 (clipTimes s) (S k) Hlen) as [y Hy].
  destruct (lookup_lt_is_Some_2 (clipTimes s) k ltac:(lia)) as [x Hx].
  unfold moveItemDown. step. rewrite Hrow.
  rewrite (getitem_nat _ _ _ Hx), (delitem_nat (clipTimes s) k ltac:(lia)). simpl.
  rewrite renderTimes_eq. do 2 f_equal.
  replace (Z.of_nat k + 1) with (Z.of_nat (S k)) by lia.
  rewrite insert_nat, (move_down_swap _ _ _ _ Hx Hy). by destruct s.
Qed.

Lemma removeItem_eq s k :
  cliplist_currentRow s = Z.of_nat k → (k < length (clipTimes s))%nat →
  removeItem s =
  (Ret tt,
   rendered (if inCut s && (Z.of_nat k =? cliplist_count s - 1)
             then controls true (set_inCut false (set_clipTimes (delete k (clipTimes s)) s))
             else set_clipTimes (delete k (clipTimes s)) s)).
Proof.
  intros Hrow Hlen. unfold removeItem. step. rewrite Hrow.
  rewrite (delitem_nat _ _ Hlen). simpl.
  destruct (inCut s && (Z.of_nat k =? cliplist_count s - 1)); simpl.
  - by rewrite renderTimes_eq.
  - by rewrite renderTimes_eq.
Qed.

Lemma clearList_eq s :
  clearList s =
  (Ret tt, controls true (rendered (set_inCut false (set_cliplist 0 (-1) (set_clipTimes [] s))))).
Proof. unfold clearList, initMediaControls, renderTimes. step. by destruct s. Qed.

(** ** What a session maintains *)

Lemma first_closed_snoc (closed : list clip) (c : clip) :
  Forall (λ c, is_open c = false) closed →
  first_closed (closed ++ [c]) = if closed is [] then negb (is_open c) else true.
Proof. intros H. destruct H as [|c' l Hc' _]; simpl; [done|]. by rewrite Hc'. Qed.

Lemma first_closed_all (closed : list clip) :
  Forall (λ c, is_open c = false) closed →
  first_closed closed = if closed is [] then false else true.
Proof. intros H. destruct H as [|c' l Hc' _]; simpl; [done|]. by rewrite Hc'. Qed.

Lemma save_after_eq s :
  save_after s =
  first_closed (clipTimes s) && (negb (inCut s) || flag saveAction (enabled s)).
Proof.
  unfold save_after, first_closed, is_open. destruct (clipTimes s) as [|c l]; [done|].
  destruct (clip_end c); simpl; [|done]. by destruct (inCut s).
Qed.

Lemma ui_inv_fire B e s : ui_inv s → ui_inv (run (fire B e) s).
Proof.
  intros (Hm & Hcount & Hrow & Hsave).
  split; [by apply marking_inv_fire|].
  destruct Hm as (Hs & He & closed & opened & Hc & Hcl & Hop). simpl in Hs, He.
  unfold run, fire, trigger, slot, setPosition. destruct e as [p|p]; step.
  - rewrite Hs. destruct (inCut s) eqn:Hcut; simpl; [done|].
    rewrite cutStart_eq. simpl.
    destruct (deltaToQTime p) as [t|err]; simpl; [|done].
    rewrite length_app. simpl. split; [lia|]. split; [lia|].
    rewrite save_after_eq. simpl. simpl in Hsave. rewrite Hsave.
    subst opened. rewrite app_nil_r in Hc. rewrite Hc.
    rewrite first_closed_snoc, first_closed_all by done.
    by destruct closed.
  - rewrite He. destruct (inCut s) eqn:Hcut; simpl; [|done].
    destruct Hop as (c & -> & Hnone).
    rewrite (cutEnd_eq closed c) by done. simpl.
    destruct (deltaToQTime p) as [t|err]; simpl; [|done].
    destruct (QTime.ltb t (clip_start c)); simpl; [done|].
    rewrite length_app. simpl. split; [lia|]. split; [lia|].
    rewrite save_after_eq. simpl.
    rewrite first_closed_snoc by done. by destruct closed.
Qed.

Lemma ui_inv_selectRow i s : ui_inv s → ui_inv (run (selectRow i) s).
Proof.
  intros (Hm & Hcount & Hrow & Hsave). unfold run, selectRow. step.
  destruct (Z.leb_spec 0 i), (Z.ltb_spec i (cliplist_count s)); simpl; try done.
  split; [exact Hm|]. simpl. split; [done|]. split; [lia|done].
Qed.

Lemma delete_app_l {A} (l1 l2 : list A) k :
  (k < length l1)%nat → delete k (l1 ++ l2) = delete k l1 ++ l2.
Proof.
  revert k. induction l1 as [|a l1 IH]; intros k Hk; simpl in *; [lia|].
  destruct k as [|k]; [done|]. simpl. f_equal. apply IH. lia.
Qed.

Lemma delete_snoc {A} (l : list A) x : delete (length l) (l ++ [x]) = l.
Proof. induction l as [|a l IH]; [done|]. simpl. by rewrite IH. Qed.

Lemma Forall_delete_closed (P : clip → Prop) (l : list clip) k :
  Forall P l → Forall P (delete k l).
Proof.
  intros H. revert k. induction H as [|a l Ha Hl IH]; intros k; [done|].
  destruct k; simpl; [done|]. constructor; [done|apply IH].
Qed.

Lemma ui_inv_rendered s :
  marking_inv s →
  (inCut s = true → first_closed (clipTimes s) = true → flag saveAction (enabled s) = true) →
  ui_inv (rendered s).
Proof.
  intros (Hs & He & Hrest) Hsave. split; [|split; [|split]].
  - unfold marking_inv, rendered. simpl.
    split; [exact Hs|]. split; [exact He|]. exact Hrest.
  - done.
  - unfold rendered. simpl. lia.
  - unfold rendered. cbn [enabled set_enabled clipTimes set_cliplist].
    rewrite flag_with_flag. simpl. rewrite save_after_eq.
    destruct (first_closed (clipTimes s)) eqn:Hf; [|done].
    destruct (inCut s) eqn:Hcut; [|done]. simpl. by apply Hsave.
Qed.

Lemma menu_flags_other a s :
  a ∉ [moveItemUpAction; moveItemDownAction; removeItemAction; removeAllAction] →
  flag a (menu_flags s) = flag a (enabled s).
Proof.
  intros Ha. unfold menu_flags. rewrite !flag_with_flag.
  repeat (destruct (decide _) as [->|?]; [exfalso; apply Ha; set_solver|]). done.
Qed.

Lemma ui_inv_menu_flags s : ui_inv s → ui_inv (set_enabled (menu_flags s) s).
Proof.
  intros ((Hs & He & Hrest) & Hcount & Hrow & Hsave).
  split; [|split; [|split]]; done.
Qed.

Lemma ui_inv_menu B e s : ui_inv s → ui_inv (run (menu B (entry_action e)) s).
Proof.
  intros Hinv. pose proof (ui_inv_menu_flags s Hinv) as Hinv1.
  unfold run, menu, trigger. step. rewrite itemMenu_eq. cbn [fst snd].
  change (flag (entry_action e) (enabled (set_enabled (menu_flags s) s)))
    with (flag (entry_action e) (menu_flags s)).
  destruct (flag (entry_action e) (menu_flags s)) eqn:Hflag; [|done].
  unfold menu_flags in Hflag. rewrite !flag_with_flag in Hflag.
  remember (set_enabled (menu_flags s) s) as s1 eqn:Es1.
  assert (Erow : cliplist_currentRow s = cliplist_currentRow s1) by (by subst).
  assert (Ecount : cliplist_count s = cliplist_count s1) by (by subst).
  assert (Ecut : inCut s = inCut s1) by (by subst).
  rewrite Erow, Ecount, Ecut in Hflag. clear Es1 Erow Ecount Ecut Hinv.
  destruct Hinv1 as (Hm1 & Hcount1 & Hrow1 & Hsave1).
  pose proof Hm1 as (Hs & He & closed & opened & Hc & Hcl & Hop).
  destruct e; simpl in Hflag; cbn [entry_action slot].
  - (* move up *)
    apply andb_prop in Hflag as [Hflag Hpos]. apply andb_prop in Hflag as [Hsel Hcut].
    apply negb_true_iff in Hcut. apply Z.ltb_lt in Hpos.
    rewrite (moveItemUp_swap s1 (Z.to_nat (cliplist_currentRow s1 - 1))) by lia.
    cbn [fst snd]. apply ui_inv_rendered.
    + unfold marking_inv. cbn [enabled set_clipTimes inCut clipTimes].
      split; [done|]. split; [done|].
      rewrite Hcut in Hop |- *. subst opened. rewrite app_nil_r in Hc.
      exists (swap (Z.to_nat (cliplist_currentRow s1 - 1)) (clipTimes s1)), [].
      rewrite app_nil_r. split; [done|]. split; [|done].
      rewrite swap_Permutation. by rewrite Hc.
    + cbn [inCut set_clipTimes]. congruence.
  - (* move down *)
    apply andb_prop in Hflag as [Hflag Hlast]. apply andb_prop in Hflag as [Hsel Hcut].
    apply negb_true_iff in Hcut, Hsel. apply Z.ltb_lt in Hlast. apply Z.eqb_neq in Hsel.
    rewrite (moveItemDown_swap s1 (Z.to_nat (cliplist_currentRow s1))) by lia.
    cbn [fst snd]. apply ui_inv_rendered.
    + unfold marking_inv. cbn [enabled set_clipTimes inCut clipTimes].
      split; [done|]. split; [done|].
      rewrite Hcut in Hop |- *. subst opened. rewrite app_nil_r in Hc.
      exists (swap (Z.to_nat (cliplist_currentRow s1)) (clipTimes s1)), [].
      rewrite app_nil_r. split; [done|]. split; [|done].
      rewrite swap_Permutation. by rewrite Hc.
    + cbn [inCut set_clipTimes]. congruence.
  - (* remove *)
    apply andb_prop in Hflag as [Hsel Hpos].
    apply negb_true_iff in Hsel. apply Z.ltb_lt in Hpos. apply Z.eqb_neq in Hsel.
    set (k := Z.to_nat (cliplist_currentRow s1)).
    rewrite (removeItem_eq s1 k) by (unfold k; lia).
    cbn [fst snd]. replace (Z.of_nat k) with (cliplist_currentRow s1) by (unfold k; lia).
    destruct (inCut s1) eqn:Hcut.
    + destruct Hop as (c & -> & Hnone).
      assert (Hlen : length (clipTimes s1) = S (length closed))
        by (rewrite Hc, length_app; simpl; lia).
      destruct (Z.eqb_spec (cliplist_currentRow s1) (cliplist_count s1 - 1)) as [Hlast|Hmid];
        cbn [andb].
      * assert (k = length closed) as Hk by (unfold k; lia).
        rewrite Hc, Hk, delete_snoc. apply ui_inv_rendered.
        -- unfold marking_inv, controls.
           cbn [enabled set_enabled set_clipTimes set_inCut inCut clipTimes].
           rewrite !flag_with_flag. simpl. split; [done|]. split; [done|].
           exists closed, []. by rewrite app_nil_r.
        -- done.
      * assert (k < length closed)%nat as Hk by (unfold k; lia).
        rewrite Hc, delete_app_l by done. apply ui_inv_rendered.
        -- unfold marking_inv. cbn [enabled set_clipTimes inCut clipTimes].
           rewrite Hcut. split; [done|]. split; [done|].
           exists (delete k closed), [c]. split; [done|].
           split; [by apply Forall_delete_closed|eauto].
        -- cbn [enabled set_clipTimes inCut clipTimes]. intros _ Hfirst.
           rewrite Hsave1, Hc, first_closed_snoc by done.
           destruct closed as [|c0 closed']; [simpl in Hk; lia|done].
    + cbn [andb]. subst opened. rewrite app_nil_r in Hc.
      apply ui_inv_rendered.
      * unfold marking_inv. cbn [enabled set_clipTimes inCut clipTimes].
        rewrite Hcut. split; [done|]. split; [done|].
        exists (delete k (clipTimes s1)), []. rewrite app_nil_r. split; [done|].
        split; [|done]. rewrite Hc. by apply Forall_delete_closed.
      * cbn [inCut set_clipTimes]. congruence.
  - (* remove all *)
    rewrite clearList_eq. cbn [fst snd].
    unfold ui_inv, marking_inv, controls, rendered. simpl.
    repeat split; try done; try lia. by exists [], [].
Qed.

Lemma ui_inv_act B g s : ui_inv s → ui_inv (run (act B g) s).
Proof.
  destruct g as [e|i|e]; simpl.
  - apply ui_inv_fire.
  - apply ui_inv_selectRow.
  - apply ui_inv_menu.
Qed.

Lemma ui_inv_session B gs s : ui_inv s → ui_inv (session B gs s).
Proof.
  revert s. induction gs as [|g gs IH]; intros s Hs; [done|].
  apply IH. by apply ui_inv_act.
Qed.

Lemma ui_inv_loaded fs f : is_Some (fs !! f) → ui_inv (run (loadFile f) (initial fs)).
Proof.
  intros H. split; [by apply marking_inv_loaded|].
  destruct H as [c Hc]. unfold run, loadFile, os_path_exists, os_path_isfile, lookup_file,
    initMediaControls. step. rewrite Hc. simpl. done.
Qed.

Lemma fire_returns B e s :
  ui_inv s → in_range (Mark e) → result (fire B e) s = Ret tt.
Proof.
  intros ((Hs & He & closed & opened & Hc & Hcl & Hop) & _) Hp. simpl in Hs, He.
  unfold result, fire, trigger, slot, setPosition. destruct e as [p|p]; step.
  - destruct (on_cutStart (enabled s)); [|done].
    rewrite cutStart_eq. simpl in *.
    destruct (deltaToQTime_returns p ltac:(lia)) as [t ->]. done.
  - rewrite He. destruct (inCut s) eqn:Hcut; simpl; [|done].
    destruct Hop as (c & -> & Hnone).
    rewrite (cutEnd_eq closed c) by done. simpl in *.
    destruct (deltaToQTime_returns p ltac:(lia)) as [t ->].
    by destruct (QTime.ltb t (clip_start c)).
Qed.

Lemma menu_returns B e s : ui_inv s → result (menu B (entry_action e)) s = Ret tt.
Proof.
  intros Hinv. pose proof (ui_inv_menu_flags s Hinv) as Hinv1.
  unfold result, menu, trigger. step. rewrite itemMenu_eq. cbn [fst snd].
  change (flag (entry_action e) (enabled (set_enabled (menu_flags s) s)))
    with (flag (entry_action e) (menu_flags s)).
  destruct (flag (entry_action e) (menu_flags s)) eqn:Hflag; [|done].
  unfold menu_flags in Hflag. rewrite !flag_with_flag in Hflag.
  remember (set_enabled (menu_flags s) s) as s1 eqn:Es1.
  assert (Erow : cliplist_currentRow s = cliplist_currentRow s1) by (by subst).
  assert (Ecount : cliplist_count s = cliplist_count s1) by (by subst).
  assert (Ecut : inCut s = inCut s1) by (by subst).
  rewrite Erow, Ecount, Ecut in Hflag. clear Es1 Erow Ecount Ecut Hinv.
  destruct Hinv1 as (Hm1 & Hcount1 & Hrow1 & Hsave1).
  destruct e; simpl in Hflag; cbn [entry_action slot].
  - apply andb_prop in Hflag as [Hflag Hpos]. apply andb_prop in Hflag as [Hsel Hcut].
    apply Z.ltb_lt in Hpos.
    by rewrite (moveItemUp_swap s1 (Z.to_nat (cliplist_currentRow s1 - 1))) by lia.
  - apply andb_prop in Hflag as [Hflag Hlast]. apply andb_prop in Hflag as [Hsel Hcut].
    apply negb_true_iff in Hsel. apply Z.ltb_lt in Hlast. apply Z.eqb_neq in Hsel.
    by rewrite (moveItemDown_swap s1 (Z.to_nat (cliplist_currentRow s1))) by lia.
  - apply andb_prop in Hflag as [Hsel Hpos].
    apply negb_true_iff in Hsel. apply Z.ltb_lt in Hpos. apply Z.eqb_neq in Hsel.
    by rewrite (removeItem_eq s1 (Z.to_nat (cliplist_currentRow s1))) by lia.
  - by rewrite clearList_eq.
Qed.

Lemma act_returns B g s : ui_inv s → in_range g → result (act B g) s = Ret tt.
Proof.
  intros Hinv Hg. destruct g as [e|i|e]; simpl.
  - by apply fire_returns.
  - unfold result, selectRow. step.
    by destruct (Z.leb_spec 0 i), (Z.ltb_spec i (cliplist_count s)).
  - by apply menu_returns.
Qed.

(** ** The session theorems *)

(** From a freshly loaded file and for every sequence of marks, clicks on
    rows and entries of the context menu, at any positions and rows and with
    any backend: at most one region is open and it is the last one; [inCut]
    says whether the last region is open; Set Start is enabled exactly when no
    region is open and Set End exactly when one is; and the list widget has
    as many rows as there are regions. *)
Theorem session_keeps_one_open_region_last
    (B : Backend) (fs : gmap string content) (f : string) (gs : list gesture) :
  is_Some (fs !! f) →
  let s := session B gs (run (loadFile f) (initial fs)) in
  at_most_one_open (clipTimes s)
  ∧ open_only_last (clipTimes s)
  ∧ (inCut s = true ↔ ∃ c, last (clipTimes s) = Some c ∧ clip_end c = None)
  ∧ flag cutStartAction (enabled s) = negb (inCut s)
  ∧ flag cutEndAction (enabled s) = inCut s
  ∧ cliplist_count s = Z.of_nat (length (clipTimes s))
  ∧ -1 ≤ cliplist_currentRow s < cliplist_count s.
Proof.
  intros Hf s.
  assert (Hinv : ui_inv s) by by apply ui_inv_session, ui_inv_loaded.
  destruct Hinv as (Hm & Hcount & Hrow & _).
  destruct (marking_inv_open s Hm) as (H1 & H2 & H3).
  destruct Hm as (Hs & He & _). done.
Qed.

Lemma session_keeps_one_open_region_last_witness :
  let s := session reliable [Mark (MarkStart 0); Mark (MarkEnd 1000); Mark (MarkStart 2000);
                             Select 0; Menu Remove; Select 0; Menu Remove]
             (run (loadFile "/v/in.mp4") (initial disk0)) in
  at_most_one_open (clipTimes s) ∧ flag cutEndAction (enabled s) = inCut s.
Proof.
  intros s.
  destruct (session_keeps_one_open_region_last reliable disk0 "/v/in.mp4"
              [Mark (MarkStart 0); Mark (MarkEnd 1000); Mark (MarkStart 2000);
               Select 0; Menu Remove; Select 0; Menu Remove]) as (H1 & _ & _ & _ & H2 & _).
  - exists (Other 0). vm_compute. reflexivity.
  - split; [exact H1|exact H2].
Defined.

(** When the export is offered.  From a freshly loaded file and for every
    sequence of marks, clicks on rows and entries of the context menu: Save is
    enabled exactly when the list is not empty and its first region has an
    end.  So it stays enabled while a later region is open, and it is
    disabled while the only region is open. *)
Theorem save_enabled_iff_first_region_closed
    (B : Backend) (fs : gmap string content) (f : string) (gs : list gesture) :
  is_Some (fs !! f) →
  let s := session B gs (run (loadFile f) (initial fs)) in
  (flag saveAction (enabled s) = true
   ↔ ∃ c rest, clipTimes s = c :: rest ∧ clip_end c ≠ None)
  ∧ (inCut s = true →
     (flag saveAction (enabled s) = true ↔ (2 ≤ length (clipTimes s))%nat)).
Proof.
  intros Hf s.
  assert (Hinv : ui_inv s) by by apply ui_inv_session, ui_inv_loaded.
  destruct Hinv as (Hm & _ & _ & Hsave).
  assert (H1 : flag saveAction (enabled s) = true
               ↔ ∃ c rest, clipTimes s = c :: rest ∧ clip_end c ≠ None).
  { rewrite Hsave. unfold first_closed. destruct (clipTimes s) as [|c rest].
    - split; [done|]. by intros (? & ? & ? & _).
    - rewrite negb_true_iff, is_open_false. split; [eauto|].
      by intros (? & ? & [= <- <-] & ?). }
  split; [exact H1|]. intros Hcut. rewrite H1.
  destruct Hm as (_ & _ & closed & opened & Hc & Hcl & Hop). rewrite Hcut in Hop.
  destruct Hop as (c & -> & Hnone). rewrite Hc, length_app. simpl.
  destruct Hcl as [|c0 closed' Hc0 _]; simpl.
  - split; [|lia]. intros (? & ? & [= <- <-] & ?). done.
  - split; [lia|]. intros _. exists c0, (closed' ++ [c]). split; [done|].
    by apply is_open_false.
Qed.

Lemma save_enabled_iff_first_region_closed_witness :
  let s := session reliable [Mark (MarkStart 0); Mark (MarkEnd 1000); Mark (MarkStart 2000)]
             (run (loadFile "/v/in.mp4") (initial disk0)) in
  flag saveAction (enabled s) = true.
Proof.
  intros s.
  destruct (save_enabled_iff_first_region_closed reliable disk0 "/v/in.mp4"
              [Mark (MarkStart 0); Mark (MarkEnd 1000); Mark (MarkStart 2000)]) as [_ H].
  - exists (Other 0). vm_compute. reflexivity.
  - apply H; [vm_compute; reflexivity|vm_compute; lia].
Defined.

(** No gesture at the clip list raises.  From a freshly loaded file, after
    any sequence of marks, clicks and menu entries, every further gesture
    returns normally: the enabling of the actions keeps every index that the
    slots use inside the list. *)
Theorem gestures_never_raise
    (B : Backend) (fs : gmap string content) (f : string) (gs : list gesture) (g : gesture) :
  is_Some (fs !! f) → in_range g →
  result (act B g) (session B gs (run (loadFile f) (initial fs))) = Ret tt.
Proof.
  intros Hf Hg. apply act_returns; [|done]. by apply ui_inv_session, ui_inv_loaded.
Qed.

Lemma gestures_never_raise_witness :
  result (act reliable (Menu MoveUp))
    (session reliable [Mark (MarkStart 500)] (run (loadFile "/v/in.mp4") (initial disk0)))
  = Ret tt.
Proof.
  apply (gestures_never_raise reliable disk0 "/v/in.mp4" [Mark (MarkStart 500)] (Menu MoveUp)).
  - exists (Other 0). vm_compute. reflexivity.
  - exact I.
Defined.

(** ** Moving and removing rows *)

Lemma menu_enabled B a s :
  flag a (menu_flags s) = true →
  menu B a s = slot B a "" (set_enabled (menu_flags s) s).
Proof.
  intros Hflag. unfold menu, trigger. step. rewrite itemMenu_eq. cbn [fst snd].
  change (flag a (enabled (set_enabled (menu_flags s) s))) with (flag a (menu_flags s)).
  by rewrite Hflag.
Qed.

Lemma selectRow_eq i s :
  0 ≤ i < cliplist_count s →
  selectRow i s = (Ret tt, set_cliplist (cliplist_count s) i s).
Proof.
  intros Hi. unfold selectRow. step.
  destruct (Z.leb_spec 0 i); [|lia]. destruct (Z.ltb_spec i (cliplist_count s)); [done|lia].
Qed.

Lemma menu_move_up B s k :
  cliplist_count s = Z.of_nat (length (clipTimes s)) → inCut s = false →
  cliplist_currentRow s = Z.of_nat (S k) → (S k < length (clipTimes s))%nat →
  menu B moveItemUpAction s
  = (Ret tt, rendered (set_clipTimes (swap k (clipTimes s)) (set_enabled (menu_flags s) s))).
Proof.
  intros Hcount Hcut Hrow Hlen. rewrite menu_enabled.
  - cbn [slot]. by rewrite (moveItemUp_swap _ k).
  - unfold menu_flags. rewrite !flag_with_flag. simpl. rewrite Hcut, Hrow. simpl.
    by destruct (Z.ltb_spec 0 (Z.pos (Pos.of_succ_nat k))); [|lia].
Qed.

Lemma menu_move_down B s k :
  cliplist_count s = Z.of_nat (length (clipTimes s)) → inCut s = false →
  cliplist_currentRow s = Z.of_nat k → (S k < length (clipTimes s))%nat →
  menu B moveItemDownAction s
  = (Ret tt, rendered (set_clipTimes (swap k (clipTimes s)) (set_enabled (menu_flags s) s))).
Proof.
  intros Hcount Hcut Hrow Hlen. rewrite menu_enabled.
  - cbn [slot]. by rewrite (moveItemDown_swap _ k).
  - unfold menu_flags. rewrite !flag_with_flag. simpl. rewrite Hcut, Hrow, Hcount.
    destruct (Z.eqb_spec (Z.of_nat k) (-1)); [lia|].
    destruct (Z.ltb_spec (Z.of_nat k) (Z.of_nat (length (clipTimes s)) - 1)); [done|lia].
Qed.

(** Move Up and Move Down exchange neighbours.  With no region open, the
    menu's Move Up on row [k + 1] and its Move Down on row [k] both exchange
    the regions at [k] and [k + 1] and leave the others in place; the list is
    rebuilt without a current row.  Clicking the row the region went to and
    moving it back restores the list. *)
Theorem moves_exchange_neighbours (B : Backend) (s : State) (k : nat) :
  cliplist_count s = Z.of_nat (length (clipTimes s)) →
  inCut s = false →
  (S k < length (clipTimes s))%nat →
  (cliplist_currentRow s = Z.of_nat (S k) →
   clipTimes (run (menu B moveItemUpAction) s) = swap k (clipTimes s)
   ∧ cliplist_currentRow (run (menu B moveItemUpAction) s) = -1
   ∧ clipTimes (session B [Menu MoveUp; Select (Z.of_nat k); Menu MoveDown] s) = clipTimes s)
  ∧ (cliplist_currentRow s = Z.of_nat k →
     clipTimes (run (menu B moveItemDownAction) s) = swap k (clipTimes s)
     ∧ cliplist_currentRow (run (menu B moveItemDownAction) s) = -1
     ∧ clipTimes (session B [Menu MoveDown; Select (Z.of_nat (S k)); Menu MoveUp] s)
       = clipTimes s).
Proof.
  intros Hcount Hcut Hlen. split; intros Hrow.
  - pose proof (menu_move_up B s k Hcount Hcut Hrow Hlen) as E.
    unfold run. cbn [session fold_left act entry_action]. unfold run. rewrite E. cbn [fst snd].
    split; [done|]. split; [done|].
    set (s1 := rendered _).
    assert (Hlen1 : length (clipTimes s1) = length (clipTimes s)) by apply swap_length.
    assert (E2 : selectRow (Z.of_nat k) s1
                 = (Ret tt, set_cliplist (cliplist_count s1) (Z.of_nat k) s1)).
    { apply selectRow_eq. unfold s1, rendered. cbn [cliplist_count set_enabled set_cliplist].
      cbn [clipTimes set_clipTimes]. rewrite swap_length. lia. }
    rewrite E2. cbn [fst snd].
    rewrite (menu_move_down B _ k); [|done|done|done|cbn [clipTimes set_cliplist]; lia].
    cbn [fst snd]. apply swap_swap.
  - pose proof (menu_move_down B s k Hcount Hcut Hrow Hlen) as E.
    unfold run. cbn [session fold_left act entry_action]. unfold run. rewrite E. cbn [fst snd].
    split; [done|]. split; [done|].
    set (s1 := rendered _).
    assert (Hlen1 : length (clipTimes s1) = length (clipTimes s)) by apply swap_length.
    assert (E2 : selectRow (Z.of_nat (S k)) s1
                 = (Ret tt, set_cliplist (cliplist_count s1) (Z.of_nat (S k)) s1)).
    { apply selectRow_eq. unfold s1, rendered. cbn [cliplist_count set_enabled set_cliplist].
      cbn [clipTimes set_clipTimes]. rewrite swap_length. lia. }
    rewrite E2. cbn [fst snd].
    rewrite (menu_move_up B _ k); [|done|done|done|cbn [clipTimes set_cliplist]; lia].
    cbn [fst snd]. apply swap_swap.
Qed.

Lemma moves_exchange_neighbours_witness :
  clipTimes (run (menu reliable moveItemDownAction) three_closed)
  = swap 0 (clipTimes three_closed).
Proof.
  refine (proj1 (proj2 (moves_exchange_neighbours reliable three_closed 0 _ _ _) _)).
  - vm_compute. reflexivity.
  - vm_compute. reflexivity.
  - vm_compute. lia.
  - vm_compute. reflexivity.
Defined.

Lemma menu_remove (B : Backend) (s : State) (k : nat) :
  cliplist_count s = Z.of_nat (length (clipTimes s)) →
  cliplist_currentRow s = Z.of_nat k →
  (k < length (clipTimes s))%nat →
  let s' := run (menu B removeItemAction) s in
  result (menu B removeItemAction) s = Ret tt
  ∧ clipTimes s' = delete k (clipTimes s)
  ∧ cliplist_count s' = Z.of_nat (length (clipTimes s'))
  ∧ cliplist_currentRow s' = -1
  ∧ if inCut s && bool_decide (S k = length (clipTimes s))
    then inCut s' = false
         ∧ flag cutStartAction (enabled s') = true
         ∧ flag cutEndAction (enabled s') = false
    else inCut s' = inCut s
         ∧ flag cutStartAction (enabled s') = flag cutStartAction (enabled s)
         ∧ flag cutEndAction (enabled s') = flag cutEndAction (enabled s).
Proof.
  intros Hcount Hrow Hlen s'.
  assert (E : menu B removeItemAction s
              = removeItem (set_enabled (menu_flags s) s)).
  { rewrite menu_enabled; [done|].
    unfold menu_flags. rewrite !flag_with_flag. simpl. rewrite Hrow, Hcount.
    destruct (Z.eqb_spec (Z.of_nat k) (-1)); [lia|].
    destruct (Z.ltb_spec 0 (Z.of_nat (length (clipTimes s)))); [done|lia]. }
  unfold s', run, result. rewrite E, (removeItem_eq _ k) by done. cbn [fst snd].
  cbn [inCut set_enabled cliplist_count clipTimes]. rewrite Hcount.
  destruct (inCut s) eqn:Hcut; cbn [andb].
  - destruct (Z.eqb_spec (Z.of_nat k) (Z.of_nat (length (clipTimes s)) - 1)).
    + rewrite bool_decide_true by lia. done.
    + rewrite bool_decide_false by lia. done.
  - done.
Qed.

(** ** Loading a file *)

(** [loadFile] on a path that does not exist returns [False] and changes
    nothing.  On a file that exists it makes the file the current medium,
    empties the clip list and the list widget, enables Play, Set Start and
    Media Information and disables Save and Set End, whatever the state
    before; it leaves [inCut], the disk and the log as they were. *)
Theorem loadFile_resets (f : string) (s : State) :
  (files s !! f = None → loadFile f s = (Ret (Some false), s))
  ∧ (is_Some (files s !! f) →
     ∃ s', loadFile f s = (Ret None, s')
           ∧ media s' = f ∧ clipTimes s' = []
           ∧ cliplist_count s' = 0 ∧ cliplist_currentRow s' = -1
           ∧ flag playAction (enabled s') = true
           ∧ flag cutStartAction (enabled s') = true
           ∧ flag mediaInfoAction (enabled s') = true
           ∧ flag saveAction (enabled s') = false
           ∧ flag cutEndAction (enabled s') = false
           ∧ inCut s' = inCut s ∧ files s' = files s ∧ log s' = log s).
Proof.
  unfold loadFile, os_path_exists, os_path_isfile, lookup_file, initMediaControls.
  split.
  - intros Hf. step. rewrite Hf. simpl. done.
  - intros [c Hc]. step. rewrite Hc. simpl. eexists. split; [done|]. done.
Qed.

Lemma loadFile_resets_witness :
  loadFile "/v/none.mp4" one_open = (Ret (Some false), one_open).
Proof.
  apply (proj1 (loadFile_resets "/v/none.mp4" one_open)). vm_compute. reflexivity.
Defined.

(** ** Dragging a row while a region is open *)




(** ** The export: names of the intermediate files *)

Lemma format_02_value n :
  Nat.of_uint <$> NilEmpty.uint_of_string (Py.format_02 n) = Some n.
Proof.
  assert (Hd : Nat.of_uint <$> NilEmpty.uint_of_string (Py.decimal n) = Some n).
  { unfold Py.decimal. rewrite <- (DecimalNat.Unsigned.of_to n) at 2.
    generalize (Nat.to_uint n). intros d.
    destruct d; [reflexivity|..];
      match goal with
      | |- context [NilZero.string_of_uint ?x] =>
          change (NilZero.string_of_uint x) with (NilEmpty.string_of_uint x);
          by rewrite (NilEmpty.usu x)
      end. }
  unfold Py.format_02. destruct (_ <? _)%nat; [|done].
  change ("0" +:+ Py.decimal n) with (String "0" (Py.decimal n)).
  cbn [NilEmpty.uint_of_string].
  destruct (NilEmpty.uint_of_string (Py.decimal n)) as [d|]; [|done].
  simpl in *. done.
Qed.

Lemma format_02_inj n n' : Py.format_02 n = Py.format_02 n' → n = n'.
Proof.
  intros E. pose proof (format_02_value n) as H. rewrite E, format_02_value in H.
  by simplify_eq.
Qed.

Lemma str_app_inv_head (a x y : string) : a +:+ x = a +:+ y → x = y.
Proof.
  induction a as [|c a IH]; [done|]. rewrite !str_app_cons. intros [= E]. by apply IH.
Qed.

Lemma str_app_inv_tail (x y e : string) : x +:+ e = y +:+ e → x = y.
Proof.
  revert y. induction x as [|c x IH]; intros [|d y] E.
  - done.
  - change ("" +:+ e) with e in E. apply (f_equal String.length) in E.
    rewrite str_app_cons in E. simpl in E. rewrite str_length_app in E. lia.
  - change ("" +:+ e) with e in E. apply (f_equal String.length) in E.
    rewrite str_app_cons in E. simpl in E. rewrite str_length_app in E. lia.
  - rewrite !str_app_cons in E. injection E as -> E. f_equal. by apply IH.
Qed.

Lemma intermediate_inj file ext i j :
  intermediate file ext i = intermediate file ext j → i = j.
Proof.
  unfold intermediate. intros E. apply str_app_inv_head, str_app_inv_head in E.
  apply str_app_inv_tail in E. by apply format_02_inj.
Qed.

Lemma intermediates_seq file ext clips : ∀ index,
  intermediates file ext index clips = intermediate file ext <$> seq index (length clips).
Proof. induction clips as [|c rest IH]; intros index; simpl; [done|]. by rewrite IH. Qed.

Lemma intermediates_NoDup file ext index clips : NoDup (intermediates file ext index clips).
Proof.
  rewrite intermediates_seq. apply NoDup_fmap_2; [|apply NoDup_seq].
  intros i j. apply intermediate_inj.
Qed.

Lemma trimmed_other B source file ext clips : ∀ index fs f,
  f ∉ intermediates file ext index clips →
  trimmed B source file ext index clips fs !! f = fs !! f.
Proof.
  induction clips as [|c rest IH]; intros index fs f Hf; [done|].
  cbn [trimmed intermediates] in *. apply not_elem_of_cons in Hf as [Hne Hf].
  rewrite IH by done. destruct (cut_succeeds _ _ _ _ _); [|done].
  by rewrite lookup_insert_ne.
Qed.

Lemma trimmed_lookup B source file ext clips : ∀ index fs i c,
  clips !! i = Some c →
  cut_succeeds B source (intermediate file ext (index + i))
    (QTime.toString (clip_start c)) (runtime c) = true →
  trimmed B source file ext index clips fs !! intermediate file ext (index + i)
  = Some (Trimmed source (QTime.toString (clip_start c)) (runtime c)).
Proof.
  induction clips as [|c' rest IH]; intros index fs i c Hi Hcut; [done|].
  cbn [trimmed]. destruct i as [|i]; simpl in Hi.
  - simplify_eq. rewrite Nat.add_0_r in *. rewrite Hcut.
    rewrite trimmed_other; [apply lookup_insert_eq|].
    rewrite intermediates_seq. intros (j & Hj & Hin)%list_elem_of_fmap.
    apply intermediate_inj in Hj. apply elem_of_seq in Hin. lia.
  - rewrite <- Nat.add_succ_comm in *. by apply IH.
Qed.

(** ** The export: nothing to do, and a region that is still open *)

(** [cutVideo] with nothing to do.  On an empty clip list it returns [False]
    and changes nothing: no dialog result is read, nothing is called.  On a
    list that is not empty, a cancelled save dialog (the empty string) makes
    it return [True] all the same, with no call made; the only change is
    that [finalFilename] now is the empty string. *)
Theorem cutVideo_without_work (B : Backend) (answer : string) (s : State) :
  (clipTimes s = [] → cutVideo B answer s = (Ret false, s))
  ∧ (clipTimes s ≠ [] → cutVideo B "" s = (Ret true, set_finalFilename "" s)).
Proof.
  unfold cutVideo. split; intros H.
  - step. rewrite H. done.
  - step. destruct (clipTimes s); [done|]. done.
Qed.

Lemma cutVideo_without_work_witness :
  cutVideo reliable "" two_closed = (Ret true, set_finalFilename "" two_closed).
Proof.
  apply (proj2 (cutVideo_without_work reliable "" two_closed)).
  vm_compute. discriminate.
Defined.

Lemma cut_loop_open B source file ext closed c rest :
  Forall (λ c, is_open c = false) closed → clip_end c = None →
  ∀ index filename filelist s,
    cut_loop B source file ext (closed ++ c :: rest) index filename filelist s =
    (Raise TypeError,
     set_files (trimmed B source file ext index closed (files s))
       (set_log (log s ++ trim_calls source file ext index closed) s)).
Proof.
  intros Hclosed Hnone.
  induction Hclosed as [|c' closed' Hc' _ IH]; intros index filename filelist s.
  - cbn [app cut_loop trimmed trim_calls]. unfold mbind, M_bind, lift.
    rewrite Hnone. cbn [of_option]. rewrite app_nil_r. by destruct s.
  - destruct (closed_runtime c' Hc') as (stop & d & Hstop & Hd & Hrt).
    cbn [app trimmed trim_calls cut_loop]. unfold trim_call. rewrite Hrt.
    unfold videoService_cut, write_file, emit.
    unfold mbind, M_bind, mret, M_ret, get, modify, lift.
    rewrite Hstop. cbn [of_option]. rewrite Hd.
    fold (intermediate file ext index).
    destruct (cut_succeeds B source (intermediate file ext index) _ _);
      cbv beta iota; rewrite IH; f_equal;
      destruct s; simpl; by rewrite <- app_assoc.
Qed.

(** [cutVideo] on a list with an open region.  With a destination chosen:
    the regions before the first open one are trimmed, in order, each into
    its intermediate file; then [msecsTo] meets the empty string that stands
    for the missing end and [cutVideo] raises [TypeError].  No further trim,
    no list file, no concatenate call, no rename and no completion dialog
    follow, and the intermediates written so far stay on the disk. *)
Theorem cutVideo_stops_at_an_open_region
    (B : Backend) (s : State) (answer file ext : string)
    (closed : list clip) (c : clip) (rest : list clip) :
  clipTimes s = closed ++ c :: rest →
  Forall (λ c, is_open c = false) closed →
  clip_end c = None →
  answer ≠ "" →
  Path.splitext answer = (file, ext) →
  cutVideo B answer s
  = (Raise TypeError,
     set_files (trimmed B (media s) file ext 1 closed (files s))
       (set_log (log s ++ trim_calls (media s) file ext 1 closed)
          (set_finalFilename answer s))).
Proof.
  intros Hclips Hclosed Hnone Hanswer Hsplit. unfold cutVideo.
  unfold mbind at 1 2 3 4 5, M_bind, mret, M_ret, get, modify, lift. cbv beta iota zeta.
  rewrite Hclips.
  assert (Hlen : (length (closed ++ c :: rest) =? 0)%nat = false).
  { rewrite length_app. simpl. apply Nat.eqb_neq. lia. }
  rewrite Hlen. cbn [negb finalFilename set_finalFilename].
  apply String.eqb_neq in Hanswer. rewrite Hanswer. cbn [negb]. rewrite Hsplit.
  unfold mbind, M_bind, mret, M_ret, get, modify, lift.
  rewrite (cut_loop_open B (media s) file ext closed c rest Hclosed Hnone).
  cbv beta iota. by destruct s.
Qed.

Lemma cutVideo_stops_at_an_open_region_witness :
  (cutVideo reliable "/v/out.mp4" closed_then_open).1 = Raise TypeError.
Proof.
  rewrite (cutVideo_stops_at_an_open_region reliable closed_then_open "/v/out.mp4"
             "/v/out" ".mp4"
             [Clip (QTime.Make 0) (Some (QTime.Make 1000)) (Some 0%nat)]
             (Clip (QTime.Make 2000) None (Some 0%nat)) []).
  - reflexivity.
  - vm_compute. reflexivity.
  - by repeat constructor.
  - reflexivity.
  - discriminate.
  - vm_compute. reflexivity.
Defined.

(** ** The export: one file per region *)

(** The trim loop of [cutVideo] on closed regions.  It returns normally with
    the list of the intermediate files, one per region and no two the same,
    whatever the number of regions; and when the trim of a region succeeds,
    the file of that region holds, after the loop, the trim of that very
    region: no later trim has written over it. *)
Theorem cut_loop_gives_each_region_its_file
    (B : Backend) (source file ext : string) (clips : list clip)
    (index : nat) (filename : string) (filelist : list string) (s : State) :
  Forall (λ c, is_open c = false) clips →
  let names := intermediates file ext index clips in
  let s' := run (cut_loop B source file ext clips index filename filelist) s in
  result (cut_loop B source file ext clips index filename filelist) s
  = Ret (List.last names filename, filelist ++ names)
  ∧ NoDup names
  ∧ ∀ i c, clips !! i = Some c →
      names !! i = Some (intermediate file ext (index + i))
      ∧ (cut_succeeds B source (intermediate file ext (index + i))
           (QTime.toString (clip_start c)) (runtime c) = true →
         files s' !! intermediate file ext (index + i)
         = Some (Trimmed source (QTime.toString (clip_start c)) (runtime c))).
Proof.
  intros Hclosed names s'. unfold s', result, run.
  rewrite (cut_loop_closed B source file ext clips Hclosed). cbn [fst snd].
  split; [done|]. split; [apply intermediates_NoDup|].
  intros i c Hi. split; [apply (trim_calls_lookup source file ext clips index i c Hi)|].
  intros Hcut. cbn [files set_files]. by apply trimmed_lookup.
Qed.

Lemma cut_loop_gives_each_region_its_file_witness :
  NoDup (intermediates "/v/out" ".mp4" 1 (clipTimes two_closed)).
Proof.
  refine (proj1 (proj2 (cut_loop_gives_each_region_its_file reliable "/v/in.mp4" "/v/out" ".mp4"
                          (clipTimes two_closed) 1 "" [] two_closed _))).
  vm_compute. by repeat constructor.
Defined.

(** ** The export: calls that fail *)

(** One region, and its trim fails.  With one closed region, a destination
    chosen, a trim that the backend reports as failed and no file of the
    intermediate's name on the disk: [cutVideo] removes the destination and
    then finds nothing to rename, so that a file that was at the destination
    before is lost; it shows the completion dialog and returns [True]. *)
Theorem failed_single_trim_removes_the_destination
    (B : Backend) (s : State) (answer file ext : string) (c : clip) :
  clipTimes s = [c] →
  is_open c = false →
  answer ≠ "" →
  Path.splitext answer = (file, ext) →
  cut_succeeds B (media s) (intermediate file ext 1)
    (QTime.toString (clip_start c)) (runtime c) = false →
  files s !! intermediate file ext 1 = None →
  let s' := run (cutVideo B answer) s in
  result (cutVideo B answer) s = Ret true
  ∧ log s' = log s ++ [Cut (media s) (intermediate file ext 1)
                         (QTime.toString (clip_start c)) (runtime c);
                       QFileRemove answer;
                       QFileRename (intermediate file ext 1) answer;
                       Completion answer]
  ∧ files s' !! answer = None
  ∧ files s' = delete answer (files s).
Proof.
  intros Hclips Hclosed Hanswer Hsplit Hcut Hfile s'.
  assert (E : cutVideo B answer s = (Ret true, exported B answer s)).
  { apply cutVideo_closed; rewrite ?Hclips; [done| |done]. by repeat constructor. }
  unfold s', run, result. rewrite E. cbn [fst snd].
  unfold exported. rewrite Hsplit, Hclips.
  cbn [intermediates trim_calls trimmed length Nat.ltb Nat.leb List.last].
  unfold trim_call. rewrite Hcut. unfold promoted.
  assert (Hname : delete answer (files s) !! intermediate file ext 1 = None).
  { destruct (decide (answer = intermediate file ext 1)) as [->|Hne];
      [apply lookup_delete_eq|by rewrite lookup_delete_ne]. }
  rewrite Hname. cbn [files log set_files set_log set_finalFilename].
  split; [done|]. split; [done|]. split; [apply lookup_delete_eq|done].
Qed.

Lemma failed_single_trim_removes_the_destination_witness :
  let B := failing_cut "/v/in_01.mp4" in
  files (run (cutVideo B "/v/in.mp4") one_closed) !! "/v/in.mp4" = None.
Proof.
  intros B.
  refine (proj1 (proj2 (proj2 (failed_single_trim_removes_the_destination B one_closed
            "/v/in.mp4" "/v/in" ".mp4"
            (Clip (QTime.Make 2000) (Some (QTime.Make 5000)) (Some 0%nat)) _ _ _ _ _ _)))).
  - vm_compute. reflexivity.
  - reflexivity.
  - discriminate.
  - vm_compute. reflexivity.
  - vm_compute. reflexivity.
  - vm_compute. reflexivity.
Defined.

(** Two or more regions, and the concatenation fails.  With a destination
    that is not the list file: the list file and every intermediate are
    removed all the same, the destination is left as it was before the
    export (the file that was there, or none), and [cutVideo] shows the
    completion dialog and returns [True]. *)
Theorem failed_join_is_reported_as_success
    (B : Backend) (s : State) (answer file ext : string) :
  (2 ≤ length (clipTimes s))%nat →
  Forall (λ c, is_open c = false) (clipTimes s) →
  answer ≠ "" →
  Path.splitext answer = (file, ext) →
  let names := intermediates file ext 1 (clipTimes s) in
  let lf := listfile_of (default "" (head names)) in
  let s' := run (cutVideo B answer) s in
  join_succeeds B lf answer = false →
  answer ≠ lf →
  result (cutVideo B answer) s = Ret true
  ∧ files s' !! answer = files s !! answer
  ∧ (∀ f, f ∈ names → files s' !! f = None)
  ∧ files s' !! lf = None
  ∧ last (log s') = Some (Completion answer).
Proof.
  intros Hlen Hclosed Hanswer Hsplit names lf s' Hjoin Hlf.
  destruct (clipTimes s) as [|c1 [|c2 rest]] eqn:Hclips; simpl in Hlen; try lia.
  assert (E : cutVideo B answer s = (Ret true, exported B answer s)).
  { apply cutVideo_closed; rewrite ?Hclips; done. }
  unfold s', run, result. rewrite E. cbn [fst snd].
  rewrite (exported_many B answer s file ext c1 c2 rest Hsplit Hclips).
  rewrite Hclips. fold names.
  set (fs := trimmed B (media s) file ext 1 (c1 :: c2 :: rest) (files s)).
  unfold joined. fold lf. rewrite Hjoin.
  cbn [fst snd files log set_files set_log set_finalFilename].
  assert (Hnot : answer ∉ names).
  { intros Hin. apply intermediates_elem in Hin as [i Hi].
    apply (intermediate_ne file ext i). rewrite <- Hi. symmetry. by apply splitext_app. }
  split; [done|]. split.
  { rewrite survivors_lookup, bool_decide_false by done.
    rewrite lookup_delete_ne, lookup_insert_ne by done.
    by apply trimmed_other. }
  split.
  { intros f Hf. rewrite survivors_lookup. by rewrite bool_decide_true. }
  split.
  { rewrite survivors_lookup. case_bool_decide; [done|apply lookup_delete_eq]. }
  rewrite !app_assoc. apply last_snoc.
Qed.

Lemma failed_join_is_reported_as_success_witness :
  let B := MkBackend (λ _ _, Some 0%nat) (λ _ _ _ _, true) (λ _ _, false) in
  result (cutVideo B "/v/out.mp4") two_closed = Ret true.
Proof.
  intros B.
  refine (proj1 (failed_join_is_reported_as_success B two_closed "/v/out.mp4" "/v/out" ".mp4"
                   _ _ _ _ _ _)).
  - vm_compute. lia.
  - vm_compute. by repeat constructor.
  - discriminate.
  - vm_compute. reflexivity.
  - reflexivity.
  - vm_compute. discriminate.
Defined.

(** ** The export: what a trim is asked for *)

Lemma runtime_clock c stop :
  clip_end c = Some stop →
  QTime.isValid (clip_start c) = true → QTime.isValid stop = true →
  QTime.mds (clip_start c) ≤ QTime.mds stop →
  QTime.toString (clip_start c) = clock (QTime.mds (clip_start c))
  ∧ runtime c = clock (QTime.mds stop - QTime.mds (clip_start c)).
Proof.
  intros Hstop Hv1 Hv2 Hle.
  assert (H1 : 0 ≤ QTime.mds (clip_start c) < 86400000).
  { unfold QTime.isValid, QTime.MSECS_PER_DAY in Hv1.
    apply andb_prop in Hv1 as [?%Z.ltb_lt ?%Z.ltb_lt]. lia. }
  assert (H2 : 0 ≤ QTime.mds stop < 86400000).
  { unfold QTime.isValid, QTime.MSECS_PER_DAY in Hv2.
    apply andb_prop in Hv2 as [?%Z.ltb_lt ?%Z.ltb_lt]. lia. }
  split.
  - destruct (clip_start c) as [n]. by apply toString_clock.
  - unfold runtime. rewrite Hstop. unfold QTime.msecsTo. rewrite Hv1, Hv2. cbn [andb].
    destruct (deltaToQTime_day_time (QTime.mds stop - QTime.mds (clip_start c)) ltac:(lia))
      as (t & -> & _ & _ & _ & _ & _ & _ & Ht).
    done.
Qed.

(** What each trim is asked for.  On closed regions with a destination
    chosen, the i-th call of the export is the trim of the i-th region into
    its intermediate file, from the start of the region and for the
    difference of its end and start, both passed as [hh:mm:ss] in whole
    seconds, fractions of a second dropped (the region's times being valid
    and in order). *)
Theorem trims_are_asked_in_whole_seconds
    (B : Backend) (s : State) (answer file ext : string) (i : nat) (c : clip) (stop : QTime.t) :
  Forall (λ c, is_open c = false) (clipTimes s) →
  answer ≠ "" →
  Path.splitext answer = (file, ext) →
  clipTimes s !! i = Some c →
  clip_end c = Some stop →
  QTime.isValid (clip_start c) = true → QTime.isValid stop = true →
  QTime.mds (clip_start c) ≤ QTime.mds stop →
  log (run (cutVideo B answer) s) !! (length (log s) + i)%nat
  = Some (Cut (media s) (intermediate file ext (S i))
            (clock (QTime.mds (clip_start c)))
            (clock (QTime.mds stop - QTime.mds (clip_start c)))).
Proof.
  intros Hclosed Hanswer Hsplit Hi Hstop Hv1 Hv2 Hle.
  assert (Hne : clipTimes s ≠ []) by (intros E; by rewrite E in Hi).
  unfold run. rewrite (cutVideo_closed B answer s Hne Hclosed Hanswer). cbn [snd].
  unfold exported. rewrite Hsplit.
  destruct (if (1 <? _)%nat then _ else _) as [fs' calls].
  cbn [log set_files set_log].
  rewrite lookup_app_r by lia. replace (length (log s) + i - length (log s))%nat with i by lia.
  rewrite lookup_app_l by (rewrite trim_calls_length; by apply lookup_lt_Some in Hi).
  destruct (trim_calls_lookup (media s) file ext (clipTimes s) 1 i c Hi) as [-> _].
  destruct (runtime_clock c stop Hstop Hv1 Hv2 Hle) as [-> ->]. done.
Qed.

Lemma trims_are_asked_in_whole_seconds_witness :
  log (run (cutVideo reliable "/v/out.mp4") two_closed) !! (length (log two_closed) + 1)%nat
  = Some (Cut (media two_closed) (intermediate "/v/out" ".mp4" 2)
            (clock (QTime.mds (clip_start (Clip (QTime.Make 2000) (Some (QTime.Make 2500))
                                             (Some 0%nat)))))
            (clock (QTime.mds (QTime.Make 2500)
                    - QTime.mds (clip_start (Clip (QTime.Make 2000) (Some (QTime.Make 2500))
                                               (Some 0%nat)))))).
Proof.
  apply (trims_are_asked_in_whole_seconds reliable two_closed "/v/out.mp4" "/v/out" ".mp4" 1
           (Clip (QTime.Make 2000) (Some (QTime.Make 2500)) (Some 0%nat)) (QTime.Make 2500)).
  - vm_compute. by repeat constructor.
  - discriminate.
  - vm_compute. reflexivity.
  - vm_compute. reflexivity.
  - reflexivity.
  - reflexivity.
  - reflexivity.
  - vm_compute. discriminate.
Defined.

(** ** C10: Remove and the current row *)

Lemma delitem_last {A} (init : list A) (c : A) :
  Py.delitem (init ++ [c]) (-1) = Ret init.
Proof.
  unfold Py.delitem. rewrite index_last by (by destruct init).
  rewrite length_app. simpl.
  replace (length init + 1 - 1)%nat with (length init) by lia.
  by rewrite delete_snoc.
Qed.

Lemma removeItem_unselected s init c :
  clipTimes s = init ++ [c] → cliplist_currentRow s = -1 →
  cliplist_count s = Z.of_nat (length (clipTimes s)) →
  removeItem s = (Ret tt, rendered (set_clipTimes init s)).
Proof.
  intros Hc Hrow Hcount.
  assert (E : (-1 =? cliplist_count s - 1) = false).
  { apply Z.eqb_neq. rewrite Hcount, Hc, length_app. cbn [length]. lia. }
  unfold removeItem. step. rewrite Hrow, E, andb_false_r, Hc, delitem_last. simpl.
  by rewrite renderTimes_eq.
Qed.

Lemma menu_disabled B a s :
  flag a (menu_flags s) = false → menu B a s = (Ret tt, set_enabled (menu_flags s) s).
Proof.
  intros Hflag. unfold menu, trigger. step. rewrite itemMenu_eq. simpl. by rewrite Hflag.
Qed.

Lemma menu_remove_unselected B s :
  cliplist_currentRow s = -1 →
  flag removeItemAction (menu_flags s) = false
  ∧ menu B removeItemAction s = (Ret tt, set_enabled (menu_flags s) s).
Proof.
  intros Hrow.
  assert (Hflag : flag removeItemAction (menu_flags s) = false).
  { unfold menu_flags. rewrite !flag_with_flag. simpl. by rewrite Hrow. }
  split; [done|]. by apply menu_disabled.
Qed.

(** C10, amended. The list widget showing the regions (as after every
    [renderTimes]):
    - [removeItem] run with no current row ([currentRow() = -1]) on a
      non-empty list deletes the last region, the negative index counting
      from the end, and returns normally; it leaves [inCut] as it was, also
      when that region was the open one.
    - The context menu never does so: while no row is current, [itemMenu]
      leaves Remove disabled and choosing it changes nothing but the flags
      of the menu.
    - With row [k] current, Remove from the menu deletes the region at [k]
      and clears [inCut] exactly when [k] was the last row (the open region)
      while cutting; Set Start is then enabled again and Set End disabled. *)
Theorem remove_wants_a_current_row (B : Backend) (s : State) :
  cliplist_count s = Z.of_nat (length (clipTimes s)) →
  (cliplist_currentRow s = -1 →
   (∀ init c, clipTimes s = init ++ [c] →
      result removeItem s = Ret tt
      ∧ clipTimes (run removeItem s) = init
      ∧ inCut (run removeItem s) = inCut s)
   ∧ flag removeItemAction (menu_flags s) = false
   ∧ menu B removeItemAction s = (Ret tt, set_enabled (menu_flags s) s))
  ∧ (∀ k, cliplist_currentRow s = Z.of_nat k → (k < length (clipTimes s))%nat →
       let s' := run (menu B removeItemAction) s in
       result (menu B removeItemAction) s = Ret tt
       ∧ clipTimes s' = delete k (clipTimes s)
       ∧ inCut s' = inCut s && negb (bool_decide (S k = length (clipTimes s)))
       ∧ (inCut s = true → S k = length (clipTimes s) →
          flag cutStartAction (enabled s') = true
          ∧ flag cutEndAction (enabled s') = false)).
Proof.
  intros Hcount. split.
  - intros Hrow. split; [|by apply menu_remove_unselected].
    intros init c Hc. unfold result, run.
    by rewrite (removeItem_unselected s init c Hc Hrow Hcount).
  - intros k Hrow Hk s'.
    destruct (menu_remove B s k Hcount Hrow Hk) as (Hres & Hclips & _ & _ & Hcut).
    fold s' in Hclips, Hcut. split; [done|]. split; [done|].
    destruct (inCut s) eqn:Ecut; cbn [andb] in *.
    + destruct (bool_decide (S k = length (clipTimes s))) eqn:Elast; cbn [negb].
      * destruct Hcut as (-> & H1 & H2). split; [done|]. done.
      * destruct Hcut as (-> & _). split; [done|].
        intros _ Hlast. apply bool_decide_eq_false in Elast. done.
    + destruct Hcut as (-> & _). split; [done|]. done.
Qed.

Lemma remove_wants_a_current_row_witness :
  menu reliable removeItemAction one_open
  = (Ret tt, set_enabled (menu_flags one_open) one_open).
Proof.
  refine (proj2 (proj2 (proj1 (remove_wants_a_current_row reliable one_open _) _))).
  - vm_compute. reflexivity.
  - vm_compute. reflexivity.
Defined.
